(** * ContributionsCalc: the rate-governed, resumable aggregation engine

    A shallow embedding of [src/main.py] (class
    [GitHubContributionAnalyzer]): the quota tracker
    ([update_rate_limit_info], [wait_for_rate_limit]), the paginated
    fetcher ([_paginated_request]), the stats aggregator
    ([get_user_stats]) and the run orchestrator ([analyze_users]); and,
    further down, the constructor with the checkpoint it loads
    ([__init__], [load_progress]) and the user names [main] reads and
    writes.

    The analyzer object and the outside world (HTTP server, clock, files,
    log) are one explicit [state]; every method is a function in a
    state-and-exception monad.  Python exceptions are values of [exn];
    [try]/[except] is [try_except].  The [while] loop and the recursion of
    [_paginated_request] are driven by a fuel counter; running out of fuel
    is the separate outcome [OutOfFuel], which no handler catches.

    What the embedding fixes about the world:
    - time is counted in whole seconds, and the clock moves only while the
      process sleeps;
    - a string is a sequence of characters with code points below 256;
    - a response carries its decoded JSON body (integers for numbers), and
      the two quota headers as the integers [int(...)] reads from them;
    - a Python set is a list without repetitions, iterated in insertion
      order;
    - writing the progress file and the results file succeeds (the source
      only logs a failed write), and a text file gives back the characters
      that were written to it;
    - of the log, the lines of the aggregator's outcome and of the
      orchestrator are kept. *)

From Stdlib Require Import Ascii String ZArith.
From stdpp Require Import gmap strings list pretty.

Local Open Scope string_scope.

(** ** Strings, as Python uses them *)

Module Str.

(** The character [chr(34)], written this way to keep literals simple. *)
Definition dquote : ascii := ascii_of_nat 34.

Fixpoint starts_with (p s : string) : bool :=
  match p, s with
  | EmptyString, _ => true
  | String a p', String b s' => bool_decide (a = b) && starts_with p' s'
  | String _ _, EmptyString => false
  end.

(** [p in s] on two strings. *)
Fixpoint contains (p s : string) : bool :=
  starts_with p s ||
  match s with
  | EmptyString => false
  | String _ s' => contains p s'
  end.

(** The lower-case form of a character: of [A] to [Z], and of the
    capital letters from code point 192 to 222, which leaves out the
    multiplication sign at 215. *)
Definition lower_char (c : ascii) : ascii :=
  let n := nat_of_ascii c in
  if ((65 <=? n)%nat && (n <=? 90)%nat)
     || ((192 <=? n)%nat && (n <=? 222)%nat && negb (n =? 215)%nat)
  then ascii_of_nat (n + 32) else c.

(** [s.lower()] *)
Fixpoint lower (s : string) : string :=
  match s with
  | EmptyString => EmptyString
  | String c s' => String (lower_char c) (lower s')
  end.

(** [s.split(sep)] for a one-character separator: never empty. *)
Fixpoint split (sep : ascii) (s : string) : list string :=
  match s with
  | EmptyString => [EmptyString]
  | String c s' =>
      if bool_decide (c = sep) then EmptyString :: split sep s'
      else match split sep s' with
           | [] => [String c EmptyString]
           | w :: ws => String c w :: ws
           end
  end.

(** [s.index(c)]: [None] stands for the [ValueError] of a missing
    character. *)
Fixpoint index (c : ascii) (s : string) : option nat :=
  match s with
  | EmptyString => None
  | String a s' => if bool_decide (a = c) then Some 0 else S <$> index c s'
  end.

(** [s[a:b]] for non-negative bounds. *)
Definition slice (a b : nat) (s : string) : string := substring a (b - a) s.

(** [s.replace(a, b)] for single characters. *)
Fixpoint replace (a b : ascii) (s : string) : string :=
  match s with
  | EmptyString => EmptyString
  | String c s' => String (if bool_decide (c = a) then b else c) (replace a b s')
  end.

(** [s.endswith(suffix)] *)
Fixpoint ends_with (suffix s : string) : bool :=
  bool_decide (s = suffix) ||
  match s with
  | EmptyString => false
  | String _ s' => ends_with suffix s'
  end.

(** [l[-1]] of a list of strings that is known to be non-empty. *)
Definition last_part (l : list string) : string := List.last l EmptyString.

End Str.

(** ** JSON values and the Python operations the code applies to them *)

#[warnings="-register-all"]
Inductive json : Type :=
| JNull
| JBool (b : bool)
| JNum (n : Z)
| JStr (s : string)
| JList (l : list json)
| JDict (d : list (string * json)).

(** Python exceptions that the modelled code can raise.  Only two classes
    are told apart by the handlers: [requests.exceptions.RequestException]
    and everything else under [Exception]. *)
Inductive exn : Type :=
| RequestException (msg : string)
| ApiRequestFailed (status : Z) (text : string)
| TypeError (msg : string)
| AttributeError (msg : string)
| KeyError (key : string)
| ValueError (msg : string).

(** [str(e)].  [ApiRequestFailed] is the
    [Exception(f"API request failed: {status} - {text}")] of the fetcher. *)
Definition str_exn (e : exn) : string :=
  match e with
  | RequestException msg => msg
  | ApiRequestFailed status text =>
      "API request failed: " +:+ pretty status +:+ " - " +:+ text
  | TypeError msg | AttributeError msg | ValueError msg => msg
  | KeyError key => "'" +:+ key +:+ "'"
  end.

Definition is_request_exception (e : exn) : bool :=
  match e with RequestException _ => true | _ => false end.

Module Py.

Definition type_name (j : json) : string :=
  match j with
  | JNull => "NoneType" | JBool _ => "bool" | JNum _ => "int"
  | JStr _ => "str" | JList _ => "list" | JDict _ => "dict"
  end.

(** [bool(j)] *)
Definition truthy (j : json) : bool :=
  match j with
  | JNull => false
  | JBool b => b
  | JNum n => negb (n =? 0)%Z
  | JStr s => negb (bool_decide (s = EmptyString))
  | JList l => match l with [] => false | _ => true end
  | JDict d => match d with [] => false | _ => true end
  end.

(** [j == s] for a string literal [s]. *)
Definition eq_str (j : json) (s : string) : bool :=
  match j with JStr t => bool_decide (t = s) | _ => false end.

Fixpoint lookup (k : string) (d : list (string * json)) : option json :=
  match d with
  | [] => None
  | (k', v) :: d' => if bool_decide (k' = k) then Some v else lookup k d'
  end.

(** [k in j]: element of a list, key of a dict, substring of a string. *)
Definition contains (k : string) (j : json) : exn + bool :=
  match j with
  | JList l => inr (existsb (fun x => eq_str x k) l)
  | JDict d => inr (bool_decide (is_Some (lookup k d)))
  | JStr s => inr (Str.contains k s)
  | _ => inl (TypeError ("argument of type '" +:+ type_name j +:+ "' is not iterable"))
  end.

(** [j[k]] for a string key, used only after [k in j] answered true. *)
Definition getitem (k : string) (j : json) : exn + json :=
  match j with
  | JDict d => match lookup k d with
               | Some v => inr v
               | None => inl (KeyError k)
               end
  | JList _ => inl (TypeError "list indices must be integers or slices, not str")
  | JStr _ => inl (TypeError "string indices must be integers, not 'str'")
  | _ => inl (TypeError ("'" +:+ type_name j +:+ "' object is not subscriptable"))
  end.

(** [j.get(k, dflt)]: only a dict has the method. *)
Definition get (k : string) (dflt : json) (j : json) : exn + json :=
  match j with
  | JDict d => inr (default dflt (lookup k d))
  | _ => inl (AttributeError ("'" +:+ type_name j +:+ "' object has no attribute 'get'"))
  end.

Fixpoint chars (s : string) : list json :=
  match s with
  | EmptyString => []
  | String c s' => JStr (String c EmptyString) :: chars s'
  end.

(** The elements [list.extend(j)] appends: those of a list, the keys of
    a dict, the characters of a string. *)
Definition iterate (j : json) : exn + list json :=
  match j with
  | JList l => inr l
  | JDict d => inr (map (fun kv => JStr (fst kv)) d)
  | JStr s => inr (chars s)
  | _ => inl (TypeError ("'" +:+ type_name j +:+ "' object is not iterable"))
  end.

(** The integer a value stands for in a comparison or a subtraction:
    [bool] is a subclass of [int]; nothing else the decoded JSON holds is
    a number. *)
Definition number (j : json) : option Z :=
  match j with
  | JNum n => Some n
  | JBool b => Some (if b then 1 else 0)%Z
  | _ => None
  end.

(** [j < n] for an [int] [n]. *)
Definition lt_int (j : json) (n : Z) : exn + bool :=
  match number j with
  | Some m => inr (m <? n)%Z
  | None => inl (TypeError ("'<' not supported between instances of '"
                            +:+ type_name j +:+ "' and 'int'"))
  end.

(** [t < j] for a time [t], which is a [float]. *)
Definition time_lt (t : Z) (j : json) : exn + bool :=
  match number j with
  | Some m => inr (t <? m)%Z
  | None => inl (TypeError ("'<' not supported between instances of 'float' and '"
                            +:+ type_name j +:+ "'"))
  end.

(** [j - t] for a time [t]. *)
Definition minus_time (j : json) (t : Z) : exn + Z :=
  match number j with
  | Some m => inr (m - t)%Z
  | None => inl (TypeError ("unsupported operand type(s) for -: '"
                            +:+ type_name j +:+ "' and 'float'"))
  end.

(** [len(j)] *)
Definition len (j : json) : exn + nat :=
  match j with
  | JList l => inr (length l)
  | JDict d => inr (length d)
  | JStr s => inr (String.length s)
  | _ => inl (TypeError ("object of type '" +:+ type_name j +:+ "' has no len()"))
  end.

End Py.

(** [d[k] = v] on a dict: an existing key keeps its place. *)
Fixpoint dict_set {V : Type} (k : string) (v : V) (d : list (string * V)) : list (string * V) :=
  match d with
  | [] => [(k, v)]
  | (k', v') :: d' =>
      if bool_decide (k' = k) then (k, v) :: d' else (k', v') :: dict_set k v d'
  end.

Fixpoint dict_get {V : Type} (k : string) (d : list (string * V)) : option V :=
  match d with
  | [] => None
  | (k', v) :: d' => if bool_decide (k' = k) then Some v else dict_get k d'
  end.

(** Sequencing of the Python operations that may raise. *)
Definition ebind {A B : Type} (x : exn + A) (k : A -> exn + B) : exn + B :=
  match x with inl e => inl e | inr a => k a end.

Notation "x <-? e ;; k" := (ebind e (fun x => k))
  (at level 100, e at next level, right associativity).

(** ** The outside world and the analyzer object *)

(** One HTTP response, as [requests] presents it.  [body] is the decoded
    [response.json()]; the three headers the code reads are fields, the
    two quota headers already as the integers [int(...)] makes of them. *)
Record response := Response {
  status_code : Z;
  text : string;
  body : json;
  x_ratelimit_remaining : option Z;
  x_ratelimit_reset : option Z;
  link : option string
}.

(** What [requests.get] does: a response, or a network-level failure
    (a [requests.exceptions.RequestException] with that message). *)
Inductive outcome :=
| Responded (r : response)
| Failed (msg : string).

(** The flat record [get_user_stats] returns: the [username] entry and the
    integer entries, in insertion order. *)
Record user_record := UserRecord {
  rec_username : string;
  rec_fields : list (string * nat)
}.

(** Effects on the outside world, newest first in [trace]. *)
Inductive event :=
| EvGet (url : string)
| EvSleep (seconds : Z)
| EvSaveProgress (users : list string)
| EvSaveResults (records : list user_record).

(** The log lines of the aggregator's outcome and of the orchestrator,
    newest first in [log].  The other [logger] calls carry no control flow
    and are left out. *)
Inductive logrec :=
| LogAnalyzing (username : string)
| LogSuccess (username : string)
| LogErrorAnalyzing (username msg : string)
| LogRateLimitExceeded
| LogRetrying (username : string)
| LogRetrySuccess (username : string)
| LogRetryFailed (username msg : string)
| LogStatsError (username msg : string)
| LogStatsCompleted (username : string).

(** The analyzer object ([self]) followed by the world it talks to.
    The two quota attributes hold what was last assigned to them: an
    integer from the constructor or from a response header, any decoded
    JSON value from the rate-limit payload.  [server n t url] is the answer
    to the [n]-th request of the process, sent at time [t] to [url].  Time
    is counted in whole seconds and moves only while the process sleeps. *)
Record state := State {
  organizations : list string;
  time_filter : string;
  rate_limit_remaining : json;
  rate_limit_reset : json;
  cache : gmap string json;
  completed_users : gset string;
  server : nat -> Z -> string -> outcome;
  clock : Z;
  requests_sent : nat;
  trace : list event;
  log : list logrec;
  progress_file : option (list string);
  results_file : option (list user_record)
}.

Definition set_remaining (v : json) (s : state) : state :=
  State (organizations s) (time_filter s) v (rate_limit_reset s) (cache s)
        (completed_users s) (server s) (clock s) (requests_sent s) (trace s)
        (log s) (progress_file s) (results_file s).

Definition set_reset (v : json) (s : state) : state :=
  State (organizations s) (time_filter s) (rate_limit_remaining s) v (cache s)
        (completed_users s) (server s) (clock s) (requests_sent s) (trace s)
        (log s) (progress_file s) (results_file s).

Definition set_cache (v : gmap string json) (s : state) : state :=
  State (organizations s) (time_filter s) (rate_limit_remaining s)
        (rate_limit_reset s) v (completed_users s) (server s) (clock s)
        (requests_sent s) (trace s) (log s) (progress_file s) (results_file s).

Definition set_completed (v : gset string) (s : state) : state :=
  State (organizations s) (time_filter s) (rate_limit_remaining s)
        (rate_limit_reset s) (cache s) v (server s) (clock s)
        (requests_sent s) (trace s) (log s) (progress_file s) (results_file s).

(** The world after one more request: counted and traced. *)
Definition sent (url : string) (s : state) : state :=
  State (organizations s) (time_filter s) (rate_limit_remaining s)
        (rate_limit_reset s) (cache s) (completed_users s) (server s) (clock s)
        (S (requests_sent s)) (EvGet url :: trace s) (log s) (progress_file s)
        (results_file s).

(** The world after sleeping [d] seconds. *)
Definition slept (d : Z) (s : state) : state :=
  State (organizations s) (time_filter s) (rate_limit_remaining s)
        (rate_limit_reset s) (cache s) (completed_users s) (server s)
        (clock s + d)%Z (requests_sent s) (EvSleep d :: trace s) (log s)
        (progress_file s) (results_file s).

Definition logged (r : logrec) (s : state) : state :=
  State (organizations s) (time_filter s) (rate_limit_remaining s)
        (rate_limit_reset s) (cache s) (completed_users s) (server s) (clock s)
        (requests_sent s) (trace s) (r :: log s) (progress_file s)
        (results_file s).

Definition progress_written (users : list string) (s : state) : state :=
  State (organizations s) (time_filter s) (rate_limit_remaining s)
        (rate_limit_reset s) (cache s) (completed_users s) (server s) (clock s)
        (requests_sent s) (EvSaveProgress users :: trace s) (log s) (Some users)
        (results_file s).

Definition results_written (records : list user_record) (s : state) : state :=
  State (organizations s) (time_filter s) (rate_limit_remaining s)
        (rate_limit_reset s) (cache s) (completed_users s) (server s) (clock s)
        (requests_sent s) (EvSaveResults records :: trace s) (log s)
        (progress_file s) (Some records).

(** ** The monad of the methods *)

Inductive result (A : Type) : Type :=
| Ok (a : A)
| Raise (e : exn)
| OutOfFuel.
Arguments Ok {A} a.
Arguments Raise {A} e.
Arguments OutOfFuel {A}.

Definition M (A : Type) : Type := state -> result A * state.

Definition ret {A : Type} (a : A) : M A := fun s => (Ok a, s).

Definition bind {A B : Type} (m : M A) (k : A -> M B) : M B :=
  fun s => match m s with
           | (Ok a, s') => k a s'
           | (Raise e, s') => (Raise e, s')
           | (OutOfFuel, s') => (OutOfFuel, s')
           end.

Notation "x <- m ;; k" := (bind m (fun x => k))
  (at level 100, m at next level, right associativity).
Notation "m ;; k" := (bind m (fun _ => k))
  (at level 100, right associativity).

Definition raise {A : Type} (e : exn) : M A := fun s => (Raise e, s).

Definition out_of_fuel {A : Type} : M A := fun s => (OutOfFuel, s).

(** [try: m  except <class> as e: h e], where [catches] selects the class. *)
Definition try_except {A : Type} (catches : exn -> bool) (m : M A) (h : exn -> M A) : M A :=
  fun s => match m s with
           | (Raise e, s') => if catches e then h e s' else (Raise e, s')
           | r => r
           end.

Definition any_exception (e : exn) : bool := true.

Definition lift {A : Type} (x : exn + A) : M A :=
  match x with inl e => raise e | inr a => ret a end.

Definition get : M state := fun s => (Ok s, s).

Definition modify (f : state -> state) : M unit := fun s => (Ok tt, f s).

(** [requests.get(url, headers=self.headers)] *)
Definition requests_get (url : string) : M response :=
  fun s => match server s (requests_sent s) (clock s) url with
           | Responded r => (Ok r, sent url s)
           | Failed msg => (Raise (RequestException msg), sent url s)
           end.

(** [time.time()] *)
Definition time_time : M Z := fun s => (Ok (clock s), s).

(** [time.sleep(d)] *)
Definition time_sleep (d : Z) : M unit := modify (slept d).

Definition logger (r : logrec) : M unit := modify (logged r).

(** ** Quota tracker *)

Definition base_url : string := "https://api.github.com".

(** [data['resources']['core'][field]]: whatever the payload holds
    there. *)
Definition core_field (field : string) (data : json) : exn + json :=
  resources <-? Py.getitem "resources" data ;;
  core <-? Py.getitem "core" resources ;;
  Py.getitem field core.

(** Lines 62-74.  The two assignments are separate statements: when the
    second lookup raises, the first has already happened.  Neither value
    is checked.  (The log line that follows them formats the reset time
    and may raise on a value that is no time stamp; that is after both
    assignments and inside the [try], so that it changes nothing here.) *)
Definition update_rate_limit_info : M unit :=
  try_except any_exception
    (response <- requests_get (base_url +:+ "/rate_limit") ;;
     if (status_code response =? 200)%Z then
       let data := body response in
       remaining <- lift (core_field "remaining" data) ;;
       modify (set_remaining remaining) ;;
       reset <- lift (core_field "reset" data) ;;
       modify (set_reset reset)
     else ret tt)
    (fun _ => ret tt).

(** Lines 76-85.  The comparisons and the subtraction raise [TypeError]
    on a quota attribute that is not a number; nothing here catches
    it. *)
Definition wait_for_rate_limit : M unit :=
  s <- get ;;
  low <- lift (Py.lt_int (rate_limit_remaining s) 10) ;;
  if low : bool then
    current_time <- time_time ;;
    early <- lift (Py.time_lt current_time (rate_limit_reset s)) ;;
    if early : bool then
      delta <- lift (Py.minus_time (rate_limit_reset s) current_time) ;;
      let wait_time := (delta + 5)%Z in
      time_sleep wait_time ;;
      update_rate_limit_info
    else ret tt
  else ret tt.

(** ** Paginated fetcher *)

(** The literal [rel="next"]. *)
Definition rel_next : string :=
  "rel=" +:+ String Str.dquote ("next" +:+ String Str.dquote EmptyString).

(** Lines 585-588 over [link_header.split(',')]: the first part that
    mentions [rel="next"] gives the target between [<] and [>]; a missing
    bracket is the [ValueError] of [str.index]. *)
Fixpoint next_link (links : list string) : exn + option string :=
  match links with
  | [] => inr None
  | link :: rest =>
      if Str.contains rel_next link then
        match Str.index "<" link with
        | None => inl (ValueError "substring not found")
        | Some a =>
            match Str.index ">" link with
            | None => inl (ValueError "substring not found")
            | Some b => inr (Some (Str.slice (a + 1) b link))
            end
        end
      else next_link rest
  end.

(** Truth value of [next_url]: [None] and the empty string end the loop. *)
Definition url_truthy (next_url : option string) : bool :=
  match next_url with
  | None => false
  | Some u => negb (bool_decide (u = EmptyString))
  end.

(** Lines 565-573: what [results] becomes on a page when it was still
    [None], and whether the loop breaks. *)
Definition init_results (results data : json) : json * bool :=
  match results with
  | JNull =>
      match data with
      | JList _ => (JList [], false)
      | JDict d =>
          if bool_decide (is_Some (Py.lookup "items" d))
          then (JDict [("items", JList [])], false)
          else (data, true)
      | _ => (data, true)
      end
  | _ => (results, false)
  end.

(** [results['items'].extend(data['items'])], in evaluation order: the
    target list, its [extend] method, the argument, the call. *)
Definition extend_items (results data : json) : exn + json :=
  target <-? Py.getitem "items" results ;;
  match target with
  | JList acc =>
      source <-? Py.getitem "items" data ;;
      more <-? Py.iterate source ;;
      match results with
      | JDict d => inr (JDict (dict_set "items" (JList (acc ++ more)) d))
      | _ => inr results
      end
  | _ => inl (AttributeError
                ("'" +:+ Py.type_name target +:+ "' object has no attribute 'extend'"))
  end.

(** Lines 575-579. *)
Definition combine (results data : json) : exn + json :=
  match results, data with
  | JList acc, JList l => inr (JList (acc ++ l))
  | _, _ =>
      in_results <-? Py.contains "items" results ;;
      if in_results : bool then
        in_data <-? Py.contains "items" data ;;
        if in_data : bool then extend_items results data else inr results
      else inr results
  end.

(** How one pass through the loop body ends. *)
Inductive flow :=
| NextPage (next_url : option string) (results : json) (retry_count : nat)
| Break (results : json)
| Return (v : json).

(** Lines 543-546. *)
Definition note_headers (r : response) : M unit :=
  (match x_ratelimit_remaining r with
   | Some n => modify (set_remaining (JNum n))
   | None => ret tt
   end) ;;
  match x_ratelimit_reset r with
  | Some n => modify (set_reset (JNum n))
  | None => ret tt
  end.

Definition quota_exceeded (r : response) : bool :=
  (status_code r =? 403)%Z && Str.contains "rate limit exceeded" (Str.lower (text r)).

(** Lines 539-593, the [try] body for the page at [target]; [restart] is
    the recursive call [self._paginated_request(url)]. *)
Definition request_page (restart : M json) (target : string) (results : json) : M flow :=
  response <- requests_get target ;;
  note_headers response ;;
  early <- (if quota_exceeded response then
              s <- get ;;
              now <- time_time ;;
              delta <- lift (Py.minus_time (rate_limit_reset s) now) ;;
              let wait_time := (delta + 5)%Z in
              if (0 <? wait_time)%Z then
                time_sleep wait_time ;;
                v <- restart ;;
                ret (Some v)
              else
                update_rate_limit_info ;;
                ret None
            else ret None) ;;
  match early with
  | Some v => ret (Return v)
  | None =>
      if negb (status_code response =? 200)%Z then
        raise (ApiRequestFailed (status_code response) (text response))
      else
        let data := body response in
        let '(results, stop) := init_results results data in
        if stop : bool then ret (Break results)
        else
          results <- lift (combine results data) ;;
          next_url <- lift (next_link (Str.split "," (default EmptyString (link response)))) ;;
          (if url_truthy next_url then wait_for_rate_limit else ret tt) ;;
          ret (NextPage next_url results 0)
  end.

Definition max_retries : nat := 3.

(** Lines 594-604, the handler of [requests.exceptions.RequestException]. *)
Definition on_request_exception (next_url : option string) (results : json)
    (retry_count : nat) (e : exn) : M flow :=
  if (retry_count <? max_retries)%nat then
    let retry_count := S retry_count in
    let wait_time := (2 ^ Z.of_nat retry_count)%Z in
    time_sleep wait_time ;;
    ret (NextPage next_url results retry_count)
  else raise e.

Definition cache_store (url : string) (results : json) : M unit :=
  s <- get ;;
  modify (set_cache (<[url := results]> (cache s))).

(** Lines 513-608.  [_paginated_request] is the method; [fetch_pages] is
    its [while next_url:] loop with the loop variables as arguments.
    [JNull] is Python's [None] for [results]. *)
Fixpoint _paginated_request (fuel : nat) (url : string) {struct fuel} : M json :=
  fun s =>
    match cache s !! url with
    | Some cached => (Ok cached, s)
    | None =>
        match fuel with
        | 0 => (OutOfFuel, s)
        | S fuel' =>
            (wait_for_rate_limit ;;
             fetch_pages fuel' url (Some url) JNull 0) s
        end
    end
with fetch_pages (fuel : nat) (url : string) (next_url : option string)
       (results : json) (retry_count : nat) {struct fuel} : M json :=
  if url_truthy next_url then
    match fuel with
    | 0 => out_of_fuel
    | S fuel' =>
        step <- try_except is_request_exception
                  (request_page (_paginated_request fuel' url)
                                (default EmptyString next_url) results)
                  (on_request_exception next_url results retry_count) ;;
        match step with
        | NextPage next_url results retry_count =>
            fetch_pages fuel' url next_url results retry_count
        | Break results => cache_store url results ;; ret results
        | Return v => ret v
        end
    end
  else
    cache_store url results ;; ret results.

(** ** Stats aggregator *)

(** The counters every [org_stats] dict and the overall [stats] dict
    share.  [repos_contributed] is kept apart: it is a set that turns into
    a number. *)
Inductive metric :=
| pr_total | pr_merged | pr_open | commits
| issues_opened | issues_closed | issues_commented | reviews_submitted.

Global Instance metric_eq_dec : EqDecision metric.
Proof. solve_decision. Defined.

Definition metric_key (m : metric) : string :=
  match m with
  | pr_total => "pr_total" | pr_merged => "pr_merged" | pr_open => "pr_open"
  | commits => "commits" | issues_opened => "issues_opened"
  | issues_closed => "issues_closed" | issues_commented => "issues_commented"
  | reviews_submitted => "reviews_submitted"
  end.

Definition counts : Type := metric -> nat.

Definition zero : counts := fun _ => 0.

(** [c[m] += n] *)
Definition bump (m : metric) (n : nat) (c : counts) : counts :=
  fun m' => if bool_decide (m' = m) then c m' + n else c m'.

(** [c[m] = n] *)
Definition assign (m : metric) (n : nat) (c : counts) : counts :=
  fun m' => if bool_decide (m' = m) then n else c m'.

(** The value under ['repos_contributed'] of one organization: a set of
    repository names (in insertion order) until line 250 replaces it by
    its size. *)
Inductive repos :=
| RepoSet (names : list string)
| RepoCount (n : nat).

Definition set_add (x : string) (l : list string) : list string :=
  if bool_decide (x ∈ l) then l else l ++ [x].

Record org_stats := OrgStats {
  org_count : counts;
  org_repos : repos
}.

(** The fresh dict of lines 139-149. *)
Definition fresh_org_stats : org_stats := OrgStats zero (RepoSet []).

(** The [stats] dict up to line 256: overall counters, the overall set of
    [org/repo] names and [stats['organizations']]. *)
Record stats := Stats {
  total : counts;
  repos_contributed : list string;
  per_org : gmap string org_stats
}.

(** While one organization is processed, [org_stats] aliases
    [stats['organizations'][org]]; the three mutable parts travel
    together and are stored back when the organization is done ([stats] is
    local to the call and lost when it raises). *)
Record acc := Acc {
  acc_org : org_stats;
  acc_total : counts;
  acc_repos : list string
}.

(** [org_stats[m] += n; stats[m] += n] *)
Definition bump_both (m : metric) (n : nat) (a : acc) : acc :=
  Acc (OrgStats (bump m n (org_count (acc_org a))) (org_repos (acc_org a)))
      (bump m n (acc_total a)) (acc_repos a).

(** [org_stats[m] = n; stats[m] += org_stats[m]] *)
Definition assign_and_add (m : metric) (n : nat) (a : acc) : acc :=
  Acc (OrgStats (assign m n (org_count (acc_org a))) (org_repos (acc_org a)))
      (bump m n (acc_total a)) (acc_repos a).

(** Lines 177-181 and 199-203. *)
Definition note_repo (org : string) (item : json) (a : acc) : exn + acc :=
  repo_url <-? Py.get "repository_url" (JStr EmptyString) item ;;
  if Py.truthy repo_url then
    match repo_url with
    | JStr u =>
        let repo_name := Str.last_part (Str.split "/" u) in
        match org_repos (acc_org a) with
        | RepoSet names =>
            inr (Acc (OrgStats (org_count (acc_org a)) (RepoSet (set_add repo_name names)))
                     (acc_total a)
                     (set_add (org +:+ "/" +:+ repo_name) (acc_repos a)))
        | RepoCount _ => inl (AttributeError "'int' object has no attribute 'add'")
        end
    | _ => inl (AttributeError
                  ("'" +:+ Py.type_name repo_url +:+ "' object has no attribute 'split'"))
    end
  else inr a.

(** Lines 167-174: the classification of one pull request. *)
Definition classify_pr (pr : json) (a : acc) : exn + acc :=
  state <-? Py.get "state" JNull pr ;;
  if Py.eq_str state "open" then inr (bump_both pr_open 1 a)
  else if Py.eq_str state "closed" then
    pull_request <-? Py.get "pull_request" (JDict []) pr ;;
    merged_at <-? Py.get "merged_at" JNull pull_request ;;
    if Py.truthy merged_at then inr (bump_both pr_merged 1 a) else inr a
  else inr a.

(** Lines 166-181, one iteration. *)
Definition count_pr (org : string) (pr : json) (a : acc) : exn + acc :=
  a <-? classify_pr pr a ;;
  note_repo org pr a.

(** Lines 193-203, one iteration. *)
Definition count_issue (org : string) (issue : json) (a : acc) : exn + acc :=
  state <-? Py.get "state" JNull issue ;;
  let a := if Py.eq_str state "closed" then bump_both issues_closed 1 a else a in
  note_repo org issue a.

(** A [for] loop whose body may raise. *)
Fixpoint for_each {A S : Type} (f : A -> S -> exn + S) (l : list A) (s : S) : exn + S :=
  match l with
  | [] => inr s
  | x :: l' => s <-? f x s ;; for_each f l' s
  end.

(** [data and 'items' in data] *)
Definition has_items (data : json) : exn + bool :=
  if Py.truthy data then Py.contains "items" data else inr false.

(** Lines 160-181. *)
Definition count_prs (org : string) (pr_data : json) (a : acc) : exn + acc :=
  ok <-? has_items pr_data ;;
  if ok : bool then
    pr_items <-? Py.getitem "items" pr_data ;;
    n <-? Py.len pr_items ;;
    prs <-? Py.iterate pr_items ;;
    for_each (count_pr org) prs (assign_and_add pr_total n a)
  else inr a.

(** Lines 187-203. *)
Definition count_issues (org : string) (issues_data : json) (a : acc) : exn + acc :=
  ok <-? has_items issues_data ;;
  if ok : bool then
    issue_items <-? Py.getitem "items" issues_data ;;
    n <-? Py.len issue_items ;;
    issues <-? Py.iterate issue_items ;;
    for_each (count_issue org) issues (assign_and_add issues_opened n a)
  else inr a.

(** Lines 226-228. *)
Definition count_reviews (review_data : json) (a : acc) : exn + acc :=
  ok <-? has_items review_data ;;
  if ok : bool then
    items <-? Py.getitem "items" review_data ;;
    n <-? Py.len items ;;
    inr (assign_and_add reviews_submitted n a)
  else inr a.

(** One of the two additions of lines 241-244. *)
Definition add_comments (data : json) (comment_count : nat) : exn + nat :=
  ok <-? has_items data ;;
  if ok : bool then
    items <-? Py.getitem "items" data ;;
    n <-? Py.len items ;;
    inr (comment_count + n)
  else inr comment_count.

(** Lines 240-247. *)
Definition count_comments (comments_data_issues comments_data_prs : json) (a : acc)
    : exn + acc :=
  comment_count <-? add_comments comments_data_issues 0 ;;
  comment_count <-? add_comments comments_data_prs comment_count ;;
  inr (assign_and_add issues_commented comment_count a).

Definition repo_batch_size : nat := 3.

(** [[repo_list[i:i+size] for i in range(0, len(repo_list), size)]] *)
Definition batches (size : nat) (repo_list : list string) : list (list string) :=
  map (fun k => take size (drop (k * size) repo_list))
      (seq 0 ((length repo_list + (size - 1)) / size)).

(** The query URLs of [get_user_stats]. *)
Definition search_url (qualifier username org kind time_filter : string) : string :=
  base_url +:+ "/search/issues?q=" +:+ qualifier +:+ ":" +:+ username
    +:+ "+org:" +:+ org +:+ "+is:" +:+ kind +:+ time_filter +:+ "&per_page=100".

Definition commits_url (org repo_name username : string) : string :=
  base_url +:+ "/repos/" +:+ org +:+ "/" +:+ repo_name
    +:+ "/commits?author=" +:+ username +:+ "&per_page=100".

(** A [for] loop in the monad of the methods. *)
Fixpoint for_each_M {A S : Type} (f : A -> S -> M S) (l : list A) (s : S) : M S :=
  match l with
  | [] => ret s
  | x :: l' => s <- f x s ;; for_each_M f l' s
  end.

(** Lines 213-217. *)
Definition count_repo_commits (fuel : nat) (username org repo_name : string) (a : acc)
    : M acc :=
  repo_commits <- _paginated_request fuel (commits_url org repo_name username) ;;
  match repo_commits with
  | JList l => ret (bump_both commits (length l) a)
  | _ => ret a
  end.

(** Lines 211-221. *)
Definition count_batch (fuel : nat) (username org : string) (batch_repos : list string)
    (a : acc) : M acc :=
  a <- for_each_M (count_repo_commits fuel username org) batch_repos a ;;
  update_rate_limit_info ;;
  wait_for_rate_limit ;;
  ret a.

(** Lines 153-250: one organization. *)
Definition process_org (fuel : nat) (username org : string) (st : stats) : M stats :=
  s <- get ;;
  let tf := time_filter s in
  let a := Acc (default fresh_org_stats (per_org st !! org)) (total st) (repos_contributed st) in
  pr_data <- _paginated_request fuel (search_url "author" username org "pr" tf) ;;
  a <- lift (count_prs org pr_data a) ;;
  issues_data <- _paginated_request fuel (search_url "author" username org "issue" tf) ;;
  a <- lift (count_issues org issues_data a) ;;
  repo_list <- lift (match org_repos (acc_org a) with
                     | RepoSet names => inr names
                     | RepoCount _ => inl (TypeError "'int' object is not iterable")
                     end) ;;
  a <- for_each_M (count_batch fuel username org) (batches repo_batch_size repo_list) a ;;
  review_data <- _paginated_request fuel (search_url "reviewed-by" username org "pr" tf) ;;
  a <- lift (count_reviews review_data a) ;;
  comments_data_issues <-
    _paginated_request fuel (search_url "commenter" username org "issue" tf) ;;
  wait_for_rate_limit ;;
  comments_data_prs <-
    _paginated_request fuel (search_url "commenter" username org "pr" tf) ;;
  a <- lift (count_comments comments_data_issues comments_data_prs a) ;;
  n <- lift (match org_repos (acc_org a) with
             | RepoSet names => inr (length names)
             | RepoCount _ => inl (TypeError "object of type 'int' has no len()")
             end) ;;
  ret (Stats (acc_total a) (acc_repos a)
             (<[org := OrgStats (org_count (acc_org a)) (RepoCount n)]> (per_org st))).

(** Lines 123-149. *)
Definition initial_stats (orgs : list string) : stats :=
  Stats zero [] (foldl (fun table org => <[org := fresh_org_stats]> table) ∅ orgs).

(** Lines 123-250, without the handler. *)
Definition collect_stats (fuel : nat) (username : string) : M stats :=
  s <- get ;;
  for_each_M (process_org fuel username) (organizations s)
             (initial_stats (organizations s)).

Definition leading_metrics : list metric :=
  [pr_total; pr_merged; pr_open; commits; issues_opened; issues_closed; issues_commented].

(** The size under ['repos_contributed'], a number once the organization
    has been processed. *)
Definition repos_size (r : repos) : nat :=
  match r with RepoSet names => length names | RepoCount n => n end.

(** [org_stats.items()], in the insertion order of lines 139-149. *)
Definition org_items (o : org_stats) : list (string * nat) :=
  (map (fun m => (metric_key m, org_count o m)) leading_metrics
   ++ [("repos_contributed", repos_size (org_repos o));
       ("reviews_submitted", org_count o reviews_submitted)])%list.

(** The keys of [org_items], and of the overall entries of the record. *)
Definition item_keys : list string :=
  ["pr_total"; "pr_merged"; "pr_open"; "commits"; "issues_opened"; "issues_closed";
   "issues_commented"; "repos_contributed"; "reviews_submitted"].

Definition org_prefix (org : string) : string := Str.replace "-" "_" org +:+ "_".

(** Lines 259-262 for one organization. *)
Definition flatten_org (table : gmap string org_stats) (fields : list (string * nat))
    (org : string) : list (string * nat) :=
  foldl (fun fields kv => dict_set (org_prefix org +:+ fst kv) (snd kv) fields)
        fields (org_items (default fresh_org_stats (table !! org))).

(** Lines 256-265: the flat record. *)
Definition flatten (username : string) (orgs : list string) (st : stats) : user_record :=
  let overall :=
    (map (fun m => (metric_key m, total st m)) leading_metrics
     ++ [("repos_contributed", length (repos_contributed st));
         ("reviews_submitted", total st reviews_submitted)])%list in
  UserRecord username (foldl (flatten_org (per_org st)) overall orgs).

(** Lines 113-268. *)
Definition get_user_stats (fuel : nat) (username : string) : M user_record :=
  st <- try_except any_exception (collect_stats fuel username)
          (fun e => logger (LogStatsError username (str_exn e)) ;; raise e) ;;
  s <- get ;;
  logger (LogStatsCompleted username) ;;
  ret (flatten username (organizations s) st).

(** ** Checkpoint store and run orchestrator *)

(** Lines 87-98.  The write is taken to succeed (a failing one is only
    logged); the [last_updated] stamp is not kept. *)
Definition save_progress : M unit :=
  s <- get ;;
  modify (progress_written (elements (completed_users s))).

(** [self.completed_users.add(username)] *)
Definition mark_completed (username : string) : M unit :=
  s <- get ;;
  modify (set_completed ({[username]} ∪ completed_users s)).

Definition rate_limit_message (e : exn) : bool :=
  Str.contains "API rate limit exceeded" (str_exn e).

(** Lines 312-322: the retry and its own handler. *)
Definition retry_user (fuel : nat) (username : string) (results : list user_record)
    : M (list user_record) :=
  try_except any_exception
    (logger (LogRetrying username) ;;
     user_stats <- get_user_stats fuel username ;;
     let results := (results ++ [user_stats])%list in
     mark_completed username ;;
     save_progress ;;
     logger (LogRetrySuccess username) ;;
     ret results)
    (fun retry_error =>
       logger (LogRetryFailed username (str_exn retry_error)) ;;
       save_progress ;;
       ret results).

(** Lines 302-322: the handler of the first attempt. *)
Definition on_user_error (fuel : nat) (username : string) (results : list user_record)
    (e : exn) : M (list user_record) :=
  logger (LogErrorAnalyzing username (str_exn e)) ;;
  if rate_limit_message e then
    logger LogRateLimitExceeded ;;
    update_rate_limit_info ;;
    wait_for_rate_limit ;;
    retry_user fuel username results
  else ret results.

(** Lines 288-322: the body of the loop over [pending_users]. *)
Definition analyze_user (fuel : nat) (username : string) (results : list user_record)
    : M (list user_record) :=
  logger (LogAnalyzing username) ;;
  try_except any_exception
    (update_rate_limit_info ;;
     wait_for_rate_limit ;;
     user_stats <- get_user_stats fuel username ;;
     let results := (results ++ [user_stats])%list in
     mark_completed username ;;
     save_progress ;;
     logger (LogSuccess username) ;;
     ret results)
    (on_user_error fuel username results).

(** Lines 332-335: the records of the results file that are taken over. *)
Fixpoint merge_cached (completed : gset string) (cached_results results : list user_record)
    : list user_record :=
  match cached_results with
  | [] => results
  | cached_user :: rest =>
      if bool_decide (rec_username cached_user ∈ completed)
         && negb (bool_decide (rec_username cached_user ∈ map rec_username results))
      then merge_cached completed rest (results ++ [cached_user])
      else merge_cached completed rest results
  end.

(** Lines 270-347.  The results file, when present, holds what an earlier
    run dumped: a list of records. *)
Definition analyze_users (fuel : nat) (usernames : list string) : M (list user_record) :=
  s <- get ;;
  let pending_users :=
    filter (fun u => u ∉ completed_users s) usernames in
  results <- for_each_M (analyze_user fuel) pending_users [] ;;
  s <- get ;;
  let results :=
    if bool_decide (completed_users s ∖ list_to_set pending_users ≠ ∅) then
      match results_file s with
      | Some cached_results => merge_cached (completed_users s) cached_results results
      | None => results
      end
    else results in
  modify (results_written results) ;;
  ret results.

(** ** Observations on a run *)

(** The state after the quota check
    [update_rate_limit_info(); wait_for_rate_limit()], whether the wait
    has returned or raised. *)
Definition refreshed (s : state) : state :=
  snd (wait_for_rate_limit (snd (update_rate_limit_info s))).

Definition is_save (e : event) : bool :=
  match e with EvSaveProgress _ => true | _ => false end.

(** How often the progress file has been written. *)
Definition checkpoint_writes (tr : list event) : nat := length (List.filter is_save tr).

(** What a method of the quota tracker, the fetcher or the aggregator
    leaves alone: the configuration, the completion set, the server, both
    files and the number of checkpoint writes. *)
Record calm (s s' : state) : Prop := Calm {
  calm_organizations : organizations s' = organizations s;
  calm_time_filter : time_filter s' = time_filter s;
  calm_completed : completed_users s' = completed_users s;
  calm_server : server s' = server s;
  calm_progress : progress_file s' = progress_file s;
  calm_results : results_file s' = results_file s;
  calm_writes : checkpoint_writes (trace s') = checkpoint_writes (trace s)
}.

Definition same_log (s s' : state) : Prop := log s' = log s.

Definition same_cache (s s' : state) : Prop := cache s' = cache s.

Definition same_clock (s s' : state) : Prop := clock s' = clock s.

Definition cache_grows (s s' : state) : Prop := cache s ⊆ cache s'.

(** The invocations of [get_user_stats] for [username] that have ended,
    read off the log: each one logs its outcome once. *)
Definition is_attempt (username : string) (r : logrec) : bool :=
  match r with
  | LogStatsError u _ | LogStatsCompleted u => bool_decide (u = username)
  | _ => false
  end.

Definition attempts (username : string) (l : list logrec) : nat :=
  length (List.filter (is_attempt username) l).

(** The invocations of [get_user_stats] for [username] that returned a
    record: the line the method logs itself before it returns
    (line 267). *)
Definition is_completion (username : string) (r : logrec) : bool :=
  match r with
  | LogStatsCompleted u => bool_decide (u = username)
  | _ => false
  end.

Definition completions (username : string) (l : list logrec) : nat :=
  length (List.filter (is_completion username) l).

(** The failed first attempts at [username] that the orchestrator caught
    (line 303). *)
Definition is_failure_of (username : string) (r : logrec) : bool :=
  match r with
  | LogErrorAnalyzing u _ => bool_decide (u = username)
  | _ => false
  end.

Definition failures_of (username : string) (l : list logrec) : nat :=
  length (List.filter (is_failure_of username) l).

(** Lines 291-294: the quota check and the aggregation of the first
    attempt at a user. *)
Definition first_attempt (fuel : nat) (username : string) : M user_record :=
  update_rate_limit_info ;;
  wait_for_rate_limit ;;
  get_user_stats fuel username.

(** The records of [username] in a result list. *)
Definition records_of (username : string) (results : list user_record) : nat :=
  length (List.filter (fun r => bool_decide (rec_username r = username)) results).

(** How often [username] stands in a list of user names. *)
Definition occurrences (username : string) (usernames : list string) : nat :=
  length (List.filter (fun v => bool_decide (v = username)) usernames).


(** [stats['organizations'][org]] *)
Definition org_entry (st : stats) (org : string) : org_stats :=
  default fresh_org_stats (per_org st !! org).

(** The world after [k] failed requests for [target] in a row, each
    followed by the back-off sleep of lines 597-600. *)
Fixpoint after_failures (target : string) (k : nat) (s : state) : state :=
  match k with
  | 0 => s
  | S k' => slept (2 ^ Z.of_nat k) (sent target (after_failures target k' s))
  end.

(** No element is the bare string ['items']: true of every list of
    records. *)
Definition no_items_string (l : list json) : Prop :=
  existsb (fun x => Py.eq_str x "items") l = false.

(** [pr.get('pull_request', {}).get('merged_at')] of a record [d]; [None]
    when ['pull_request'] is present and not a dict, so that the second
    [get] raises. *)
Definition merge_timestamp (d : list (string * json)) : option json :=
  match Py.lookup "pull_request" d with
  | None => Some JNull
  | Some (JDict p) => Some (default JNull (Py.lookup "merged_at" p))
  | Some _ => None
  end.

(** ** Vocabulary of the properties *)

(** [keeps R m]: whatever [m] does and however it ends, the state it
    leaves is related by [R] to the one it started in. *)

Definition keeps {A : Type} (R : relation state) (m : M A) : Prop :=
  forall s, R s (snd (m s)).

(** What a fetch of [url] does to the cache: a result is stored under
    [url], and nothing else changes; a fetch that raises stores nothing. *)
Definition cache_effect (url : string) (s : state) (out : result json * state) : Prop :=
  match out with
  | (Ok r, s') => cache s' = <[url := r]> (cache s)
  | (_, s') => cache s' = cache s
  end.

Definition page_cache_effect (url : string) (s : state) (out : result flow * state) : Prop :=
  match out with
  | (Ok (Return v), s') => cache s' = <[url := v]> (cache s)
  | (_, s') => cache s' = cache s
  end.

(** The state after a successful analysis of [username] that ended in
    [s]: lines 298-301 (and 316-318 with the other log line). *)
Definition completed_in (username : string) (note : logrec) (s : state) : state :=
  logged note
    (progress_written (elements ({[username]} ∪ completed_users s))
       (set_completed ({[username]} ∪ completed_users s) s)).

(** The error of a comparison or a subtraction on a quota attribute that
    is not a number (lines 78, 80, 81 and 549). *)
Definition quota_type_error (e : exn) : Prop :=
  exists j, Py.number j = None
            /\ (Py.lt_int j 10 = inl e
                \/ (exists t, Py.time_lt t j = inl e)
                \/ (exists t, Py.minus_time j t = inl e)).

(** [counted_as k a a']: from [a] to [a'] the counter [k], when there is
    one, has gone up by one, in the counters of the organization and in
    the overall ones, and no other counter has changed. *)
Definition counted_as (k : option metric) (a a' : acc) : Prop :=
  forall m,
    org_count (acc_org a') m
    = org_count (acc_org a) m + (if bool_decide (k = Some m) then 1 else 0)
    /\ acc_total a' m
       = acc_total a m + (if bool_decide (k = Some m) then 1 else 0).

(** [yields m Q]: every value [m] returns satisfies [Q]. *)
Definition yields {A : Type} (m : M A) (Q : A -> Prop) : Prop :=
  forall s a s', m s = (Ok a, s') -> Q a.

(** The order in which the counters of an organization are written. *)
Definition phase (m : metric) : nat :=
  match m with
  | pr_total | pr_merged | pr_open => 1
  | issues_opened | issues_closed => 2
  | commits => 3
  | reviews_submitted => 4
  | issues_commented => 5
  end.

(** The accumulator of an organization that is processed for the first
    time, after phase [k]: the overall counters are the ones at entry plus
    the organization's, later counters are still zero, and every
    repository of the organization has its [org/repo] name in the overall
    set. *)
Record tracks (org : string) (base : counts) (base_repos : nat) (k : nat) (a : acc)
  : Prop := Tracks {
  tr_total : forall m, acc_total a m = base m + org_count (acc_org a) m;
  tr_zero : forall m, k < phase m -> org_count (acc_org a) m = 0;
  tr_repos : exists names,
      org_repos (acc_org a) = RepoSet names
      /\ length (acc_repos a) <= base_repos + length names
      /\ forall r, r ∈ names -> (org +:+ "/" +:+ r) ∈ acc_repos a
}.

(** The accumulator of an organization that was processed before. *)
Definition counted (a : acc) : Prop := exists n, org_repos (acc_org a) = RepoCount n.

(** The [stats] dict once the organizations [done] have been processed,
    in that order: they are distinct, each holds its repository count, the
    overall counters are the sums over them, the overall repository set is
    no larger than their counts together, and every other organization
    still has its fresh entry. *)
Record aggregated (done : list string) (st : stats) : Prop := Aggregated {
  agg_nodup : NoDup done;
  agg_total : forall m,
      total st m = sum_list_with (fun org => org_count (org_entry st org) m) done;
  agg_repos :
      length (repos_contributed st)
      <= sum_list_with (fun org => repos_size (org_repos (org_entry st org))) done;
  agg_done : forall org, org ∈ done -> exists n, org_repos (org_entry st org) = RepoCount n;
  agg_fresh : forall org, org ∉ done -> org_entry st org = fresh_org_stats
}.

(** ** Stub servers and start states for the worked examples *)

Module Stub.

Definition ok (b : json) : outcome := Responded (Response 200 EmptyString b None None None).

Definition quota_payload (remaining reset : Z) : json :=
  JDict [("resources", JDict [("core", JDict [("remaining", JNum remaining);
                                              ("reset", JNum reset)])])].

Definition is_rate_limit_url (url : string) : bool := Str.contains "/rate_limit" url.

(** A fresh analyzer at time 1000 with the default quota. *)
Definition start (orgs : list string) (srv : nat -> Z -> string -> outcome) : state :=
  State orgs EmptyString (JNum 5000) (JNum 0) ∅ ∅ srv 1000 0 [] [] None None.

(** Fewer than ten requests left, and the reset time reached two seconds
    ago. *)
Definition late : state :=
  State [] EmptyString (JNum 5) (JNum 100) ∅ ∅ (fun _ _ _ => Failed "unreachable")
        102 0 [] [] None None.

(** Five requests left, and the reset time ten seconds ahead. *)
Definition short (srv : nat -> Z -> string -> outcome) : state :=
  State [] EmptyString (JNum 5) (JNum 1010) ∅ ∅ srv 1000 0 [] [] None None.

Definition page_url : string := base_url +:+ "/repos/acme/widget/commits".

Definition page2_url : string := page_url +:+ "?page=2".

Definition commit (sha : string) : json := JDict [("sha", JStr sha)].

(** The [Link] header that points to [url] as the next page. *)
Definition next_to (url : string) : string := "<" +:+ url +:+ ">; " +:+ rel_next.

(** Two pages of a bare list. *)
Definition paged (n : nat) (t : Z) (url : string) : outcome :=
  if bool_decide (url = page2_url) then ok (JList [commit "b"])
  else Responded (Response 200 EmptyString (JList [commit "a"]) None None
                    (Some (next_to page2_url))).

(** A bare list on the first page, an [items] wrapper on the second. *)
Definition mixed (n : nat) (t : Z) (url : string) : outcome :=
  if bool_decide (url = page2_url) then ok (JDict [("items", JList [commit "b"])])
  else Responded (Response 200 EmptyString (JList [commit "a"]) None None
                    (Some (next_to page2_url))).

(** No network. *)
Definition offline (n : nat) (t : Z) (url : string) : outcome :=
  Failed "connection refused".

Definition rate_limited (reset : Z) : response :=
  Response 403 "API rate limit exceeded for user ID 1." JNull (Some 0%Z) (Some reset) None.

(** Out of quota for good, with a reset time that has passed. *)
Definition limited (n : nat) (t : Z) (url : string) : outcome :=
  if is_rate_limit_url url then ok (quota_payload 0 900)
  else Responded (rate_limited 900).

(** The first page of a list is served once; the request for the second
    page is answered with the quota signal, reset ten seconds ahead, the
    first time and with the page afterwards; and from then on the first
    page cannot be reached. *)
Definition flaky (n : nat) (t : Z) (url : string) : outcome :=
  if bool_decide (url = page2_url) then
    match n with
    | 1 => Responded (rate_limited 1010)
    | _ => ok (JList [commit "b"])
    end
  else
    match n with
    | 0 => Responded (Response 200 EmptyString (JList [commit "a"]) None None
                        (Some (next_to page2_url)))
    | S _ => Failed "connection reset"
    end.

(** Out of quota as [limited], with the message in capitals. *)
Definition shouting (n : nat) (t : Z) (url : string) : outcome :=
  if is_rate_limit_url url then ok (quota_payload 0 900)
  else Responded (Response 403 "API Rate Limit Exceeded" JNull (Some 0%Z) (Some 900%Z) None).

(** A server that fails every query with status 500. *)
Definition broken (n : nat) (t : Z) (url : string) : outcome :=
  if is_rate_limit_url url then ok (quota_payload 4000 5000)
  else Responded (Response 500 "Internal Server Error" JNull None None None).

Definition pr_item (st : string) (merged_at : json) : json :=
  JDict [("state", JStr st); ("pull_request", JDict [("merged_at", merged_at)]);
         ("repository_url", JStr "https://api.github.com/repos/acme/widget")].

(** One organization, one repository: two pull requests of the user (one
    merged, one open), one closed issue, four commits, one review. *)
Definition acme (n : nat) (t : Z) (url : string) : outcome :=
  if Str.contains "q=author:alice+org:acme+is:pr" url then
    ok (JDict [("total_count", JNum 2);
               ("items", JList [pr_item "closed" (JStr "2024-05-01T10:00:00Z");
                                pr_item "open" JNull])])
  else if Str.contains "q=author:alice+org:acme+is:issue" url then
    ok (JDict [("items",
                JList [JDict [("state", JStr "closed");
                              ("repository_url",
                               JStr "https://api.github.com/repos/acme/widget")]])])
  else if Str.contains "/repos/acme/widget/commits" url then
    ok (JList [commit "a"; commit "b"; commit "c"; commit "d"])
  else if Str.contains "q=reviewed-by:alice" url then
    ok (JDict [("items", JList [JDict []])])
  else if is_rate_limit_url url then ok (quota_payload 4000 5000)
  else ok (JDict [("items", JList [])]).

(** One pull request of the user, closed and never merged; nothing
    else. *)
Definition stale (n : nat) (t : Z) (url : string) : outcome :=
  if Str.contains "q=author:alice+org:acme+is:pr" url then
    ok (JDict [("total_count", JNum 1); ("items", JList [pr_item "closed" JNull])])
  else if is_rate_limit_url url then ok (quota_payload 4000 5000)
  else ok (JDict [("items", JList [])]).



Definition pr_items (prs : list json) : outcome :=
  ok (JDict [("total_count", JNum (Z.of_nat (length prs))); ("items", JList prs)]).


(** The run over a list that names the same user twice. *)
Definition twice : result (list user_record) * state :=
  analyze_users 10 ["alice"; "alice"] (start ["acme"] acme).

Definition twice_results : list user_record :=
  match fst twice with Ok results => results | _ => [] end.

End Stub.

(** ** Further observations: time, requests and pages *)

(** A sleep that [time.sleep] accepts and that moves the clock forward. *)
Definition positive_sleep (e : event) : Prop :=
  match e with
  | EvSleep d => (0 < d)%Z
  | _ => True
  end.

(** What no method undoes: the clock and the request counter never go
    back, and when every sleep so far was positive, so is every sleep
    afterwards. *)
Record steady (s s' : state) : Prop := Steady {
  steady_clock : (clock s <= clock s')%Z;
  steady_requests : requests_sent s <= requests_sent s';
  steady_sleeps : Forall positive_sleep (trace s) -> Forall positive_sleep (trace s')
}.

(** A decoded body that the fetcher does not paginate (lines 571-573):
    neither a list nor an object with an ['items'] field. *)
Definition plain (data : json) : Prop :=
  match data with
  | JList _ => False
  | JDict d => Py.lookup "items" d = None
  | _ => True
  end.

(** A response that leaves the quota above the threshold of
    [wait_for_rate_limit]. *)
Definition ample (r : response) : Prop :=
  match x_ratelimit_remaining r with
  | Some v => (10 <= v)%Z
  | None => True
  end.

(** [serves srv n t target pages]: from the [n]-th request on, at time
    [t], the server hands out [pages] one after the other, each with
    status 200 and enough quota left, each but the last with a [Link]
    header whose [next] target is where the following page is served; the
    last one names no further page. *)
Fixpoint serves (srv : nat -> Z -> string -> outcome) (n : nat) (t : Z) (target : string)
    (pages : list response) : Prop :=
  match pages with
  | [] => False
  | r :: rest =>
      srv n t target = Responded r
      /\ status_code r = 200%Z
      /\ ample r
      /\ exists next_url,
           next_link (Str.split "," (default EmptyString (link r))) = inr next_url
           /\ match rest with
              | [] => url_truthy next_url = false
              | _ :: _ => url_truthy next_url = true
                          /\ serves srv (S n) t (default EmptyString next_url) rest
              end
  end.

(** The accumulator of the fetcher after the bodies of [pages] have been
    combined into it, page by page (lines 575-579). *)
Fixpoint gather (results : json) (pages : list response) : exn + json :=
  match pages with
  | [] => inr results
  | r :: rest => results <-? combine results (body r) ;; gather results rest
  end.

(** Counters that make sense together: no more merged and open pull
    requests than pull requests, no more closed issues than issues. *)
Definition coherent (c : counts) : Prop :=
  c pr_merged + c pr_open <= c pr_total /\ c issues_closed <= c issues_opened.

(** ** The constructor and the checkpoint it loads *)

Definition set_organizations (v : list string) (s : state) : state :=
  State v (time_filter s) (rate_limit_remaining s) (rate_limit_reset s) (cache s)
        (completed_users s) (server s) (clock s) (requests_sent s) (trace s)
        (log s) (progress_file s) (results_file s).

Definition set_time_filter (v : string) (s : state) : state :=
  State (organizations s) v (rate_limit_remaining s) (rate_limit_reset s) (cache s)
        (completed_users s) (server s) (clock s) (requests_sent s) (trace s)
        (log s) (progress_file s) (results_file s).

(** Lines 100-111.  The progress file, when present, holds what
    [save_progress] wrote: the list of completed users.  Nothing is
    raised: the source catches every error of the load. *)
Definition load_progress : M unit :=
  s <- get ;;
  match progress_file s with
  | Some users => modify (set_completed (list_to_set users))
  | None => ret tt
  end.

(** The [organizations] argument of the constructor (line 35): a list of
    names, or one name, which becomes a one-element list. *)
Inductive organizations_arg :=
| OrgList (names : list string)
| OrgOne (name : string).

(** Lines 25-60.  The state the constructor starts from stands for the
    world the new process finds: its analyzer fields are all overwritten.
    [since_date n] is the calendar: the day [n] months before today as
    [%Y-%m-%d], or the error of a date out of range. *)
Definition __init__ (token : string) (organizations : organizations_arg)
    (time_period_months : option Z) (since_date : Z -> exn + string) : M unit :=
  modify (set_organizations
            (match organizations with OrgList names => names | OrgOne name => [name] end)) ;;
  modify (set_remaining (JNum 5000)) ;;
  modify (set_reset (JNum 0)) ;;
  update_rate_limit_info ;;
  modify (set_time_filter EmptyString) ;;
  (match time_period_months with
   | Some n =>
       if negb (n =? 0)%Z then
         date <- lift (since_date n) ;;
         modify (set_time_filter ("+created:>=" +:+ date))
       else ret tt
   | None => ret tt
   end) ;;
  modify (set_cache ∅) ;;
  modify (set_completed ∅) ;;
  load_progress.

(** The completed set and the progress file agree: the file, when there
    is one, lists exactly the completed users, and without a file nobody
    is completed. *)
Definition synced (s : state) : Prop :=
  completed_users s
  = match progress_file s with
    | Some users => list_to_set users
    | None => ∅
    end.

(** ** The user names of [main] *)

(** Text as Python reads and trims it. *)
Module Text.

Definition LF : ascii := ascii_of_nat 10.

Definition CR : ascii := ascii_of_nat 13.

(** [c.isspace()], which is what [strip] goes by: tab to carriage
    return, the four separators and the space, and of the code points
    above 127 the next-line control (133) and the no-break space (160). *)
Definition is_space (c : ascii) : bool :=
  let n := nat_of_ascii c in
  ((9 <=? n)%nat && (n <=? 13)%nat) || ((28 <=? n)%nat && (n <=? 32)%nat)
  || (n =? 133)%nat || (n =? 160)%nat.

Fixpoint lstrip (s : string) : string :=
  match s with
  | EmptyString => EmptyString
  | String c s' => if is_space c then lstrip s' else s
  end.

Fixpoint rstrip (s : string) : string :=
  match s with
  | EmptyString => EmptyString
  | String c s' =>
      match rstrip s' with
      | EmptyString => if is_space c then EmptyString else String c EmptyString
      | t => String c t
      end
  end.

(** [s.strip()] *)
Definition strip (s : string) : string := rstrip (lstrip s).

(** What a file opened for reading in text mode hands out: every
    [\r\n] and every other [\r] has become [\n]. *)
Fixpoint universal_newlines (s : string) : string :=
  match s with
  | EmptyString => EmptyString
  | String c s' =>
      if bool_decide (c = CR) then
        String LF match s' with
                  | String c' s'' =>
                      if bool_decide (c' = LF) then universal_newlines s''
                      else universal_newlines s'
                  | EmptyString => EmptyString
                  end
      else String c (universal_newlines s')
  end.

(** [for line in f]: the lines of the text, each with its line break;
    the last one may lack it. *)
Fixpoint lines (s : string) : list string :=
  match s with
  | EmptyString => []
  | String c s' =>
      if bool_decide (c = LF) then String c EmptyString :: lines s'
      else match lines s' with
           | [] => [String c EmptyString]
           | l :: ls => String c l :: ls
           end
  end.

End Text.

(** Line 628. *)
Definition organizations_from_env (org_str : string) : list string :=
  map Text.strip (Str.split "," org_str).

(** Line 637. *)
Definition usernames_from_env (env_usernames : string) : list string :=
  map Text.strip
      (List.filter (fun name => negb (bool_decide (Text.strip name = EmptyString)))
                   (Str.split "," env_usernames)).

(** Lines 640-641, on the text of the user names file. *)
Definition usernames_from_file (content : string) : list string :=
  map Text.strip
      (List.filter (fun line => negb (bool_decide (Text.strip line = EmptyString))
                                && negb (Str.starts_with "#" line))
                   (Text.lines (Text.universal_newlines content))).

(** Lines 657-660: the text [main] writes to the user names file. *)
Definition usernames_file_text (usernames : list string) : string :=
  "# GitHub usernames for contribution analysis" +:+ String Text.LF
    (foldr (fun username rest => username +:+ String Text.LF rest) EmptyString usernames).

(** A user name that survives the user names file: no white space
    around it, not empty, no [#] in front, no line break inside. *)
Definition file_safe (u : string) : Prop :=
  Text.strip u = u /\ u <> EmptyString /\ Str.starts_with "#" u = false
  /\ Str.index Text.LF u = None /\ Str.index Text.CR u = None.

(** ** The [Link] header, as the server writes it *)

(** A string without any of the characters that structure a [Link]
    header. *)
Definition link_free (s : string) : Prop :=
  Str.index "," s = None /\ Str.index "<" s = None /\ Str.index ">" s = None
  /\ Str.index Str.dquote s = None.

(** One link: [<url>; rel="name"]. *)
Definition link_value (url rel : string) : string :=
  "<" +:+ url +:+ ">; rel=" +:+ String Str.dquote (rel +:+ String Str.dquote EmptyString).

(** The header for a list of links, each a target and a relation name:
    the links joined by a comma and a space. *)
Fixpoint link_header (links : list (string * string)) : string :=
  match links with
  | [] => EmptyString
  | l :: rest =>
      match rest with
      | [] => link_value (fst l) (snd l)
      | _ :: _ => link_value (fst l) (snd l) +:+ ", " +:+ link_header rest
      end
  end.

(** The target of the first link whose relation is [next]. *)
Fixpoint next_target (links : list (string * string)) : option string :=
  match links with
  | [] => None
  | l :: rest => if bool_decide (snd l = "next") then Some (fst l) else next_target rest
  end.

(** ** More stub servers and sample runs for the worked examples *)

Module Sample.

Definition search_url : string := base_url +:+ "/search/issues?q=author:alice".

Definition search2_url : string := search_url +:+ "&page=2".

Definition issue (n : Z) : json := JDict [("number", JNum n)].

(** Two pages of a search: objects with [total_count] and [items]. *)
Definition first_page : response :=
  Response 200 EmptyString
    (JDict [("total_count", JNum 3); ("items", JList [issue 1; issue 2])])
    (Some 4990%Z) None (Some (Stub.next_to search2_url)).

Definition second_page : response :=
  Response 200 EmptyString
    (JDict [("total_count", JNum 3); ("items", JList [issue 3])])
    (Some 4989%Z) None None.

Definition searched (n : nat) (t : Z) (url : string) : outcome :=
  if bool_decide (url = search2_url) then Responded second_page
  else Responded first_page.

(** A 200 page whose [Link] header names a next page without brackets. *)
Definition garbled_page : response :=
  Response 200 EmptyString (JList [Stub.commit "a"]) None None (Some rel_next).

Definition garbled (n : nat) (t : Z) (url : string) : outcome := Responded garbled_page.

(** The two pages of [Stub.paged]. *)
Definition list_page1 : response :=
  Response 200 EmptyString (JList [Stub.commit "a"]) None None
    (Some (Stub.next_to Stub.page2_url)).

Definition list_page2 : response :=
  Response 200 EmptyString (JList [Stub.commit "b"]) None None None.

(** The fetch on the [flaky] stub when it asks for the second page, and
    after the answer to that request has been noted. *)
Definition at_page2 : state := sent Stub.page_url (Stub.start [] Stub.flaky).

Definition throttled_at_page2 : state :=
  snd (note_headers (Stub.rate_limited 1010) (sent Stub.page2_url at_page2)).

(** The aggregation of one user on the [acme] stub, and its record. *)
Definition acme_stats : result user_record * state :=
  get_user_stats 10 "alice" (Stub.start ["acme"] Stub.acme).

Definition acme_record : user_record :=
  match fst acme_stats with Ok rec => rec | _ => UserRecord EmptyString [] end.



(** The run over one user on the [acme] stub, and what it returns. *)
Definition once : result (list user_record) * state :=
  analyze_users 10 ["alice"] (Stub.start ["acme"] Stub.acme).

Definition once_results : list user_record :=
  match fst once with Ok results => results | _ => [] end.

(** The calendar of the examples: no date is ever out of range. *)
Definition calendar (n : Z) : exn + string := inr "2024-01-01".

(** The analyzer of a later process that finds the files as [once] left
    them. *)
Definition later : result unit * state :=
  __init__ "token" (OrgList ["acme"]) None calendar (snd once).

End Sample.

(** * Properties *)

(** ** Unfolding the fetcher *)

Lemma paginated_request_unfold fuel url s :
  _paginated_request fuel url s =
  match cache s !! url with
  | Some cached => (Ok cached, s)
  | None =>
      match fuel with
      | 0 => (OutOfFuel, s)
      | S fuel' => (wait_for_rate_limit ;; fetch_pages fuel' url (Some url) JNull 0) s
      end
  end.
Proof. destruct fuel; reflexivity. Qed.

Lemma fetch_pages_unfold fuel url next_url results retry_count :
  fetch_pages fuel url next_url results retry_count =
  if url_truthy next_url then
    match fuel with
    | 0 => out_of_fuel
    | S fuel' =>
        step <- try_except is_request_exception
                  (request_page (_paginated_request fuel' url)
                                (default EmptyString next_url) results)
                  (on_request_exception next_url results retry_count) ;;
        match step with
        | NextPage next_url results retry_count =>
            fetch_pages fuel' url next_url results retry_count
        | Break results => cache_store url results ;; ret results
        | Return v => ret v
        end
    end
  else cache_store url results ;; ret results.
Proof. destruct fuel; reflexivity. Qed.

(** ** Frame rules *)

Section Frame.
Context (R : relation state) `{!PreOrder R}.

Lemma keeps_ret {A} (a : A) : keeps R (ret a).
Proof. intros s. reflexivity. Qed.

Lemma keeps_raise {A} (e : exn) : keeps R (@raise A e).
Proof. intros s. reflexivity. Qed.

Lemma keeps_out_of_fuel {A} : keeps R (@out_of_fuel A).
Proof. intros s. reflexivity. Qed.

Lemma keeps_get : keeps R get.
Proof. intros s. reflexivity. Qed.

Lemma keeps_time : keeps R time_time.
Proof. intros s. reflexivity. Qed.

Lemma keeps_lift {A} (x : exn + A) : keeps R (lift x).
Proof. destruct x; intros s; reflexivity. Qed.

Lemma keeps_modify (f : state -> state) :
  (forall s, R s (f s)) -> keeps R (modify f).
Proof. intros H s. apply H. Qed.

Lemma keeps_bind {A B} (m : M A) (k : A -> M B) :
  keeps R m -> (forall a, keeps R (k a)) -> keeps R (bind m k).
Proof.
  intros Hm Hk s. unfold bind. specialize (Hm s).
  destruct (m s) as [[a|e|] s1]; simpl in *; try done.
  etrans; [exact Hm | apply Hk].
Qed.

Lemma keeps_try {A} (c : exn -> bool) (m : M A) (h : exn -> M A) :
  keeps R m -> (forall e, keeps R (h e)) -> keeps R (try_except c m h).
Proof.
  intros Hm Hh s. unfold try_except. specialize (Hm s).
  destruct (m s) as [[a|e|] s1]; simpl in *; try done.
  destruct (c e); simpl; [|done].
  etrans; [exact Hm | apply Hh].
Qed.

Lemma keeps_for_each {A S} (f : A -> S -> M S) (l : list A) (s0 : S) :
  (forall x a, keeps R (f x a)) -> keeps R (for_each_M f l s0).
Proof.
  intros Hf. revert s0. induction l as [|x l IH]; intros s0; simpl.
  - apply keeps_ret.
  - apply keeps_bind; [apply Hf | intros; apply IH].
Qed.

Lemma keeps_if {A} (b : bool) (m1 m2 : M A) :
  keeps R m1 -> keeps R m2 -> keeps R (if b then m1 else m2).
Proof. destruct b; auto. Qed.

(** The primitive effects of the quota tracker and the fetcher. *)
Hypothesis R_remaining : forall v s, R s (set_remaining v s).
Hypothesis R_reset : forall v s, R s (set_reset v s).
Hypothesis R_sent : forall url s, R s (sent url s).
Hypothesis R_slept : forall d s, R s (slept d s).

Lemma keeps_requests_get url : keeps R (requests_get url).
Proof.
  intros s. unfold requests_get.
  destruct (server s _ _ _); simpl; apply R_sent.
Qed.

Lemma keeps_sleep d : keeps R (time_sleep d).
Proof. apply keeps_modify, R_slept. Qed.

Lemma keeps_update_rate_limit_info : keeps R update_rate_limit_info.
Proof.
  unfold update_rate_limit_info.
  apply keeps_try; [|intros; apply keeps_ret].
  apply keeps_bind; [apply keeps_requests_get|]. intros r.
  apply keeps_if; [|apply keeps_ret].
  apply keeps_bind; [apply keeps_lift|]. intros v.
  apply keeps_bind; [apply keeps_modify, R_remaining|]. intros _.
  apply keeps_bind; [apply keeps_lift|]. intros v'.
  apply keeps_modify, R_reset.
Qed.

Lemma keeps_wait_for_rate_limit : keeps R wait_for_rate_limit.
Proof.
  unfold wait_for_rate_limit.
  apply keeps_bind; [apply keeps_get|]. intros s.
  apply keeps_bind; [apply keeps_lift|]. intros low.
  apply keeps_if; [|apply keeps_ret].
  apply keeps_bind; [apply keeps_time|]. intros t.
  apply keeps_bind; [apply keeps_lift|]. intros early.
  apply keeps_if; [|apply keeps_ret].
  apply keeps_bind; [apply keeps_lift|]. intros delta.
  apply keeps_bind; [apply keeps_sleep|]. intros _.
  apply keeps_update_rate_limit_info.
Qed.

Lemma keeps_note_headers r : keeps R (note_headers r).
Proof.
  unfold note_headers.
  apply keeps_bind.
  - destruct (x_ratelimit_remaining r); [apply keeps_modify, R_remaining | apply keeps_ret].
  - intros _. destruct (x_ratelimit_reset r); [apply keeps_modify, R_reset | apply keeps_ret].
Qed.

Lemma keeps_request_page restart target results :
  keeps R restart -> keeps R (request_page restart target results).
Proof.
  intros Hrestart. unfold request_page.
  apply keeps_bind; [apply keeps_requests_get|]. intros r.
  apply keeps_bind; [apply keeps_note_headers|]. intros _.
  apply keeps_bind.
  - apply keeps_if; [|apply keeps_ret].
    apply keeps_bind; [apply keeps_get|]. intros s.
    apply keeps_bind; [apply keeps_time|]. intros t.
    apply keeps_bind; [apply keeps_lift|]. intros delta.
    apply keeps_if.
    + apply keeps_bind; [apply keeps_sleep|]. intros _.
      apply keeps_bind; [exact Hrestart|]. intros v. apply keeps_ret.
    + apply keeps_bind; [apply keeps_update_rate_limit_info|]. intros _.
      apply keeps_ret.
  - intros [v|]; [apply keeps_ret|].
    apply keeps_if; [apply keeps_raise|].
    destruct (init_results results (body r)) as [results' stop].
    apply keeps_if; [apply keeps_ret|].
    apply keeps_bind; [apply keeps_lift|]. intros results''.
    apply keeps_bind; [apply keeps_lift|]. intros next_url.
    apply keeps_bind; [|intros; apply keeps_ret].
    apply keeps_if; [apply keeps_wait_for_rate_limit | apply keeps_ret].
Qed.

Lemma keeps_on_request_exception next_url results retry_count e :
  keeps R (on_request_exception next_url results retry_count e).
Proof.
  unfold on_request_exception.
  apply keeps_if; [|apply keeps_raise].
  apply keeps_bind; [apply keeps_sleep|]. intros _. apply keeps_ret.
Qed.

(** The fetcher, for a relation that also tolerates the cache write. *)
Hypothesis R_cache : forall v s, R s (set_cache v s).

Lemma keeps_cache_store url results : keeps R (cache_store url results).
Proof.
  unfold cache_store.
  apply keeps_bind; [apply keeps_get|]. intros s. apply keeps_modify, R_cache.
Qed.

Lemma keeps_fetcher fuel :
  (forall url, keeps R (_paginated_request fuel url)) /\
  (forall url next_url results retry_count,
      keeps R (fetch_pages fuel url next_url results retry_count)).
Proof.
  induction fuel as [|fuel [IHp IHf]].
  - split.
    + intros url s. rewrite paginated_request_unfold.
      destruct (cache s !! url); reflexivity.
    + intros url next_url results retry_count.
      rewrite fetch_pages_unfold.
      apply keeps_if; [apply keeps_out_of_fuel|].
      apply keeps_bind; [apply keeps_cache_store | intros; apply keeps_ret].
  - split.
    + intros url s. rewrite paginated_request_unfold.
      destruct (cache s !! url); [reflexivity|].
      apply keeps_bind; [apply keeps_wait_for_rate_limit | intros; apply IHf].
    + intros url next_url results retry_count.
      rewrite fetch_pages_unfold.
      apply keeps_if.
      * apply keeps_bind.
        -- apply keeps_try; [apply keeps_request_page, IHp|].
           intros e. apply keeps_on_request_exception.
        -- intros [n r c|r|v].
           ++ apply IHf.
           ++ apply keeps_bind; [apply keeps_cache_store | intros; apply keeps_ret].
           ++ apply keeps_ret.
      * apply keeps_bind; [apply keeps_cache_store | intros; apply keeps_ret].
Qed.

Lemma keeps_paginated_request fuel url : keeps R (_paginated_request fuel url).
Proof. apply keeps_fetcher. Qed.

End Frame.

(** The aggregator and the orchestrator, for a relation that the quota
    tracker and the fetcher are known to keep. *)
Section FrameRun.
Context (R : relation state) `{!PreOrder R}.
Hypothesis R_update : keeps R update_rate_limit_info.
Hypothesis R_wait : keeps R wait_for_rate_limit.
Hypothesis R_fetch : forall fuel url, keeps R (_paginated_request fuel url).
Hypothesis R_logged : forall r s, R s (logged r s).

Lemma keeps_process_org fuel username org st :
  keeps R (process_org fuel username org st).
Proof.
  unfold process_org.
  repeat first
    [ exact (R_fetch _ _)
    | exact R_wait
    | apply (keeps_bind R); [|intros ?]
    | apply (keeps_ret R)
    | apply (keeps_get R)
    | apply (keeps_lift R) ].
  apply (keeps_for_each R). intros batch acc1. unfold count_batch.
  apply (keeps_bind R).
  - apply (keeps_for_each R). intros repo acc2. unfold count_repo_commits.
    apply (keeps_bind R); [apply R_fetch|].
    intros [ | | | | |]; apply (keeps_ret R).
  - intros acc2. apply (keeps_bind R); [apply R_update|]. intros _.
    apply (keeps_bind R); [apply R_wait|]. intros _. apply (keeps_ret R).
Qed.

Lemma keeps_collect_stats fuel username : keeps R (collect_stats fuel username).
Proof.
  unfold collect_stats.
  apply (keeps_bind R); [apply (keeps_get R)|]. intros s.
  apply (keeps_for_each R). intros. apply keeps_process_org.
Qed.

Lemma keeps_get_user_stats fuel username : keeps R (get_user_stats fuel username).
Proof.
  unfold get_user_stats.
  apply (keeps_bind R).
  - apply (keeps_try R); [apply keeps_collect_stats|]. intros e.
    apply (keeps_bind R); [apply (keeps_modify R), R_logged | intros; apply (keeps_raise R)].
  - intros st. apply (keeps_bind R); [apply (keeps_get R)|]. intros s.
    apply (keeps_bind R); [apply (keeps_modify R), R_logged | intros; apply (keeps_ret R)].
Qed.

(** The orchestrator, for a relation that also tolerates its writes. *)
Hypothesis R_completed : forall v s, R s (set_completed v s).
Hypothesis R_progress : forall users s, R s (progress_written users s).
Hypothesis R_results : forall records s, R s (results_written records s).

Lemma keeps_save_progress : keeps R save_progress.
Proof.
  unfold save_progress. apply (keeps_bind R); [apply (keeps_get R)|]. intros s.
  apply (keeps_modify R), R_progress.
Qed.

Lemma keeps_mark_completed username : keeps R (mark_completed username).
Proof.
  unfold mark_completed. apply (keeps_bind R); [apply (keeps_get R)|]. intros s.
  apply (keeps_modify R). intros s'. apply R_completed.
Qed.

Lemma keeps_retry_user fuel username results : keeps R (retry_user fuel username results).
Proof.
  unfold retry_user. apply (keeps_try R).
  - apply (keeps_bind R); [apply (keeps_modify R), R_logged|]. intros _.
    apply (keeps_bind R); [apply keeps_get_user_stats|]. intros user_stats.
    apply (keeps_bind R); [apply keeps_mark_completed|]. intros _.
    apply (keeps_bind R); [apply keeps_save_progress|]. intros _.
    apply (keeps_bind R); [apply (keeps_modify R), R_logged | intros; apply (keeps_ret R)].
  - intros e. apply (keeps_bind R); [apply (keeps_modify R), R_logged|]. intros _.
    apply (keeps_bind R); [apply keeps_save_progress | intros; apply (keeps_ret R)].
Qed.

Lemma keeps_analyze_user fuel username results :
  keeps R (analyze_user fuel username results).
Proof.
  unfold analyze_user.
  apply (keeps_bind R); [apply (keeps_modify R), R_logged|]. intros _.
  apply (keeps_try R).
  - apply (keeps_bind R); [apply R_update|]. intros _.
    apply (keeps_bind R); [apply R_wait|]. intros _.
    apply (keeps_bind R); [apply keeps_get_user_stats|]. intros user_stats.
    apply (keeps_bind R); [apply keeps_mark_completed|]. intros _.
    apply (keeps_bind R); [apply keeps_save_progress|]. intros _.
    apply (keeps_bind R); [apply (keeps_modify R), R_logged | intros; apply (keeps_ret R)].
  - intros e. unfold on_user_error.
    apply (keeps_bind R); [apply (keeps_modify R), R_logged|]. intros _.
    apply (keeps_if R); [|apply (keeps_ret R)].
    apply (keeps_bind R); [apply (keeps_modify R), R_logged|]. intros _.
    apply (keeps_bind R); [apply R_update|]. intros _.
    apply (keeps_bind R); [apply R_wait|]. intros _.
    apply keeps_retry_user.
Qed.

Lemma keeps_analyze_users fuel usernames : keeps R (analyze_users fuel usernames).
Proof.
  unfold analyze_users.
  apply (keeps_bind R); [apply (keeps_get R)|]. intros s.
  apply (keeps_bind R); [apply (keeps_for_each R); intros; apply keeps_analyze_user|].
  intros results. apply (keeps_bind R); [apply (keeps_get R)|]. intros s'.
  apply (keeps_bind R); [apply (keeps_modify R), R_results | intros; apply (keeps_ret R)].
Qed.

End FrameRun.

(** ** Instances of the frame rules *)

Global Instance calm_preorder : PreOrder calm.
Proof.
  split.
  - intros s. by split.
  - intros s1 s2 s3 [] []. split; congruence.
Qed.

Global Instance same_log_preorder : PreOrder same_log.
Proof. split; unfold same_log; [intros s | intros s1 s2 s3]; congruence. Qed.

Global Instance same_cache_preorder : PreOrder same_cache.
Proof. split; unfold same_cache; [intros s | intros s1 s2 s3]; congruence. Qed.

Global Instance same_clock_preorder : PreOrder same_clock.
Proof. split; unfold same_clock; [intros s | intros s1 s2 s3]; congruence. Qed.

Global Instance cache_grows_preorder : PreOrder cache_grows.
Proof.
  split; unfold cache_grows; [intros s | intros s1 s2 s3 ? ?]; [done | by etrans].
Qed.

Lemma update_rate_limit_info_returns s : fst (update_rate_limit_info s) = Ok tt.
Proof.
  unfold update_rate_limit_info, try_except, bind, requests_get.
  destruct (server s _ _ _) as [r|msg]; simpl; [|done].
  destruct (status_code r =? 200)%Z; simpl; [|done].
  destruct (core_field "remaining" (body r)); simpl; [done|].
  destruct (core_field "reset" (body r)); simpl; done.
Qed.

Lemma update_rate_limit_info_trace s :
  trace (snd (update_rate_limit_info s)) = EvGet (base_url +:+ "/rate_limit") :: trace s.
Proof.
  unfold update_rate_limit_info, try_except, bind, requests_get.
  destruct (server s _ _ _) as [r|msg]; simpl; [|done].
  destruct (status_code r =? 200)%Z; simpl; [|done].
  destruct (core_field "remaining" (body r)); simpl; [done|].
  destruct (core_field "reset" (body r)); simpl; done.
Qed.

Lemma update_rate_limit_info_clock : keeps same_clock update_rate_limit_info.
Proof. by apply keeps_update_rate_limit_info; first apply _. Qed.

Lemma update_rate_limit_info_run s :
  update_rate_limit_info s = (Ok tt, snd (update_rate_limit_info s)).
Proof.
  pose proof (update_rate_limit_info_returns s) as H.
  destruct (update_rate_limit_info s) as [[[]|e|] s1]; simpl in *; congruence.
Qed.

(** The three tests of [wait_for_rate_limit], one after the other. *)
Lemma wait_for_rate_limit_unfold s :
  wait_for_rate_limit s =
  match Py.lt_int (rate_limit_remaining s) 10 with
  | inl e => (Raise e, s)
  | inr false => (Ok tt, s)
  | inr true =>
      match Py.time_lt (clock s) (rate_limit_reset s) with
      | inl e => (Raise e, s)
      | inr false => (Ok tt, s)
      | inr true =>
          match Py.minus_time (rate_limit_reset s) (clock s) with
          | inl e => (Raise e, s)
          | inr delta => update_rate_limit_info (slept (delta + 5) s)
          end
      end
  end.
Proof.
  unfold wait_for_rate_limit, bind, get, time_time, time_sleep, modify, lift. simpl.
  destruct (Py.lt_int _ _) as [e|[]]; simpl; try done.
  destruct (Py.time_lt _ _) as [e|[]]; simpl; try done.
  destruct (Py.minus_time _ _) as [e|delta]; simpl; done.
Qed.

Lemma quota_type_error_class e :
  quota_type_error e -> is_request_exception e = false /\ rate_limit_message e = false.
Proof.
  intros (j & Hj & [H|[[t H]|[t H]]]);
    unfold Py.lt_int, Py.time_lt, Py.minus_time in H; rewrite Hj in H;
    injection H as <-; destruct j; try done; by vm_compute.
Qed.

Lemma lt_int_raises j n e : Py.lt_int j n = inl e -> Py.number j = None.
Proof. unfold Py.lt_int. by destruct (Py.number j). Qed.

Lemma time_lt_raises t j e : Py.time_lt t j = inl e -> Py.number j = None.
Proof. unfold Py.time_lt. by destruct (Py.number j). Qed.

Lemma minus_time_raises j t e : Py.minus_time j t = inl e -> Py.number j = None.
Proof. unfold Py.minus_time. by destruct (Py.number j). Qed.

(** How [wait_for_rate_limit] ends: it returns, or it raises the type
    error of a quota attribute and leaves the state as it was. *)
Lemma wait_for_rate_limit_outcome s :
  wait_for_rate_limit s = (Ok tt, snd (wait_for_rate_limit s))
  \/ exists e, wait_for_rate_limit s = (Raise e, s) /\ quota_type_error e.
Proof.
  rewrite wait_for_rate_limit_unfold.
  destruct (Py.lt_int _ _) as [e|[]] eqn:H1; simpl.
  - right. exists e. split; [done|]. exists (rate_limit_remaining s).
    split; [by eapply lt_int_raises | by left].
  - destruct (Py.time_lt _ _) as [e|[]] eqn:H2; simpl.
    + right. exists e. split; [done|]. exists (rate_limit_reset s).
      split; [by eapply time_lt_raises | right; left; by eexists].
    + destruct (Py.minus_time _ _) as [e|delta] eqn:H3; simpl.
      * right. exists e. split; [done|]. exists (rate_limit_reset s).
        split; [by eapply minus_time_raises | right; right; by eexists].
      * left. apply update_rate_limit_info_run.
    + by left.
  - by left.
Qed.

Lemma wait_for_rate_limit_raises s e s' :
  wait_for_rate_limit s = (Raise e, s') ->
  s' = s /\ is_request_exception e = false /\ rate_limit_message e = false.
Proof.
  intros Hrun. destruct (wait_for_rate_limit_outcome s) as [H|(e' & H & He)];
    rewrite H in Hrun; [done|].
  injection Hrun as <- <-. split; [done|]. by apply quota_type_error_class.
Qed.

(** With numbers in both quota attributes the wait returns. *)
Lemma wait_for_rate_limit_numbers s remaining reset :
  Py.number (rate_limit_remaining s) = Some remaining ->
  Py.number (rate_limit_reset s) = Some reset ->
  wait_for_rate_limit s =
    (if (remaining <? 10)%Z && (clock s <? reset)%Z
     then update_rate_limit_info (slept (reset - clock s + 5) s)
     else (Ok tt, s)).
Proof.
  intros Hremaining Hreset. rewrite wait_for_rate_limit_unfold.
  unfold Py.lt_int, Py.time_lt, Py.minus_time. rewrite Hremaining, Hreset.
  destruct (remaining <? 10)%Z; [|done]. by destruct (clock s <? reset)%Z.
Qed.

(** C3, as amended: with a number of remaining requests and a reset time
    in the two quota attributes, [wait_for_rate_limit] sleeps only when
    fewer than ten requests remain and the reset time still lies ahead; it
    then sleeps [reset - now + 5] seconds and refreshes the quota with one
    request to the rate-limit endpoint, which takes no model time, so that
    it returns at [reset + 5].  In every other case, also with fewer than
    ten requests left once the reset time is reached, it returns at once:
    no sleep, no refresh; with ten or more requests left the reset time is
    not even looked at.  An attribute that holds something else than a
    number makes the comparison that reads it raise [TypeError]: the call
    raises at once on such a count of remaining requests, and on such a
    reset time when fewer than ten requests are left. *)
Theorem wait_for_rate_limit_cases (s : state) (remaining reset : Z) :
  Py.number (rate_limit_remaining s) = Some remaining ->
  Py.number (rate_limit_reset s) = Some reset ->
  wait_for_rate_limit s =
    (if (remaining <? 10)%Z && (clock s <? reset)%Z
     then update_rate_limit_info (slept (reset - clock s + 5) s)
     else (Ok tt, s))
  /\ (forall d, clock (snd (update_rate_limit_info (slept d s))) = (clock s + d)%Z)
  /\ (forall d, trace (snd (update_rate_limit_info (slept d s)))
               = EvGet (base_url +:+ "/rate_limit") :: EvSleep d :: trace s)
  /\ (forall s0 n, Py.number (rate_limit_remaining s0) = Some n -> (10 <= n)%Z ->
                   wait_for_rate_limit s0 = (Ok tt, s0))
  /\ (forall s0, Py.number (rate_limit_remaining s0) = None ->
                 exists msg, wait_for_rate_limit s0 = (Raise (TypeError msg), s0))
  /\ (forall s0 n, Py.number (rate_limit_remaining s0) = Some n -> (n < 10)%Z ->
                   Py.number (rate_limit_reset s0) = None ->
                   exists msg, wait_for_rate_limit s0 = (Raise (TypeError msg), s0)).
Proof.
  intros Hremaining Hreset. split_and!.
  - by apply wait_for_rate_limit_numbers.
  - intros d. apply (update_rate_limit_info_clock (slept d s)).
  - intros d. apply update_rate_limit_info_trace.
  - intros s0 n Hn Hample. rewrite wait_for_rate_limit_unfold. unfold Py.lt_int.
    rewrite Hn. by replace (n <? 10)%Z with false by (symmetry; apply Z.ltb_ge; lia).
  - intros s0 Hnone. rewrite wait_for_rate_limit_unfold. unfold Py.lt_int.
    rewrite Hnone. by eexists.
  - intros s0 n Hn Hlow Hnone. rewrite wait_for_rate_limit_unfold.
    unfold Py.lt_int, Py.time_lt. rewrite Hn, Hnone.
    replace (n <? 10)%Z with true by (symmetry; by apply Z.ltb_lt). by eexists.
Qed.

(** C3 as stated fails: with five requests left and the reset time two
    seconds in the past, the call returns at once, before [reset + 5], and
    without a request to the rate-limit endpoint. *)
Lemma wait_for_rate_limit_late :
  rate_limit_remaining Stub.late = JNum 5
  /\ rate_limit_reset Stub.late = JNum 100
  /\ wait_for_rate_limit Stub.late = (Ok tt, Stub.late)
  /\ (clock Stub.late < 100 + 5)%Z
  /\ requests_sent (snd (wait_for_rate_limit Stub.late)) = 0.
Proof. repeat split. Qed.

(** ** The cache *)

(** A step that keeps [R], followed by a continuation, in predicate
    transformer form. *)
Lemma bind_keeps {A B} (R : relation state) (m : M A) (k : A -> M B) (s : state)
    (Q : result B * state -> Prop) :
  keeps R m ->
  (forall a s1, R s s1 -> Q (k a s1)) ->
  (forall e s1, R s s1 -> Q (Raise e, s1)) ->
  (forall s1, R s s1 -> Q (OutOfFuel, s1)) ->
  Q (bind m k s).
Proof.
  intros Hm Hk He Ho. unfold bind. specialize (Hm s).
  destruct (m s) as [[a|e|] s1]; simpl in Hm; auto.
Qed.

Section SameCache.

Let R_remaining : forall v s, same_cache s (set_remaining v s) := fun _ _ => eq_refl.
Let R_reset : forall v s, same_cache s (set_reset v s) := fun _ _ => eq_refl.
Let R_sent : forall url s, same_cache s (sent url s) := fun _ _ => eq_refl.
Let R_slept : forall d s, same_cache s (slept d s) := fun _ _ => eq_refl.

Lemma update_rate_limit_info_cache : keeps same_cache update_rate_limit_info.
Proof. by apply keeps_update_rate_limit_info; first apply _. Qed.

Lemma wait_for_rate_limit_cache : keeps same_cache wait_for_rate_limit.
Proof. by apply keeps_wait_for_rate_limit; first apply _. Qed.

Lemma requests_get_cache url : keeps same_cache (requests_get url).
Proof. by apply keeps_requests_get. Qed.

Lemma note_headers_cache r : keeps same_cache (note_headers r).
Proof. by apply keeps_note_headers; first apply _. Qed.

Lemma on_request_exception_cache next_url results retry_count e :
  keeps same_cache (on_request_exception next_url results retry_count e).
Proof. by apply keeps_on_request_exception; first apply _. Qed.

End SameCache.

Lemma cache_store_effect url results s :
  cache_effect url s ((cache_store url results ;; ret results) s).
Proof. reflexivity. Qed.

Lemma request_page_cache_effect restart target results url s :
  (forall s1, cache_effect url s1 (restart s1)) ->
  page_cache_effect url s (request_page restart target results s).
Proof.
  intros Hrestart. unfold request_page.
  apply bind_keeps with (R := same_cache); [apply requests_get_cache| | |];
    [intros r s1 H1 | by intros | by intros].
  apply bind_keeps with (R := same_cache); [apply note_headers_cache| | |];
    [intros _ s2 H2 | intros; unfold same_cache in *; simpl; congruence
                    | intros; unfold same_cache in *; simpl; congruence].
  assert (Hc : cache s2 = cache s) by (unfold same_cache in *; congruence).
  clear H1 H2 s1.
  set (rest := fun early : option json => _).
  assert (Hrest : forall s3, cache s3 = cache s ->
                             page_cache_effect url s (rest None s3)).
  { intros s3 H3. subst rest. simpl.
    destruct (negb _); [exact H3|].
    destruct (init_results results (body r)) as [results' stop].
    destruct stop; [exact H3|].
    unfold bind, lift.
    destruct (combine results' (body r)); simpl; [exact H3|].
    destruct (next_link _); simpl; [exact H3|].
    destruct (url_truthy _); simpl; [|exact H3].
    pose proof (wait_for_rate_limit_cache s3) as Hw.
    destruct (wait_for_rate_limit s3) as [[[]|e|] s4]; simpl in *;
      unfold same_cache in Hw; congruence. }
  destruct (quota_exceeded r).
  - unfold bind at 1. unfold bind at 1. simpl.
    unfold bind at 1. simpl. unfold bind at 1.
    destruct (Py.minus_time (rate_limit_reset s2) (clock s2)) as [e|delta]; simpl;
      [exact Hc|].
    destruct (0 <? _)%Z.
    + unfold bind at 1. simpl.
      specialize (Hrestart (slept (delta + 5) s2)).
      unfold bind at 1.
      destruct (restart _) as [[v|e|] s3]; simpl in *; congruence.
    + unfold bind at 1.
      pose proof (update_rate_limit_info_cache s2) as Hu.
      rewrite update_rate_limit_info_run. simpl.
      apply Hrest. unfold same_cache in Hu. congruence.
  - unfold bind at 1. simpl. by apply Hrest.
Qed.

Lemma fetcher_cache_effect fuel :
  (forall url s, cache_effect url s (_paginated_request fuel url s)) /\
  (forall url next_url results retry_count s,
      cache_effect url s (fetch_pages fuel url next_url results retry_count s)).
Proof.
  induction fuel as [|fuel [IHp IHf]].
  - split.
    + intros url s. rewrite paginated_request_unfold.
      destruct (cache s !! url) eqn:E; simpl; [|done].
      by rewrite insert_id.
    + intros url next_url results retry_count s. rewrite fetch_pages_unfold.
      destruct (url_truthy next_url); [done | apply cache_store_effect].
  - split.
    + intros url s. rewrite paginated_request_unfold.
      destruct (cache s !! url) eqn:E; simpl; [by rewrite insert_id|].
      apply bind_keeps with (R := same_cache); [apply wait_for_rate_limit_cache| | |];
        [|by intros|by intros].
      intros _ s1 H1. specialize (IHf url (Some url) JNull 0 s1).
      unfold cache_effect in *. unfold same_cache in H1.
      destruct (fetch_pages _ _ _ _ _ s1) as [[r|e|] s2]; congruence.
    + intros url next_url results retry_count s. rewrite fetch_pages_unfold.
      destruct (url_truthy next_url); [|apply cache_store_effect].
      unfold bind at 1. unfold try_except.
      pose proof (request_page_cache_effect (_paginated_request fuel url)
                    (default EmptyString next_url) results url s (IHp url)) as Hp.
      destruct (request_page _ _ _ s) as [[step|e|] s1]; simpl in Hp.
      * destruct step as [n r c|r|v].
        -- specialize (IHf url n r c s1). unfold cache_effect in *.
           destruct (fetch_pages _ _ _ _ _ s1) as [[r'|e|] s2]; congruence.
        -- pose proof (cache_store_effect url r s1) as Hs.
           unfold cache_effect in *.
           destruct ((cache_store url r ;; ret r) s1) as [[r'|e|] s2]; congruence.
        -- exact Hp.
      * destruct (is_request_exception e); [|exact Hp].
        unfold on_request_exception.
        destruct (retry_count <? max_retries)%nat; [|exact Hp].
        unfold bind at 1. simpl.
        match goal with |- context [fetch_pages fuel url ?n ?r ?c ?s'] =>
          specialize (IHf url n r c s'); destruct (fetch_pages fuel url n r c s') as [[r'|e'|] s3]
        end; unfold cache_effect in *; simpl in *; congruence.
      * exact Hp.
Qed.

Lemma paginated_request_cache_grows fuel url : keeps cache_grows (_paginated_request fuel url).
Proof.
  intros s. unfold cache_grows.
  pose proof (proj1 (fetcher_cache_effect fuel) url s) as H.
  rewrite paginated_request_unfold in *.
  destruct (cache s !! url) eqn:E; simpl in *; [done|].
  destruct fuel; simpl in *; [done|].
  destruct ((wait_for_rate_limit ;; fetch_pages fuel url (Some url) JNull 0) s)
    as [[r|e|] s']; simpl in *; rewrite H; try done.
  by apply insert_subseteq.
Qed.

Lemma same_cache_grows {A} (m : M A) : keeps same_cache m -> keeps cache_grows m.
Proof. intros H s. unfold cache_grows. by rewrite (H s). Qed.

Lemma analyze_users_cache_grows fuel usernames :
  keeps cache_grows (analyze_users fuel usernames).
Proof.
  apply keeps_analyze_users; try apply _; try (intros; unfold cache_grows; simpl; done).
  - apply same_cache_grows, update_rate_limit_info_cache.
  - apply same_cache_grows, wait_for_rate_limit_cache.
  - apply paginated_request_cache_grows.
Qed.

Lemma get_user_stats_cache_grows fuel username :
  keeps cache_grows (get_user_stats fuel username).
Proof.
  apply keeps_get_user_stats; try apply _; try (intros; unfold cache_grows; simpl; done).
  - apply same_cache_grows, update_rate_limit_info_cache.
  - apply same_cache_grows, wait_for_rate_limit_cache.
  - apply paginated_request_cache_grows.
Qed.

(** C1: once [_paginated_request] has returned a result for [url], the
    result sits in the cache under [url]; no later fetch, aggregation or
    run removes or replaces a cache entry; and a further call for [url],
    in any state whose cache still extends that one, returns the same
    result and leaves the whole state as it was: no request, no sleep, no
    look at the quota.  So the pages of one URL are fetched successfully at
    most once. *)
Theorem paginated_request_fetches_once (fuel : nat) (url : string) (s s' : state)
    (r : json) :
  _paginated_request fuel url s = (Ok r, s') ->
  cache s' !! url = Some r
  /\ (forall fuel2 s2, cache s' ⊆ cache s2 ->
        _paginated_request fuel2 url s2 = (Ok r, s2))
  /\ (forall fuel2 url2 s2,
        cache s2 ⊆ cache (snd (_paginated_request fuel2 url2 s2)))
  /\ (forall fuel2 username s2,
        cache s2 ⊆ cache (snd (get_user_stats fuel2 username s2)))
  /\ (forall fuel2 usernames s2,
        cache s2 ⊆ cache (snd (analyze_users fuel2 usernames s2))).
Proof.
  intros Hcall.
  assert (Hin : cache s' !! url = Some r).
  { pose proof (proj1 (fetcher_cache_effect fuel) url s) as H.
    rewrite Hcall in H. simpl in H. rewrite H. apply lookup_insert_eq. }
  split; [exact Hin|]. split; [|split; [|split]].
  - intros fuel2 s2 Hsub. rewrite paginated_request_unfold.
    by rewrite (lookup_weaken _ _ _ _ Hin Hsub).
  - intros. apply paginated_request_cache_grows.
  - intros. apply get_user_stats_cache_grows.
  - intros. apply analyze_users_cache_grows.
Qed.

(** ** One pass through the loop of the fetcher *)

Lemma url_truthy_some target : target <> EmptyString -> url_truthy (Some target) = true.
Proof. intros H. unfold url_truthy. by rewrite bool_decide_eq_false_2. Qed.

(** A network-level failure of the request for the current page. *)
Lemma fetch_pages_network_failure fuel url target results retry_count s msg :
  target <> EmptyString ->
  server s (requests_sent s) (clock s) target = Failed msg ->
  fetch_pages (S fuel) url (Some target) results retry_count s =
    if (retry_count <? max_retries)%nat
    then fetch_pages fuel url (Some target) results (S retry_count)
           (slept (2 ^ Z.of_nat (S retry_count)) (sent target s))
    else (Raise (RequestException msg), sent target s).
Proof.
  intros Htarget Hsrv. rewrite fetch_pages_unfold, url_truthy_some by done.
  unfold bind at 1. unfold try_except, request_page. unfold bind at 1.
  unfold requests_get. simpl. rewrite Hsrv. simpl.
  unfold on_request_exception.
  destruct (retry_count <? max_retries)%nat; reflexivity.
Qed.

Lemma after_failures_server target k s : server (after_failures target k s) = server s.
Proof. induction k; simpl; auto. Qed.

Lemma after_failures_requests target k s :
  requests_sent (after_failures target k s) = requests_sent s + k.
Proof. induction k; simpl; [lia | rewrite IHk; lia]. Qed.

Lemma after_failures_clock target k s :
  clock (after_failures target k s) = (clock s + (2 ^ (Z.of_nat k + 1) - 2))%Z.
Proof.
  induction k as [|k IH]; [simpl; lia|].
  cbn [after_failures slept sent clock]. rewrite IH.
  replace (Z.of_nat (S k) + 1)%Z with (Z.succ (Z.of_nat (S k))) by lia.
  rewrite Z.pow_succ_r by lia.
  replace (Z.of_nat k + 1)%Z with (Z.of_nat (S k)) by lia. lia.
Qed.

(** C8: when the request for a page fails at the network level,
    [_paginated_request] sleeps and asks for the same page again, with the
    same accumulated results, up to three times: after [k <= 3] failures in
    a row it has slept 2, 4, ... [2^k] seconds and is back at the page with
    [retry_count = k]; a fourth failure in a row is raised to the caller as
    the network error it is. *)
Theorem network_failures_are_retried (fuel : nat) (url target : string) (results : json)
    (s : state) (msg : nat -> string) :
  target <> EmptyString ->
  (forall k, k <= 3 ->
     (forall i, i < k ->
        server s (requests_sent s + i) (clock s + (2 ^ (Z.of_nat i + 1) - 2))%Z target
        = Failed (msg i)) ->
     fetch_pages (k + fuel) url (Some target) results 0 s
     = fetch_pages fuel url (Some target) results k (after_failures target k s))
  /\ ((forall i, i <= 3 ->
         server s (requests_sent s + i) (clock s + (2 ^ (Z.of_nat i + 1) - 2))%Z target
         = Failed (msg i)) ->
      fetch_pages (4 + fuel) url (Some target) results 0 s
      = (Raise (RequestException (msg 3)), sent target (after_failures target 3 s)))
  /\ trace (sent target (after_failures target 3 s))
     = ([EvGet target; EvSleep 8; EvGet target; EvSleep 4; EvGet target; EvSleep 2;
         EvGet target] ++ trace s)%list.
Proof.
  intros Htarget.
  assert (Hsteps : forall k fuel', k <= 3 ->
     (forall i, i < k ->
        server s (requests_sent s + i) (clock s + (2 ^ (Z.of_nat i + 1) - 2))%Z target
        = Failed (msg i)) ->
     fetch_pages (k + fuel') url (Some target) results 0 s
     = fetch_pages fuel' url (Some target) results k (after_failures target k s)).
  { intros k. induction k as [|k IH]; intros fuel' Hk Hfail; [reflexivity|].
    replace (S k + fuel') with (k + S fuel') by lia.
    rewrite IH by (try lia; intros; apply Hfail; lia).
    rewrite (fetch_pages_network_failure _ _ _ _ _ _ (msg k)); [|done|].
    - replace (k <? max_retries)%nat with true; [reflexivity|].
      symmetry. apply Nat.ltb_lt. unfold max_retries. lia.
    - rewrite after_failures_server, after_failures_requests, after_failures_clock.
      apply Hfail. lia. }
  split; [|split].
  - intros k. apply Hsteps.
  - intros Hfail.
    replace (4 + fuel) with (3 + S fuel) by lia.
    rewrite Hsteps by (try lia; intros; apply Hfail; lia).
    rewrite (fetch_pages_network_failure _ _ _ _ _ _ (msg 3)); [reflexivity|done|].
    rewrite after_failures_server, after_failures_requests, after_failures_clock.
    apply Hfail. lia.
  - reflexivity.
Qed.

Lemma quota_exceeded_status r : quota_exceeded r = true -> status_code r = 403%Z.
Proof.
  unfold quota_exceeded. intros [H _]%andb_true_iff. by apply Z.eqb_eq.
Qed.

Lemma note_headers_run r s : note_headers r s = (Ok tt, snd (note_headers r s)).
Proof.
  unfold note_headers, bind, modify, ret.
  destruct (x_ratelimit_remaining r), (x_ratelimit_reset r); reflexivity.
Qed.

(** The [try] body on a response that is the quota signal, with a reset
    time in the quota attribute. *)
Lemma request_page_quota restart target results s r reset :
  server s (requests_sent s) (clock s) target = Responded r ->
  quota_exceeded r = true ->
  let s1 := snd (note_headers r (sent target s)) in
  Py.number (rate_limit_reset s1) = Some reset ->
  request_page restart target results s =
    if (0 <? reset - clock s1 + 5)%Z then
      match restart (slept (reset - clock s1 + 5) s1) with
      | (Ok v, s2) => (Ok (Return v), s2)
      | (Raise e, s2) => (Raise e, s2)
      | (OutOfFuel, s2) => (OutOfFuel, s2)
      end
    else (Raise (ApiRequestFailed 403 (text r)), snd (update_rate_limit_info s1)).
Proof.
  intros Hsrv Hquota s1 Hreset.
  unfold request_page. unfold bind at 1. unfold requests_get. rewrite Hsrv.
  unfold bind at 1. rewrite note_headers_run. fold s1.
  rewrite Hquota, (quota_exceeded_status r Hquota).
  unfold bind at 1. unfold bind at 1. simpl. unfold bind at 1. simpl.
  unfold bind at 1. unfold Py.minus_time. rewrite Hreset. simpl.
  destruct (0 <? reset - clock s1 + 5)%Z.
  - unfold bind at 1. simpl. unfold bind at 1.
    by destruct (restart _) as [[v|e|] s2].
  - unfold bind at 1. by rewrite update_rate_limit_info_run.
Qed.

(** C2, as amended: when the response for a page carries status 403 and
    the rate-limit phrase, the fetcher reads [wait_time = reset - now + 5]
    off the (just updated) quota.  If [wait_time > 0] it sleeps that long
    and calls [_paginated_request] afresh for the original URL, the pages
    accumulated so far set aside.  When the restarted fetch returns a
    result, that is the result of the call; when it raises another error
    than a network error, the call raises it.  But the restart runs inside
    the [try] of the page: a network error it raises is caught by the retry
    handler of the caller, which, with retries left, sleeps and asks again
    for the page that was answered with 403, with the pages it had
    accumulated; without retries left it raises the error.  If
    [wait_time <= 0] the fetcher refreshes the quota and the call fails
    with the request error for status 403 and the response text. *)
Theorem quota_exceeded_restarts_or_fails (fuel : nat) (url target : string)
    (results : json) (retry_count : nat) (s : state) (r : response) (reset : Z) :
  target <> EmptyString ->
  server s (requests_sent s) (clock s) target = Responded r ->
  quota_exceeded r = true ->
  let s1 := snd (note_headers r (sent target s)) in
  Py.number (rate_limit_reset s1) = Some reset ->
  let wait_time := (reset - clock s1 + 5)%Z in
  let call := fetch_pages (S fuel) url (Some target) results retry_count s in
  ((0 < wait_time)%Z ->
     let restart := _paginated_request fuel url (slept wait_time s1) in
     (forall v s2, restart = (Ok v, s2) -> call = (Ok v, s2))
     /\ (forall e s2,
           restart = (Raise e, s2) -> is_request_exception e = false ->
           call = (Raise e, s2))
     /\ (forall e s2,
           restart = (Raise e, s2) -> is_request_exception e = true ->
           call = if (retry_count <? max_retries)%nat
                  then fetch_pages fuel url (Some target) results (S retry_count)
                         (slept (2 ^ Z.of_nat (S retry_count)) s2)
                  else (Raise e, s2))
     /\ (forall s2, restart = (OutOfFuel, s2) -> call = (OutOfFuel, s2)))
  /\ ((wait_time <= 0)%Z ->
        call = (Raise (ApiRequestFailed 403 (text r)), snd (update_rate_limit_info s1))).
Proof.
  intros Htarget Hsrv Hquota s1 Hreset wait_time call.
  assert (Hstart : call =
     (step <- try_except is_request_exception
                (request_page (_paginated_request fuel url) target results)
                (on_request_exception (Some target) results retry_count) ;;
      match step with
      | NextPage next_url results retry_count =>
          fetch_pages fuel url next_url results retry_count
      | Break results => cache_store url results ;; ret results
      | Return v => ret v
      end) s).
  { subst call. by rewrite fetch_pages_unfold, url_truthy_some. }
  unfold bind at 1 in Hstart. unfold try_except in Hstart.
  rewrite (request_page_quota _ _ _ _ r reset Hsrv Hquota Hreset) in Hstart.
  fold s1 in Hstart. fold wait_time in Hstart. clearbody call.
  split.
  - intros Hwait.
    replace (0 <? wait_time)%Z with true in Hstart by (symmetry; by apply Z.ltb_lt).
    split; [|split; [|split]]; [| | |intros s2 Hrestart; by rewrite Hrestart in Hstart].
    + intros v s2 Hrestart. by rewrite Hrestart in Hstart.
    + intros e s2 Hrestart He. rewrite Hrestart in Hstart. cbv beta iota in Hstart.
      by rewrite He in Hstart.
    + intros e s2 Hrestart He. rewrite Hrestart in Hstart. cbv beta iota in Hstart.
      rewrite He in Hstart. unfold on_request_exception in Hstart.
      rewrite Hstart. destruct (retry_count <? max_retries)%nat; reflexivity.
  - intros Hwait.
    replace (0 <? wait_time)%Z with false in Hstart by (symmetry; apply Z.ltb_ge; lia).
    exact Hstart.
Qed.

Lemma not_quota_exceeded_200 r : status_code r = 200%Z -> quota_exceeded r = false.
Proof. intros H. unfold quota_exceeded. by rewrite H. Qed.

Lemma next_link_raises links e : next_link links = inl e -> is_request_exception e = false.
Proof.
  induction links as [|link0 rest IH]; simpl; [done|].
  destruct (Str.contains rel_next link0); [|exact IH].
  destruct (Str.index _ link0); [|by intros [= <-]].
  destruct (Str.index _ link0); [done | by intros [= <-]].
Qed.

(** A page that answers with status 200 and whose body combines with the
    accumulator: the loop goes on with the [next] link of the page. *)
Lemma fetch_pages_ok_page fuel url target results results' retry_count s r :
  target <> EmptyString ->
  server s (requests_sent s) (clock s) target = Responded r ->
  status_code r = 200%Z ->
  init_results results (body r) = (results, false) ->
  combine results (body r) = inr results' ->
  fetch_pages (S fuel) url (Some target) results retry_count s =
    (next_url <- lift (next_link (Str.split "," (default EmptyString (link r)))) ;;
     (if url_truthy next_url then wait_for_rate_limit else ret tt) ;;
     fetch_pages fuel url next_url results' 0) (snd (note_headers r (sent target s))).
Proof.
  intros Htarget Hsrv Hstatus Hinit Hcombine.
  set (s1 := snd (note_headers r (sent target s))).
  assert (Hnote : note_headers r (sent target s) = (Ok tt, s1)).
  { subst s1. unfold note_headers, bind, modify, ret.
    destruct (x_ratelimit_remaining r), (x_ratelimit_reset r); reflexivity. }
  rewrite fetch_pages_unfold, url_truthy_some by done.
  unfold bind at 1. unfold try_except at 1. unfold request_page.
  unfold bind at 1. unfold requests_get. simpl. rewrite Hsrv.
  unfold bind at 1. rewrite Hnote.
  rewrite (not_quota_exceeded_200 r Hstatus), Hstatus, Hinit, Hcombine. simpl.
  unfold bind at 1. unfold bind at 1. unfold ret at 1.
  unfold bind at 1. unfold ret at 1. unfold bind at 1. unfold bind at 3.
  destruct (next_link _) as [e|next_url] eqn:Hlink; simpl.
  - by rewrite (next_link_raises _ _ Hlink).
  - unfold bind, ret. cbv beta iota.
    destruct (url_truthy next_url); [|reflexivity].
    destruct (wait_for_rate_limit s1) as [[[]|e|] s2] eqn:Hwait; [reflexivity| |reflexivity].
    destruct (wait_for_rate_limit_raises _ _ _ Hwait) as (_ & He & _). by rewrite He.
Qed.

(** C9: a page whose shape does not match the accumulator adds nothing and
    raises nothing.  With a list accumulated so far, a page that is an
    object with an ['items'] field leaves the list as it is; with an
    ['items'] wrapper accumulated so far, a page that is a bare list leaves
    the wrapper as it is; in both cases the loop goes on with the page's
    [next] link, as after any other page.  The lists are lists of records:
    it is enough that none of their elements is the bare string
    ['items']. *)
Theorem mismatched_page_is_dropped (fuel : nat) (url target : string)
    (retry_count : nat) (s : state) (r : response) :
  target <> EmptyString ->
  server s (requests_sent s) (clock s) target = Responded r ->
  status_code r = 200%Z ->
  let continue_with results :=
    (next_url <- lift (next_link (Str.split "," (default EmptyString (link r)))) ;;
     (if url_truthy next_url then wait_for_rate_limit else ret tt) ;;
     fetch_pages fuel url next_url results 0) (snd (note_headers r (sent target s))) in
  (forall acc d,
      body r = JDict d -> is_Some (Py.lookup "items" d) -> no_items_string acc ->
      fetch_pages (S fuel) url (Some target) (JList acc) retry_count s
      = continue_with (JList acc))
  /\ (forall acc l,
        body r = JList l -> no_items_string l ->
        fetch_pages (S fuel) url (Some target) (JDict [("items", JList acc)]) retry_count s
        = continue_with (JDict [("items", JList acc)])).
Proof.
  intros Htarget Hsrv Hstatus continue_with. subst continue_with. split.
  - intros acc d Hbody Hitems Hacc.
    apply fetch_pages_ok_page; try done.
    rewrite Hbody. unfold combine. simpl. unfold no_items_string in Hacc.
    by rewrite Hacc.
  - intros acc l Hbody Hl.
    apply fetch_pages_ok_page; try done.
    rewrite Hbody. unfold combine. simpl. unfold no_items_string in Hl.
    by rewrite Hl.
Qed.

(** ** Classification of pull requests *)

Lemma for_each_invariant {A S} (f : A -> S -> exn + S) (I : S -> Prop) (l : list A) :
  (forall x s s', I s -> f x s = inr s' -> I s') ->
  forall s s', I s -> for_each f l s = inr s' -> I s'.
Proof.
  intros Hf. induction l as [|x l IH]; intros s s' Hs; simpl.
  - by intros [= <-].
  - destruct (f x s) as [e|s1] eqn:E; simpl; [done|]. apply IH. by eapply Hf.
Qed.

(** What the classification of a pull request can do. *)
Lemma classify_pr_cases pr a a' :
  classify_pr pr a = inr a' ->
  a' = a \/ a' = bump_both pr_open 1 a \/ a' = bump_both pr_merged 1 a.
Proof.
  unfold classify_pr. destruct (Py.get "state" JNull pr) as [e|state]; simpl; [done|].
  destruct (Py.eq_str state "open"); [intros [= <-]; auto|].
  destruct (Py.eq_str state "closed"); [|intros [= <-]; auto].
  destruct (Py.get "pull_request" _ pr) as [e|pull]; simpl; [done|].
  destruct (Py.get "merged_at" JNull pull) as [e|merged_at]; simpl; [done|].
  destruct (Py.truthy merged_at); intros [= <-]; auto.
Qed.

Lemma note_repo_counts org item a a' :
  note_repo org item a = inr a' -> org_count (acc_org a') = org_count (acc_org a).
Proof.
  unfold note_repo.
  destruct (Py.get _ _ item) as [e|repo_url]; simpl; [done|].
  destruct (Py.truthy repo_url); [|by intros [= <-]].
  destruct repo_url as [| | |u| |]; try done.
  destruct (org_repos (acc_org a)); [|done]. by intros [= <-].
Qed.

Lemma note_repo_total org item a a' :
  note_repo org item a = inr a' -> acc_total a' = acc_total a.
Proof.
  unfold note_repo.
  destruct (Py.get _ _ item) as [e|repo_url]; simpl; [done|].
  destruct (Py.truthy repo_url); [|by intros [= <-]].
  destruct repo_url as [| | |u| |]; try done.
  destruct (org_repos (acc_org a)); [|done]. by intros [= <-].
Qed.

(** Noting the repository does not look at the counters. *)
Lemma note_repo_bump org item m n a a0 :
  note_repo org item a = inr a0 ->
  note_repo org item (bump_both m n a) = inr (bump_both m n a0).
Proof.
  unfold note_repo.
  destruct (Py.get _ _ item) as [e|repo_url]; simpl; [done|].
  destruct (Py.truthy repo_url); [|by intros [= <-]].
  destruct repo_url as [| | |u| |]; try done.
  destruct (org_repos (acc_org a)); [|done]. by intros [= <-].
Qed.

Lemma counted_as_bump org item m a a0 :
  note_repo org item a = inr a0 -> counted_as (Some m) a (bump_both m 1 a0).
Proof.
  intros Hnote m'. simpl.
  rewrite (note_repo_counts _ _ _ _ Hnote), (note_repo_total _ _ _ _ Hnote).
  unfold bump. repeat case_bool_decide; simplify_eq; done.
Qed.

Lemma counted_as_none org item a a0 :
  note_repo org item a = inr a0 -> counted_as None a a0.
Proof.
  intros Hnote m'.
  rewrite (note_repo_counts _ _ _ _ Hnote), (note_repo_total _ _ _ _ Hnote).
  rewrite bool_decide_eq_false_2 by done. lia.
Qed.

Lemma classify_pr_closed d a ts :
  Py.lookup "state" d = Some (JStr "closed") ->
  merge_timestamp d = Some ts ->
  classify_pr (JDict d) a
  = inr (if Py.truthy ts then bump_both pr_merged 1 a else a).
Proof.
  intros Hstate Hts.
  unfold classify_pr, merge_timestamp in *. simpl. rewrite Hstate. simpl.
  destruct (Py.lookup "pull_request" d) as [[| | | | |p]|]; simplify_eq; simpl in *;
    try done; by destruct (Py.truthy _).
Qed.

(** C6, as amended: one turn of the loop over the pull requests of the
    authored-PRs query (lines 166-181), on a pull request that is a record
    [d] whose repository can be noted.  The pull request is counted by its
    state and its merge timestamp
    [pr.get('pull_request', {}).get('merged_at')].  Closed with a non-empty
    (truthy) timestamp: [pr_merged] goes up by one, for the organization
    and overall, and no other counter changes.  Open: [pr_open] goes up by
    one and no other counter changes.  Closed with no timestamp (absent,
    null or empty): no counter changes at all; there is no counter of
    closed pull requests, and such a pull request is counted in [pr_total]
    alone, which line 162 has set to the number of pull requests before
    the loop and which the loop leaves alone. *)
Theorem pull_request_classification (org : string) (d : list (string * json))
    (a a0 : acc) :
  note_repo org (JDict d) a = inr a0 ->
  (Py.lookup "state" d = Some (JStr "closed") ->
   forall ts, merge_timestamp d = Some ts -> Py.truthy ts = true ->
     exists a', count_pr org (JDict d) a = inr a' /\ counted_as (Some pr_merged) a a')
  /\ (Py.lookup "state" d = Some (JStr "closed") ->
      forall ts, merge_timestamp d = Some ts -> Py.truthy ts = false ->
        exists a', count_pr org (JDict d) a = inr a' /\ counted_as None a a')
  /\ (Py.lookup "state" d = Some (JStr "open") ->
      exists a', count_pr org (JDict d) a = inr a' /\ counted_as (Some pr_open) a a')
  /\ (forall prs pr_data a',
        Py.truthy pr_data = true ->
        Py.getitem "items" pr_data = inr (JList prs) ->
        count_prs org pr_data a = inr a' ->
        org_count (acc_org a') pr_total = length prs).
Proof.
  intros Hnote. split; [|split; [|split]].
  - intros Hstate ts Hts Htruthy. exists (bump_both pr_merged 1 a0). split.
    + unfold count_pr. rewrite (classify_pr_closed d a ts Hstate Hts), Htruthy. simpl.
      by apply note_repo_bump.
    + by eapply counted_as_bump.
  - intros Hstate ts Hts Htruthy. exists a0. split.
    + unfold count_pr. by rewrite (classify_pr_closed d a ts Hstate Hts), Htruthy.
    + by eapply counted_as_none.
  - intros Hstate. exists (bump_both pr_open 1 a0). split.
    + unfold count_pr, classify_pr. simpl. rewrite Hstate. simpl.
      by apply note_repo_bump.
    + by eapply counted_as_bump.
  - intros prs pr_data a' Htruthy Hitems. unfold count_prs, has_items.
    rewrite Htruthy.
    assert (Hin : Py.contains "items" pr_data = inr true).
    { destruct pr_data as [| | | | |d']; simpl in Hitems; try done.
      simpl. destruct (Py.lookup "items" d'); [|done].
      by rewrite bool_decide_eq_true_2 by (by eexists). }
    rewrite Hin, Hitems. simpl.
    refine (for_each_invariant (count_pr org)
              (fun a1 => org_count (acc_org a1) pr_total = length prs) prs _ _ a' _).
    + intros pr a1 a2 H1. unfold count_pr.
      destruct (classify_pr pr a1) as [e|a3] eqn:E; simpl; [done|].
      intros Hstep. rewrite (note_repo_counts _ _ _ _ Hstep).
      destruct (classify_pr_cases _ _ _ E) as [->|[->| ->]]; [done| |];
        simpl; unfold bump; by rewrite bool_decide_eq_false_2.
    + simpl. unfold assign. by rewrite bool_decide_eq_true_2.
Qed.

(** ** What the quota tracker, the fetcher and the aggregator leave alone *)

Section Calm.

Let R_remaining : forall v s, calm s (set_remaining v s).
Proof. by split. Qed.
Let R_reset : forall v s, calm s (set_reset v s).
Proof. by split. Qed.
Let R_sent : forall url s, calm s (sent url s).
Proof. by split. Qed.
Let R_slept : forall d s, calm s (slept d s).
Proof. by split. Qed.
Let R_cache : forall v s, calm s (set_cache v s).
Proof. by split. Qed.
Let R_logged : forall r s, calm s (logged r s).
Proof. by split. Qed.

Lemma calm_logged r s : calm s (logged r s).
Proof. apply R_logged. Qed.

Lemma update_rate_limit_info_calm : keeps calm update_rate_limit_info.
Proof. by apply keeps_update_rate_limit_info; first apply _. Qed.

Lemma wait_for_rate_limit_calm : keeps calm wait_for_rate_limit.
Proof. by apply keeps_wait_for_rate_limit; first apply _. Qed.

Lemma paginated_request_calm fuel url : keeps calm (_paginated_request fuel url).
Proof. by apply keeps_paginated_request; first apply _. Qed.

Lemma get_user_stats_calm fuel username : keeps calm (get_user_stats fuel username).
Proof.
  apply keeps_get_user_stats; try apply _; try done.
  - apply update_rate_limit_info_calm.
  - apply wait_for_rate_limit_calm.
  - apply paginated_request_calm.
Qed.

Lemma refreshed_calm s : calm s (refreshed s).
Proof.
  unfold refreshed. etrans; [apply update_rate_limit_info_calm|].
  apply wait_for_rate_limit_calm.
Qed.

End Calm.

Section SameLog.

Let R_remaining : forall v s, same_log s (set_remaining v s) := fun _ _ => eq_refl.
Let R_reset : forall v s, same_log s (set_reset v s) := fun _ _ => eq_refl.
Let R_sent : forall url s, same_log s (sent url s) := fun _ _ => eq_refl.
Let R_slept : forall d s, same_log s (slept d s) := fun _ _ => eq_refl.
Let R_cache : forall v s, same_log s (set_cache v s) := fun _ _ => eq_refl.

Lemma update_rate_limit_info_log : keeps same_log update_rate_limit_info.
Proof. by apply keeps_update_rate_limit_info; first apply _. Qed.

Lemma wait_for_rate_limit_log : keeps same_log wait_for_rate_limit.
Proof. by apply keeps_wait_for_rate_limit; first apply _. Qed.

Lemma paginated_request_log fuel url : keeps same_log (_paginated_request fuel url).
Proof. by apply keeps_paginated_request; first apply _. Qed.

Lemma collect_stats_log fuel username : keeps same_log (collect_stats fuel username).
Proof.
  apply keeps_collect_stats; try apply _.
  - apply update_rate_limit_info_log.
  - apply wait_for_rate_limit_log.
  - apply paginated_request_log.
Qed.

Lemma refreshed_log s : log (refreshed s) = log s.
Proof.
  unfold refreshed.
  rewrite (wait_for_rate_limit_log (snd (update_rate_limit_info s))).
  apply update_rate_limit_info_log.
Qed.

End SameLog.

(** Each call of [get_user_stats] logs its outcome once: completion with
    the record for the user, or the error it re-raises. *)
Lemma get_user_stats_effect fuel username s :
  match get_user_stats fuel username s with
  | (Ok rec, s') =>
      rec_username rec = username /\ log s' = LogStatsCompleted username :: log s
  | (Raise e, s') => log s' = LogStatsError username (str_exn e) :: log s
  | (OutOfFuel, s') => log s' = log s
  end.
Proof.
  unfold get_user_stats. unfold bind at 1. unfold try_except.
  pose proof (collect_stats_log fuel username s) as Hlog. unfold same_log in Hlog.
  destruct (collect_stats fuel username s) as [[st|e|] s1]; simpl in *.
  - by rewrite Hlog.
  - by rewrite Hlog.
  - done.
Qed.

(** ** The orchestrator, one user at a time *)

(** The quota check of lines 291-292 and 308-309, followed by more. *)
Lemma refresh_then {A} (k : M A) s :
  (update_rate_limit_info ;; wait_for_rate_limit ;; k) s =
  match wait_for_rate_limit (snd (update_rate_limit_info s)) with
  | (Ok _, s1) => k s1
  | (Raise e, s1) => (Raise e, s1)
  | (OutOfFuel, s1) => (OutOfFuel, s1)
  end.
Proof.
  unfold bind.
  pose proof (update_rate_limit_info_returns s) as Hu.
  destruct (update_rate_limit_info s) as [[[]|e|] s1]; simpl in *; try discriminate.
  destruct (wait_for_rate_limit s1) as [[[]|e|] s2]; reflexivity.
Qed.

(** A quota check that went through leaves the state [refreshed]. *)
Lemma refreshed_passed s s1 :
  wait_for_rate_limit (snd (update_rate_limit_info s)) = (Ok tt, s1) -> s1 = refreshed s.
Proof. intros H. unfold refreshed. by rewrite H. Qed.

(** A quota check that raised: the type error of a quota attribute, from
    a state that differs from the one before the check in the quota and
    the request sent. *)
Lemma refreshed_raised s e s1 :
  wait_for_rate_limit (snd (update_rate_limit_info s)) = (Raise e, s1) ->
  s1 = refreshed s /\ quota_type_error e /\ rate_limit_message e = false.
Proof.
  intros H. split; [unfold refreshed; by rewrite H|].
  destruct (wait_for_rate_limit_outcome (snd (update_rate_limit_info s)))
    as [Hok|(e' & Hraise & He)]; rewrite H in *; [done|].
  injection Hraise as -> _. split; [done|]. by apply quota_type_error_class.
Qed.

Lemma retry_user_unfold fuel username results s :
  retry_user fuel username results s =
  match get_user_stats fuel username (logged (LogRetrying username) s) with
  | (Ok user_stats, s') =>
      (Ok (results ++ [user_stats])%list,
       completed_in username (LogRetrySuccess username) s')
  | (Raise retry_error, s') =>
      (Ok results,
       progress_written (elements (completed_users s'))
         (logged (LogRetryFailed username (str_exn retry_error)) s'))
  | (OutOfFuel, s') => (OutOfFuel, s')
  end.
Proof.
  unfold retry_user, try_except. unfold bind at 1. simpl.
  unfold bind at 1.
  destruct (get_user_stats fuel username _) as [[user_stats|e|] s']; reflexivity.
Qed.

Lemma on_user_error_unfold fuel username results e s :
  on_user_error fuel username results e s =
  if rate_limit_message e then
    match wait_for_rate_limit
            (snd (update_rate_limit_info
                    (logged LogRateLimitExceeded
                       (logged (LogErrorAnalyzing username (str_exn e)) s)))) with
    | (Ok _, s1) => retry_user fuel username results s1
    | (Raise e', s1) => (Raise e', s1)
    | (OutOfFuel, s1) => (OutOfFuel, s1)
    end
  else (Ok results, logged (LogErrorAnalyzing username (str_exn e)) s).
Proof.
  unfold on_user_error. unfold bind at 1. simpl.
  destruct (rate_limit_message e); [|reflexivity].
  unfold bind at 1. simpl. apply refresh_then.
Qed.

Lemma first_attempt_unfold fuel username s :
  first_attempt fuel username s =
  match wait_for_rate_limit (snd (update_rate_limit_info s)) with
  | (Ok _, s1) => get_user_stats fuel username s1
  | (Raise e, s1) => (Raise e, s1)
  | (OutOfFuel, s1) => (OutOfFuel, s1)
  end.
Proof. apply refresh_then. Qed.

Lemma first_attempt_calm fuel username : keeps calm (first_attempt fuel username).
Proof.
  unfold first_attempt.
  apply (keeps_bind calm); [apply update_rate_limit_info_calm|]. intros _.
  apply (keeps_bind calm); [apply wait_for_rate_limit_calm|]. intros _.
  apply get_user_stats_calm.
Qed.

(** The first attempt logs what [get_user_stats] logs; when the quota
    check itself raises, nothing is logged, and the error is the type
    error of a quota attribute. *)
Lemma first_attempt_effect fuel username s :
  match first_attempt fuel username s with
  | (Ok rec, s') =>
      rec_username rec = username /\ log s' = LogStatsCompleted username :: log s
  | (Raise e, s') =>
      log s' = LogStatsError username (str_exn e) :: log s
      \/ (log s' = log s /\ rate_limit_message e = false)
  | (OutOfFuel, s') => log s' = log s
  end.
Proof.
  rewrite first_attempt_unfold.
  pose proof (refreshed_log s) as Hlog. unfold refreshed in Hlog.
  destruct (wait_for_rate_limit _) as [[[]|e|] s1] eqn:Hwait; simpl in Hlog.
  - pose proof (get_user_stats_effect fuel username s1) as Heff.
    destruct (get_user_stats fuel username s1) as [[rec|e|] s2];
      rewrite Hlog in Heff; [done | by left | done].
  - right. split; [done|]. by destruct (refreshed_raised _ _ _ Hwait) as (_ & _ & ?).
  - done.
Qed.

Lemma analyze_user_unfold fuel username results s :
  analyze_user fuel username results s =
  match first_attempt fuel username (logged (LogAnalyzing username) s) with
  | (Ok user_stats, s') =>
      (Ok (results ++ [user_stats])%list, completed_in username (LogSuccess username) s')
  | (Raise e, s') => on_user_error fuel username results e s'
  | (OutOfFuel, s') => (OutOfFuel, s')
  end.
Proof.
  unfold analyze_user. unfold bind at 1. simpl. unfold try_except.
  rewrite first_attempt_unfold, refresh_then.
  destruct (wait_for_rate_limit _) as [[[]|e|] s0]; [|reflexivity|reflexivity].
  unfold bind at 1.
  destruct (get_user_stats fuel username _) as [[user_stats|e|] s']; reflexivity.
Qed.

(** C4, as amended: when the quota check of the first attempt has gone
    through and the aggregation of the user raises an error whose message
    does not point at the rate limit, the orchestrator logs the error and
    goes on to the next user with the result list as it was.  The user is
    analyzed once ([get_user_stats] logs one outcome), is not added to the
    completed set, and the progress file is not written. *)
Theorem other_failure_is_skipped (fuel : nat) (username : string)
    (results : list user_record) (s s1 s2 : state) (e : exn) :
  wait_for_rate_limit (snd (update_rate_limit_info (logged (LogAnalyzing username) s)))
    = (Ok tt, s1) ->
  get_user_stats fuel username s1 = (Raise e, s2) ->
  rate_limit_message e = false ->
  analyze_user fuel username results s
    = (Ok results, logged (LogErrorAnalyzing username (str_exn e)) s2)
  /\ log s2 = LogStatsError username (str_exn e) :: LogAnalyzing username :: log s
  /\ completed_users s2 = completed_users s
  /\ progress_file s2 = progress_file s
  /\ checkpoint_writes (trace s2) = checkpoint_writes (trace s).
Proof.
  intros Hcheck Hfirst Hmsg.
  pose proof (refreshed_passed _ _ Hcheck) as Hs1.
  pose proof (get_user_stats_effect fuel username s1) as Heff.
  pose proof (get_user_stats_calm fuel username s1) as Hcalm.
  rewrite Hfirst in Heff, Hcalm. simpl in Heff, Hcalm.
  pose proof (refreshed_calm (logged (LogAnalyzing username) s)) as Hcalm0.
  rewrite <- Hs1 in Hcalm0.
  destruct Hcalm, Hcalm0. simpl in *.
  split; [|repeat split; try congruence].
  - rewrite analyze_user_unfold, first_attempt_unfold, Hcheck, Hfirst,
      on_user_error_unfold. by rewrite Hmsg.
  - by rewrite Heff, Hs1, refreshed_log.
Qed.


(** ** The orchestrator, over the list of users *)

Lemma records_of_app u l1 l2 :
  records_of u (l1 ++ l2) = records_of u l1 + records_of u l2.
Proof. unfold records_of. by rewrite List.filter_app, length_app. Qed.

Lemma records_of_named u l : 0 < records_of u l <-> u ∈ map rec_username l.
Proof.
  unfold records_of. induction l as [|r l IH]; simpl.
  - split; [lia | by intros ?%elem_of_nil].
  - rewrite elem_of_cons. case_bool_decide; simpl; [|rewrite IH; naive_solver].
    split; [by left | lia].
Qed.

Lemma records_of_one u rec : records_of u [rec] = if bool_decide (rec_username rec = u) then 1 else 0.
Proof. unfold records_of. simpl. by case_bool_decide. Qed.

Lemma completions_cons v x l :
  completions v (x :: l) = (if is_completion v x then 1 else 0) + completions v l.
Proof. unfold completions. simpl. by destruct (is_completion v x). Qed.

Lemma failures_of_cons v x l :
  failures_of v (x :: l) = (if is_failure_of v x then 1 else 0) + failures_of v l.
Proof. unfold failures_of. simpl. by destruct (is_failure_of v x). Qed.

(** What one pass of the loop over [pending_users] does to the log, the
    result list and the completed set: a record is appended exactly when
    a call of [get_user_stats] for the user returns; and the pass ends
    with a record appended or with the failure of the user logged. *)
Lemma analyze_user_summary fuel u results s results' s' :
  analyze_user fuel u results s = (Ok results', s') ->
  (forall v, completions v (log s') + records_of v results
             = completions v (log s) + records_of v results')
  /\ (forall v, failures_of v (log s) <= failures_of v (log s'))
  /\ records_of u results + failures_of u (log s) + 1
     <= records_of u results' + failures_of u (log s')
  /\ (forall v, records_of v results <= records_of v results')
  /\ records_of u results' <= records_of u results + 1
  /\ (forall v, v <> u -> records_of v results' = records_of v results)
  /\ (forall v, v ∈ completed_users s' ->
                v ∈ completed_users s \/ (v = u /\ 0 < records_of u results')).
Proof.
  rewrite analyze_user_unfold.
  pose proof (first_attempt_effect fuel u (logged (LogAnalyzing u) s)) as Heff.
  pose proof (first_attempt_calm fuel u (logged (LogAnalyzing u) s)) as Hcalm.
  destruct (first_attempt fuel u _) as [[rec|e|] s1]; simpl in Heff, Hcalm; [| |done].
  - (* success at the first attempt *)
    destruct Heff as [Hname Hlog1]. intros [= <- <-].
    unfold completed_in. simpl. rewrite Hlog1.
    rewrite (calm_completed _ _ Hcalm). simpl.
    assert (Hrec : forall v, records_of v (results ++ [rec])
                             = records_of v results + if bool_decide (u = v) then 1 else 0).
    { intros v. rewrite records_of_app, records_of_one, Hname. done. }
    split_and!.
    + intros v. rewrite Hrec, !completions_cons. simpl. case_bool_decide; lia.
    + intros v. rewrite !failures_of_cons. simpl. lia.
    + rewrite Hrec, !failures_of_cons, bool_decide_eq_true_2 by done. simpl. lia.
    + intros v. rewrite Hrec. lia.
    + rewrite Hrec. case_bool_decide; lia.
    + intros v Hv. rewrite Hrec, bool_decide_eq_false_2 by done. lia.
    + intros v Hv. rewrite Hrec, bool_decide_eq_true_2 by done.
      apply elem_of_union in Hv as [->%elem_of_singleton|Hv]; [right; split; [done|lia]|by left].
  - (* the first attempt raised *)
    rewrite on_user_error_unfold.
    assert (Hlog1 : forall v,
               completions v (log s1) = completions v (log s)
               /\ failures_of v (log s1) = failures_of v (log s)).
    { intros v. destruct Heff as [Heff|[Heff _]]; rewrite Heff; simpl;
        rewrite ?completions_cons, ?failures_of_cons; simpl; lia. }
    destruct (rate_limit_message e).
    + set (s2' := logged LogRateLimitExceeded (logged (LogErrorAnalyzing u (str_exn e)) s1)).
      pose proof (refreshed_log s2') as Hlog2. pose proof (refreshed_calm s2') as Hcalm2.
      unfold refreshed in Hlog2, Hcalm2.
      destruct (wait_for_rate_limit _) as [[[]|e'|] s2]; simpl in Hlog2, Hcalm2;
        [|done|done].
      rewrite retry_user_unfold.
      pose proof (get_user_stats_effect fuel u (logged (LogRetrying u) s2)) as Heff3.
      pose proof (get_user_stats_calm fuel u (logged (LogRetrying u) s2)) as Hcalm3.
      destruct (get_user_stats fuel u _) as [[rec|e2|] s3]; simpl in Heff3, Hcalm3;
        [| |done].
      * destruct Heff3 as [Hname Hlog3]. intros [= <- <-].
        unfold completed_in. simpl. rewrite Hlog3, Hlog2. subst s2'. simpl.
        rewrite (calm_completed _ _ Hcalm3). simpl.
        rewrite (calm_completed _ _ Hcalm2). simpl.
        rewrite (calm_completed _ _ Hcalm). simpl.
        assert (Hrec : forall v, records_of v (results ++ [rec])
                                 = records_of v results + if bool_decide (u = v) then 1 else 0).
        { intros v. rewrite records_of_app, records_of_one, Hname. done. }
        split_and!.
        -- intros v. rewrite Hrec, !completions_cons. simpl.
           rewrite (proj1 (Hlog1 v)). case_bool_decide; lia.
        -- intros v. rewrite !failures_of_cons. simpl. rewrite (proj2 (Hlog1 v)). lia.
        -- rewrite Hrec, !failures_of_cons. simpl. rewrite (proj2 (Hlog1 u)).
           rewrite !bool_decide_eq_true_2 by done. lia.
        -- intros v. rewrite Hrec. lia.
        -- rewrite Hrec. case_bool_decide; lia.
        -- intros v Hv. rewrite Hrec, bool_decide_eq_false_2 by done. lia.
        -- intros v Hv. rewrite Hrec, bool_decide_eq_true_2 by done.
           apply elem_of_union in Hv as [->%elem_of_singleton|Hv];
             [right; split; [done|lia]|by left].
      * intros [= <- <-]. simpl. rewrite Heff3. simpl. rewrite Hlog2. subst s2'. simpl.
        rewrite (calm_completed _ _ Hcalm3). simpl.
        rewrite (calm_completed _ _ Hcalm2). simpl.
        rewrite (calm_completed _ _ Hcalm). simpl.
        split_and!; try done; try lia.
        -- intros v. rewrite !completions_cons. simpl. rewrite (proj1 (Hlog1 v)). lia.
        -- intros v. rewrite !failures_of_cons. simpl. rewrite (proj2 (Hlog1 v)). lia.
        -- rewrite !failures_of_cons. simpl. rewrite (proj2 (Hlog1 u)).
           rewrite bool_decide_eq_true_2 by done. lia.
        -- intros v Hv. by left.
    + intros [= <- <-]. simpl.
      rewrite (calm_completed _ _ Hcalm). simpl.
      split_and!; try done; try lia.
      * intros v. rewrite !completions_cons. simpl. rewrite (proj1 (Hlog1 v)). lia.
      * intros v. rewrite !failures_of_cons. simpl. rewrite (proj2 (Hlog1 v)). lia.
      * rewrite !failures_of_cons. simpl. rewrite (proj2 (Hlog1 u)).
        rewrite bool_decide_eq_true_2 by done. lia.
      * intros v Hv. by left.
Qed.

Lemma occurrences_cons v u l :
  occurrences v (u :: l) = (if bool_decide (u = v) then 1 else 0) + occurrences v l.
Proof. unfold occurrences. simpl. by case_bool_decide. Qed.

Lemma analyze_loop_summary fuel pending :
  forall results0 s results s',
    for_each_M (analyze_user fuel) pending results0 s = (Ok results, s') ->
    (forall v, completions v (log s') + records_of v results0
               = completions v (log s) + records_of v results)
    /\ (forall v, failures_of v (log s) <= failures_of v (log s'))
    /\ (forall v, occurrences v pending + records_of v results0 + failures_of v (log s)
                  <= records_of v results + failures_of v (log s'))
    /\ (forall v, records_of v results0 <= records_of v results)
    /\ (forall v, records_of v results <= records_of v results0 + occurrences v pending)
    /\ (forall v, v ∈ completed_users s' ->
                  v ∈ completed_users s \/ 0 < records_of v results).
Proof.
  induction pending as [|u pending IH]; intros results0 s results s'; simpl.
  - intros [= <- <-]. unfold occurrences. simpl. split_and!; auto; intros; lia.
  - unfold bind at 1.
    destruct (analyze_user fuel u results0 s) as [[results1|e|] s1] eqn:Hstep; [|done|done].
    intros Hrest.
    destruct (analyze_user_summary _ _ _ _ _ _ Hstep)
      as (Hc1 & Hf1 & Hone1 & Hmono1 & Hle1 & Ho1 & Hdone1).
    destruct (IH _ _ _ _ Hrest) as (Hc2 & Hf2 & Hocc2 & Hmono2 & Hle2 & Hdone2).
    split_and!.
    + intros v. specialize (Hc1 v). specialize (Hc2 v). lia.
    + intros v. specialize (Hf1 v). specialize (Hf2 v). lia.
    + intros v. rewrite occurrences_cons. specialize (Hocc2 v). specialize (Hf1 v).
      case_bool_decide as Hv; [subst v; lia|].
      rewrite (Ho1 v) in Hocc2 by done. lia.
    + intros v. specialize (Hmono1 v). specialize (Hmono2 v). lia.
    + intros v. rewrite occurrences_cons. specialize (Hle2 v).
      case_bool_decide as Hv; [subst v; lia|].
      rewrite (Ho1 v) in Hle2 by done. lia.
    + intros v Hv. destruct (Hdone2 v Hv) as [Hv1|Hv1]; [|by right].
      destruct (Hdone1 v Hv1) as [?|[-> Hpos]]; [by left|right].
      specialize (Hmono2 u). lia.
Qed.

Lemma merge_cached_records completed u cached :
  forall results,
    u ∈ map rec_username results \/ u ∉ completed ->
    records_of u (merge_cached completed cached results) = records_of u results.
Proof.
  induction cached as [|c cached IH]; intros results Hu; simpl; [done|].
  destruct (bool_decide (rec_username c ∈ completed)) eqn:Hin; simpl; [|by apply IH].
  destruct (bool_decide (rec_username c ∈ map rec_username results)) eqn:Hseen; simpl;
    [by apply IH|].
  apply bool_decide_eq_true_1 in Hin. apply bool_decide_eq_false_1 in Hseen.
  rewrite IH.
  - rewrite records_of_app. unfold records_of at 2. simpl.
    rewrite bool_decide_eq_false_2; [simpl; lia|].
    intros Heq. rewrite Heq in Hin, Hseen. destruct Hu; done.
  - destruct Hu as [Hu|Hu]; [left|by right].
    rewrite map_app. set_solver.
Qed.

Lemma occurrences_pending u usernames (completed : gset string) :
  u ∉ completed ->
  occurrences u (filter (fun v => v ∉ completed) usernames) = occurrences u usernames.
Proof.
  intros Hu. unfold occurrences. induction usernames as [|v usernames IH]; [done|].
  rewrite filter_cons. destruct (decide (v ∉ completed)) as [Hv|Hv]; simpl.
  - case_bool_decide; simpl; by rewrite IH.
  - rewrite bool_decide_eq_false_2; [exact IH|].
    intros ->. apply Hv. exact Hu.
Qed.

Lemma analyze_users_unfold fuel usernames s :
  analyze_users fuel usernames s =
  let pending := filter (fun u => u ∉ completed_users s) usernames in
  match for_each_M (analyze_user fuel) pending [] s with
  | (Ok results, s1) =>
      let results :=
        if bool_decide (completed_users s1 ∖ list_to_set pending ≠ ∅) then
          match results_file s1 with
          | Some cached_results => merge_cached (completed_users s1) cached_results results
          | None => results
          end
        else results in
      (Ok results, results_written results s1)
  | (Raise e, s1) => (Raise e, s1)
  | (OutOfFuel, s1) => (OutOfFuel, s1)
  end.
Proof.
  unfold analyze_users. unfold bind at 1. unfold get at 1. cbv beta iota zeta.
  unfold bind at 1.
  destruct (for_each_M (analyze_user fuel) _ [] s) as [[results|e|] s1]; reflexivity.
Qed.

(** C10: [analyze_users] filters the user names against the completed set
    once, before the loop.  A user who is not in that set when the run
    starts therefore goes through the loop once for each time the name
    occurs in the list, and each of these turns ends with a record of the
    user appended or with the failure of the user logged.  The records of
    the user in the returned list are exactly the results of the calls of
    [get_user_stats] for the user that returned during the run (each such
    call logs its completion itself): none is dropped, none comes from the
    results file.  So when no analysis of the user fails, [get_user_stats]
    has run once for each occurrence and the list holds one record of the
    user for each occurrence: a name given twice comes back as two
    records. *)
Theorem repeated_user_is_analyzed_again (fuel : nat) (usernames : list string)
    (u : string) (s s' : state) (results : list user_record) :
  analyze_users fuel usernames s = (Ok results, s') ->
  u ∉ completed_users s ->
  completions u (log s') = completions u (log s) + records_of u results
  /\ occurrences u usernames + failures_of u (log s)
     <= records_of u results + failures_of u (log s')
  /\ records_of u results <= occurrences u usernames
  /\ (failures_of u (log s') = failures_of u (log s) ->
      records_of u results = occurrences u usernames
      /\ completions u (log s') = completions u (log s) + occurrences u usernames).
Proof.
  intros Hrun Hu. rewrite analyze_users_unfold in Hrun. cbv zeta in Hrun.
  set (pending := filter (fun v => v ∉ completed_users s) usernames) in *.
  destruct (for_each_M (analyze_user fuel) pending [] s) as [[results1|e|] s1] eqn:Hloop;
    [|done|done].
  destruct (analyze_loop_summary _ _ _ _ _ _ Hloop) as (Hc & Hf & Hocc & _ & Hle & Hdone).
  assert (Hpending : occurrences u pending = occurrences u usernames)
    by (by apply occurrences_pending).
  specialize (Hc u). specialize (Hocc u). specialize (Hle u).
  rewrite Hpending in Hocc, Hle. unfold records_of at 1 in Hc. simpl in Hc.
  unfold records_of at 1 in Hocc. unfold records_of at 2 in Hle. simpl in Hocc, Hle.
  assert (Hmerge : forall cached,
             records_of u (merge_cached (completed_users s1) cached results1)
             = records_of u results1).
  { intros cached. apply merge_cached_records.
    destruct (decide (u ∈ completed_users s1)) as [Hin|Hout]; [left|by right].
    apply records_of_named. by destruct (Hdone u Hin). }
  assert (Hrecords : records_of u results = records_of u results1).
  { injection Hrun as <- _. case_bool_decide; [|done].
    destruct (results_file s1); [by rewrite Hmerge | done]. }
  assert (Hlog : log s' = log s1) by (by injection Hrun as _ <-).
  rewrite Hrecords, Hlog. split_and!; try lia.
Qed.

(** ** Additivity of the aggregation *)

Lemma yields_ret {A} (a : A) (Q : A -> Prop) : Q a -> yields (ret a) Q.
Proof. intros H s a' s' [= <- <-]. exact H. Qed.

Lemma yields_bind {A B} (m : M A) (k : A -> M B) (Q1 : A -> Prop) (Q : B -> Prop) :
  yields m Q1 -> (forall a, Q1 a -> yields (k a) Q) -> yields (bind m k) Q.
Proof.
  intros Hm Hk s b s'. unfold bind.
  destruct (m s) as [[a|e|] s1] eqn:E; [|done|done].
  intros Hrun. eapply Hk; [|exact Hrun]. eapply Hm, E.
Qed.

Lemma yields_any {A} (m : M A) : yields m (fun _ => True).
Proof. by intros s a s' _. Qed.

Lemma yields_lift {A} (x : exn + A) (Q : A -> Prop) :
  (forall a, x = inr a -> Q a) -> yields (lift x) Q.
Proof. intros H s a s'. destruct x as [e|a']; [done|]. intros [= <- <-]. by apply H. Qed.

Lemma yields_for_each {A S} (f : A -> S -> M S) (I : S -> Prop) (l : list A) :
  (forall x a, I a -> yields (f x a) I) ->
  forall a0, I a0 -> yields (for_each_M f l a0) I.
Proof.
  intros Hf. induction l as [|x l IH]; intros a0 H0; simpl.
  - by apply yields_ret.
  - eapply yields_bind; [by apply Hf|]. intros a Ha. by apply IH.
Qed.

Section Tracks.
Context (org : string) (base : counts) (base_repos : nat).

Lemma tracks_mono k k' a :
  k <= k' -> tracks org base base_repos k a -> tracks org base base_repos k' a.
Proof. intros Hk [H1 H2 H3]. split; auto. intros m Hm. apply H2. lia. Qed.

Lemma tracks_bump k m n a :
  phase m <= k -> tracks org base base_repos k a ->
  tracks org base base_repos k (bump_both m n a).
Proof.
  intros Hm [H1 H2 H3]. split; simpl; [| |done].
  - intros m'. unfold bump. case_bool_decide; rewrite H1; lia.
  - intros m' Hm'. unfold bump. rewrite bool_decide_eq_false_2; [by apply H2|].
    intros ->. lia.
Qed.

Lemma tracks_assign k0 k m n a :
  k0 < phase m -> phase m <= k -> tracks org base base_repos k0 a ->
  tracks org base base_repos k (assign_and_add m n a).
Proof.
  intros Hlt Hle [H1 H2 H3]. split; simpl; [| |done].
  - intros m'. unfold bump, assign. case_bool_decide as Hm'; [|apply H1].
    subst m'. rewrite H1, H2 by done. lia.
  - intros m' Hm'. unfold assign. rewrite bool_decide_eq_false_2; [apply H2; lia|].
    intros ->. lia.
Qed.

Lemma set_add_length x l : length (set_add x l) = length l + (if bool_decide (x ∈ l) then 0 else 1).
Proof. unfold set_add. case_bool_decide; [lia|]. rewrite length_app. simpl. lia. Qed.

Lemma set_add_elem x y l : y ∈ set_add x l <-> y = x \/ y ∈ l.
Proof.
  unfold set_add. case_bool_decide; [set_solver|].
  rewrite elem_of_app, list_elem_of_singleton. tauto.
Qed.

Lemma tracks_note_repo k item a a' :
  tracks org base base_repos k a -> note_repo org item a = inr a' ->
  tracks org base base_repos k a'.
Proof.
  intros Ha. pose proof Ha as [H1 H2 (names & Hnames & Hlen & Hin)]. unfold note_repo.
  destruct (Py.get _ _ item) as [e|repo_url]; simpl; [done|].
  destruct (Py.truthy repo_url); [|by intros [= <-]].
  destruct repo_url as [| | |u| |]; try done.
  rewrite Hnames. intros [= <-]. split; simpl; [done|done|].
  set (repo_name := Str.last_part (Str.split "/" u)).
  exists (set_add repo_name names). split; [done|]. split.
  - rewrite !set_add_length.
    destruct (bool_decide (org +:+ "/" +:+ repo_name ∈ acc_repos a)) eqn:E1; [lia|].
    rewrite bool_decide_eq_false_2; [lia|].
    intros Hr. apply bool_decide_eq_false_1 in E1. apply E1. by apply Hin.
  - intros r [->|Hr]%set_add_elem; apply set_add_elem; [by left|right; by apply Hin].
Qed.

Lemma counted_note_repo item a a' :
  counted a -> note_repo org item a = inr a' -> counted a'.
Proof.
  intros [n Hn]. unfold note_repo.
  destruct (Py.get _ _ item) as [e|repo_url]; simpl; [done|].
  destruct (Py.truthy repo_url); [|intros [= <-]; by exists n].
  destruct repo_url; try done. by rewrite Hn.
Qed.

Lemma counted_bump m n a : counted a -> counted (bump_both m n a).
Proof. by intros [n' Hn]; exists n'. Qed.

Lemma counted_assign m n a : counted a -> counted (assign_and_add m n a).
Proof. by intros [n' Hn]; exists n'. Qed.

(** The first two stages, for either kind of accumulator. *)
Lemma tracks_count_pr k pr a a' :
  1 <= k -> tracks org base base_repos k a -> count_pr org pr a = inr a' ->
  tracks org base base_repos k a'.
Proof.
  intros Hk Ha. unfold count_pr.
  destruct (classify_pr pr a) as [e|a1] eqn:E; simpl; [done|].
  apply tracks_note_repo.
  destruct (classify_pr_cases _ _ _ E) as [->|[->| ->]]; [done| |];
    apply tracks_bump; simpl; auto.
Qed.

Lemma counted_count_pr pr a a' : counted a -> count_pr org pr a = inr a' -> counted a'.
Proof.
  intros Ha. unfold count_pr.
  destruct (classify_pr pr a) as [e|a1] eqn:E; simpl; [done|].
  apply counted_note_repo.
  destruct (classify_pr_cases _ _ _ E) as [->|[->| ->]]; [done| |];
    by apply counted_bump.
Qed.

Lemma tracks_count_issue k issue a a' :
  2 <= k -> tracks org base base_repos k a -> count_issue org issue a = inr a' ->
  tracks org base base_repos k a'.
Proof.
  intros Hk Ha. unfold count_issue.
  destruct (Py.get "state" JNull issue) as [e|state]; simpl; [done|].
  apply tracks_note_repo. destruct (Py.eq_str state "closed"); [|done].
  apply tracks_bump; simpl; auto.
Qed.

Lemma counted_count_issue issue a a' :
  counted a -> count_issue org issue a = inr a' -> counted a'.
Proof.
  intros Ha. unfold count_issue.
  destruct (Py.get "state" JNull issue) as [e|state]; simpl; [done|].
  apply counted_note_repo. destruct (Py.eq_str state "closed"); [|done].
  by apply counted_bump.
Qed.

Lemma tracks_count_prs pr_data a a' :
  tracks org base base_repos 0 a -> count_prs org pr_data a = inr a' ->
  tracks org base base_repos 1 a'.
Proof.
  intros Ha. unfold count_prs.
  destruct (has_items pr_data) as [e|[]]; simpl; [done| |].
  - destruct (Py.getitem "items" pr_data) as [e|pr_items]; simpl; [done|].
    destruct (Py.len pr_items) as [e|n]; simpl; [done|].
    destruct (Py.iterate pr_items) as [e|prs]; simpl; [done|].
    apply for_each_invariant.
    + intros pr a1 a2. by apply tracks_count_pr.
    + apply (tracks_assign 0); simpl; [lia|lia|done].
  - intros [= <-]. apply (tracks_mono 0); [lia|done].
Qed.

Lemma counted_count_prs pr_data a a' :
  counted a -> count_prs org pr_data a = inr a' -> counted a'.
Proof.
  intros Ha. unfold count_prs.
  destruct (has_items pr_data) as [e|[]]; simpl; [done| |by intros [= <-]].
  destruct (Py.getitem "items" pr_data) as [e|pr_items]; simpl; [done|].
  destruct (Py.len pr_items) as [e|n]; simpl; [done|].
  destruct (Py.iterate pr_items) as [e|prs]; simpl; [done|].
  apply for_each_invariant.
  - intros pr a1 a2. apply counted_count_pr.
  - by apply counted_assign.
Qed.

Lemma tracks_count_issues issues_data a a' :
  tracks org base base_repos 1 a -> count_issues org issues_data a = inr a' ->
  tracks org base base_repos 2 a'.
Proof.
  intros Ha. unfold count_issues.
  destruct (has_items issues_data) as [e|[]]; simpl; [done| |].
  - destruct (Py.getitem "items" issues_data) as [e|issue_items]; simpl; [done|].
    destruct (Py.len issue_items) as [e|n]; simpl; [done|].
    destruct (Py.iterate issue_items) as [e|issues]; simpl; [done|].
    apply for_each_invariant.
    + intros issue a1 a2. by apply tracks_count_issue.
    + apply (tracks_assign 1); simpl; [lia|lia|done].
  - intros [= <-]. apply (tracks_mono 1); [lia|done].
Qed.

Lemma counted_count_issues issues_data a a' :
  counted a -> count_issues org issues_data a = inr a' -> counted a'.
Proof.
  intros Ha. unfold count_issues.
  destruct (has_items issues_data) as [e|[]]; simpl; [done| |by intros [= <-]].
  destruct (Py.getitem "items" issues_data) as [e|issue_items]; simpl; [done|].
  destruct (Py.len issue_items) as [e|n]; simpl; [done|].
  destruct (Py.iterate issue_items) as [e|issues]; simpl; [done|].
  apply for_each_invariant.
  - intros issue a1 a2. apply counted_count_issue.
  - by apply counted_assign.
Qed.

Lemma tracks_count_reviews review_data a a' :
  tracks org base base_repos 3 a -> count_reviews review_data a = inr a' ->
  tracks org base base_repos 4 a'.
Proof.
  intros Ha. unfold count_reviews.
  destruct (has_items review_data) as [e|[]]; simpl; [done| |].
  - destruct (Py.getitem "items" review_data) as [e|items]; simpl; [done|].
    destruct (Py.len items) as [e|n]; simpl; [done|].
    intros [= <-]. apply (tracks_assign 3); simpl; [lia|lia|done].
  - intros [= <-]. apply (tracks_mono 3); [lia|done].
Qed.

Lemma tracks_count_comments data1 data2 a a' :
  tracks org base base_repos 4 a -> count_comments data1 data2 a = inr a' ->
  tracks org base base_repos 5 a'.
Proof.
  intros Ha. unfold count_comments.
  destruct (add_comments data1 0) as [e|c1]; simpl; [done|].
  destruct (add_comments data2 c1) as [e|c2]; simpl; [done|].
  intros [= <-]. apply (tracks_assign 4); simpl; [lia|lia|done].
Qed.

Lemma tracks_count_batch fuel username batch a :
  tracks org base base_repos 3 a ->
  yields (count_batch fuel username org batch a) (tracks org base base_repos 3).
Proof.
  intros Ha. unfold count_batch.
  eapply yields_bind.
  - apply (yields_for_each _ (tracks org base base_repos 3)); [|exact Ha].
    intros repo a1 Ha1. unfold count_repo_commits.
    eapply yields_bind; [apply yields_any|]. intros repo_commits _.
    destruct repo_commits; apply yields_ret; try done.
    apply tracks_bump; simpl; [lia|done].
  - intros a1 Ha1.
    eapply yields_bind; [apply yields_any|]. intros _ _.
    eapply yields_bind; [apply yields_any|]. intros _ _.
    by apply yields_ret.
Qed.

End Tracks.

Lemma sum_agree {A} (f g : A -> nat) (l : list A) :
  (forall x, x ∈ l -> f x = g x) -> sum_list_with f l = sum_list_with g l.
Proof.
  induction l as [|x l IH]; intros H; simpl; [done|].
  rewrite H by (by left). rewrite IH; [done|]. intros y Hy. apply H. by right.
Qed.

Lemma org_entry_stored org o table total' repos' entry :
  org_entry (Stats total' repos' (<[org := entry]> table)) o
  = if bool_decide (o = org) then entry else default fresh_org_stats (table !! o).
Proof.
  unfold org_entry. simpl. case_bool_decide as H.
  - subst o. by rewrite lookup_insert_eq.
  - by rewrite lookup_insert_ne.
Qed.

Lemma process_org_aggregates fuel username org done st :
  aggregated done st ->
  yields (process_org fuel username org st) (aggregated (done ++ [org])).
Proof.
  intros Hagg. unfold process_org.
  eapply yields_bind; [apply yields_any|]. intros s _.
  fold (org_entry st org).
  destruct (decide (org ∈ done)) as [Hdone|Hnew].
  - (* processed before: the entry holds a number, and the call raises *)
    destruct (agg_done _ _ Hagg org Hdone) as [n Hn].
    eapply yields_bind; [apply yields_any|]. intros pr_data _.
    eapply (yields_bind _ _ counted).
    { apply yields_lift. intros a1. apply counted_count_prs. by exists n. }
    intros a1 Hc1.
    eapply yields_bind; [apply yields_any|]. intros issues_data _.
    eapply (yields_bind _ _ counted).
    { apply yields_lift. intros a2. by apply counted_count_issues. }
    intros a2 [n2 Hc2].
    eapply (yields_bind _ _ (fun _ => False)); [|by intros ? []].
    apply yields_lift. intros names. by rewrite Hc2.
  - (* processed for the first time *)
    rewrite (agg_fresh _ _ Hagg org Hnew).
    set (T := tracks org (total st) (length (repos_contributed st))).
    assert (H0 : T 0 (Acc fresh_org_stats (total st) (repos_contributed st))).
    { split; simpl; [intros; unfold zero; lia | done |].
      exists []. split; [done|]. split; [simpl; lia | by intros r ?%elem_of_nil]. }
    eapply yields_bind; [apply yields_any|]. intros pr_data _.
    eapply (yields_bind _ _ (T 1)).
    { apply yields_lift. intros a1. by apply tracks_count_prs. }
    intros a1 H1.
    eapply yields_bind; [apply yields_any|]. intros issues_data _.
    eapply (yields_bind _ _ (T 2)).
    { apply yields_lift. intros a2. by apply tracks_count_issues. }
    intros a2 H2.
    eapply yields_bind; [apply yields_any|]. intros repo_list _.
    eapply (yields_bind _ _ (T 3)).
    { apply yields_for_each.
      - intros batch a3 H3. by apply tracks_count_batch.
      - apply (tracks_mono _ _ _ 2); [lia|done]. }
    intros a3 H3.
    eapply yields_bind; [apply yields_any|]. intros review_data _.
    eapply (yields_bind _ _ (T 4)).
    { apply yields_lift. intros a4. by apply tracks_count_reviews. }
    intros a4 H4.
    eapply yields_bind; [apply yields_any|]. intros comments_data_issues _.
    eapply yields_bind; [apply yields_any|]. intros _ _.
    eapply yields_bind; [apply yields_any|]. intros comments_data_prs _.
    eapply (yields_bind _ _ (T 5)).
    { apply yields_lift. intros a5. by apply tracks_count_comments. }
    intros a5 [Htotal _ (names & Hnames & Hlen & _)].
    eapply (yields_bind _ _ (fun n => n = length names)).
    { apply yields_lift. intros n. rewrite Hnames. by intros [= <-]. }
    intros n ->. apply yields_ret.
    destruct Hagg as [Hnodup Hsum Hrepos Hcounted Hfresh].
    assert (Hother : forall o, o ∈ done -> o <> org) by (intros o Ho ->; done).
    split.
    + apply NoDup_app. split; [done|]. split; [|apply NoDup_singleton].
      intros o Ho ->%list_elem_of_singleton. done.
    + intros m. simpl. rewrite sum_list_with_app. simpl.
      rewrite org_entry_stored, bool_decide_eq_true_2 by done. simpl.
      rewrite (sum_agree _ (fun org => org_count (org_entry st org) m)).
      * rewrite <- Hsum, Htotal. lia.
      * intros o Ho. rewrite org_entry_stored.
        by rewrite bool_decide_eq_false_2 by auto.
    + simpl. rewrite sum_list_with_app. simpl.
      rewrite org_entry_stored, bool_decide_eq_true_2 by done. simpl.
      rewrite (sum_agree _ (fun org => repos_size (org_repos (org_entry st org)))).
      * lia.
      * intros o Ho. rewrite org_entry_stored.
        by rewrite bool_decide_eq_false_2 by auto.
    + intros o. rewrite elem_of_app, list_elem_of_singleton, org_entry_stored.
      intros [Ho| ->].
      * rewrite bool_decide_eq_false_2 by auto. by apply Hcounted.
      * rewrite bool_decide_eq_true_2 by done. by eexists.
    + intros o. rewrite elem_of_app, list_elem_of_singleton, org_entry_stored.
      intros Ho. rewrite bool_decide_eq_false_2 by tauto. apply Hfresh. tauto.
Qed.


Lemma initial_stats_fresh orgs org : org_entry (initial_stats orgs) org = fresh_org_stats.
Proof.
  unfold org_entry, initial_stats. simpl.
  assert (H : forall table : gmap string org_stats,
             default fresh_org_stats (table !! org) = fresh_org_stats ->
             default fresh_org_stats
               (foldl (fun table org => <[org := fresh_org_stats]> table) table orgs !! org)
             = fresh_org_stats).
  { induction orgs as [|o orgs IH]; intros table Ht; simpl; [done|].
    apply IH. destruct (decide (o = org)) as [->|Hne].
    - by rewrite lookup_insert_eq.
    - by rewrite lookup_insert_ne. }
  apply H. by rewrite lookup_empty.
Qed.

Lemma initial_stats_aggregated orgs : aggregated [] (initial_stats orgs).
Proof.
  split; simpl.
  - apply NoDup_nil_2.
  - done.
  - lia.
  - by intros org ?%elem_of_nil.
  - intros org _. apply initial_stats_fresh.
Qed.


(** *** The flat record *)

Lemma dict_get_set {V} (k k' : string) (v : V) (d : list (string * V)) :
  dict_get k (dict_set k' v d) = if bool_decide (k = k') then Some v else dict_get k d.
Proof.
  induction d as [|[k0 v0] d IH]; simpl.
  - repeat case_bool_decide; congruence.
  - destruct (bool_decide (k0 = k')) eqn:E0; simpl.
    + apply bool_decide_eq_true_1 in E0. repeat case_bool_decide; congruence.
    + apply bool_decide_eq_false_1 in E0. rewrite IH.
      repeat case_bool_decide; congruence.
Qed.

(** Writing a list of items with distinct keys under a prefix. *)
Lemma prefixed_items_get (p : string) (items : list (string * nat)) :
  NoDup (map fst items) ->
  forall fields,
    let fields' :=
      foldl (fun fields kv => dict_set (p +:+ fst kv) (snd kv) fields) fields items in
    (forall kv, kv ∈ items -> dict_get (p +:+ fst kv) fields' = Some (snd kv))
    /\ (forall k, (forall kv, kv ∈ items -> p +:+ fst kv <> k) ->
                  dict_get k fields' = dict_get k fields).
Proof.
  induction items as [|kv0 items IH]; intros Hnodup fields; simpl.
  - split; [by intros kv ?%elem_of_nil | done].
  - apply NoDup_cons in Hnodup as [Hfresh Hnodup].
    destruct (IH Hnodup (dict_set (p +:+ fst kv0) (snd kv0) fields)) as [IH1 IH2].
    split.
    + intros kv [->|Hin]%elem_of_cons; [|by apply IH1].
      rewrite IH2.
      * by rewrite dict_get_set, bool_decide_eq_true_2.
      * intros kv Hin Heq. apply (inj (String.app p)) in Heq.
        apply Hfresh. rewrite <- Heq. apply list_elem_of_fmap. by exists kv.
    + intros k Hk. rewrite IH2.
      * rewrite dict_get_set, bool_decide_eq_false_2; [done|].
        intros ->. eapply Hk; [by left|done].
      * intros kv Hin. apply Hk. by right.
Qed.

Lemma item_keys_eq o : map fst (org_items o) = item_keys.
Proof. reflexivity. Qed.

Lemma item_keys_nodup : NoDup item_keys.
Proof. apply (bool_decide_unpack _). by vm_compute. Qed.

(** A string ends with another. *)
Lemma ends_with_refl s : Str.ends_with s s = true.
Proof. destruct s; simpl; [done|]. by rewrite bool_decide_eq_true_2. Qed.

Lemma ends_with_app p s : Str.ends_with s (p +:+ s) = true.
Proof.
  induction p as [|c p IH]; simpl; [apply ends_with_refl|].
  rewrite IH. by rewrite orb_true_r.
Qed.

Lemma string_app_nil_r s : s +:+ EmptyString = s.
Proof.
  induction s as [|c s IH]; [reflexivity|].
  change (String c (s +:+ EmptyString) = String c s). by f_equal.
Qed.

Lemma string_app_assoc a b c : (a +:+ b) +:+ c = a +:+ (b +:+ c).
Proof.
  induction a as [|h a IH]; [reflexivity|].
  change (String h ((a +:+ b) +:+ c) = String h (a +:+ (b +:+ c))). by f_equal.
Qed.

Lemma string_app_eq_app a : forall b c d,
  a +:+ b = c +:+ d ->
  exists x, (a = c +:+ x /\ d = x +:+ b) \/ (c = a +:+ x /\ b = x +:+ d).
Proof.
  induction a as [|h a IH]; intros b c d Heq.
  - exists c. by right.
  - destruct c as [|h' c].
    + exists (String h a). by left.
    + change (String h (a +:+ b) = String h' (c +:+ d)) in Heq.
      injection Heq as -> Heq. destruct (IH _ _ _ Heq) as [x [[-> ->]|[-> ->]]];
        exists x; [by left | by right].
Qed.

(** Two item keys never overlap across an underscore: no key ends with
    [_] followed by a key. *)
Lemma item_keys_apart k1 k2 :
  k1 ∈ item_keys -> k2 ∈ item_keys -> Str.ends_with ("_" +:+ k1) k2 = false.
Proof.
  unfold item_keys. rewrite !elem_of_cons, !elem_of_nil.
  intros H1 H2.
  repeat (destruct H1 as [->|H1]); try done;
    repeat (destruct H2 as [->|H2]); try done; by vm_compute.
Qed.

Lemma string_app_nonempty z c x : z +:+ String c x <> EmptyString.
Proof. by destruct z. Qed.

Lemma underscore_split z x : "_" = z +:+ x -> x <> EmptyString -> z = EmptyString.
Proof.
  destruct z as [|c z]; [done|]. intros Heq Hx. exfalso.
  change (String "_" EmptyString = String c (z +:+ x)) in Heq.
  injection Heq as _ Heq. destruct x as [|c' x]; [done|].
  by apply (string_app_nonempty z c' x).
Qed.

Lemma prefixed_key_top p k' k :
  k' ∈ item_keys -> k ∈ item_keys -> (p +:+ "_") +:+ k' <> k.
Proof.
  intros Hk' Hk Heq.
  assert (Hend : Str.ends_with ("_" +:+ k') k = true).
  { rewrite <- Heq, string_app_assoc. apply ends_with_app. }
  by rewrite item_keys_apart in Hend.
Qed.

Lemma overlap_empty q1 q2 a b x :
  a ∈ item_keys -> b ∈ item_keys ->
  q1 +:+ "_" = (q2 +:+ "_") +:+ x -> b = x +:+ a -> x = EmptyString.
Proof.
  intros Ha Hb Hx Hbx. destruct x as [|c x]; [done|]. exfalso.
  assert (Hend : Str.ends_with ("_" +:+ a) b = true).
  { destruct (string_app_eq_app _ _ _ _ Hx) as [z [[_ Hz]|[_ Hz]]].
    - rewrite Hbx, Hz, string_app_assoc. apply ends_with_app.
    - assert (z = EmptyString) as -> by (by eapply underscore_split).
      rewrite Hbx. change (EmptyString +:+ String c x) with (String c x) in Hz.
      rewrite <- Hz. apply ends_with_refl. }
  by rewrite item_keys_apart in Hend.
Qed.

Lemma prefixed_key_inj p1 p2 k1 k2 :
  k1 ∈ item_keys -> k2 ∈ item_keys ->
  (p1 +:+ "_") +:+ k1 = (p2 +:+ "_") +:+ k2 -> p1 +:+ "_" = p2 +:+ "_" /\ k1 = k2.
Proof.
  intros Hk1 Hk2 Heq.
  destruct (string_app_eq_app _ _ _ _ Heq) as [x [[Hp Hk]|[Hp Hk]]].
  - assert (x = EmptyString) as -> by (by eapply (overlap_empty p1 p2 k1 k2)).
    rewrite string_app_nil_r in Hp. by split.
  - assert (x = EmptyString) as -> by (by eapply (overlap_empty p2 p1 k2 k1)).
    rewrite string_app_nil_r in Hp. by split.
Qed.

Lemma org_items_keys o kv : kv ∈ org_items o -> fst kv ∈ item_keys.
Proof.
  intros Hin. rewrite <- (item_keys_eq o). apply list_elem_of_fmap. by exists kv.
Qed.

Lemma flatten_org_other table fields org k :
  (forall k', k' ∈ item_keys -> org_prefix org +:+ k' <> k) ->
  dict_get k (flatten_org table fields org) = dict_get k fields.
Proof.
  intros Hk. unfold flatten_org.
  apply (prefixed_items_get (org_prefix org) (org_items _)).
  - rewrite item_keys_eq. apply item_keys_nodup.
  - intros kv Hkv. apply Hk. by eapply org_items_keys.
Qed.

Lemma flatten_org_own table fields org kv :
  kv ∈ org_items (default fresh_org_stats (table !! org)) ->
  dict_get (org_prefix org +:+ fst kv) (flatten_org table fields org) = Some (snd kv).
Proof.
  intros Hkv. unfold flatten_org.
  apply (prefixed_items_get (org_prefix org) (org_items _)); [|done].
  rewrite item_keys_eq. apply item_keys_nodup.
Qed.

Lemma flatten_orgs_other table k orgs :
  forall fields,
    (forall org k', org ∈ orgs -> k' ∈ item_keys -> org_prefix org +:+ k' <> k) ->
    dict_get k (foldl (flatten_org table) fields orgs) = dict_get k fields.
Proof.
  induction orgs as [|o orgs IH]; intros fields Hk; simpl; [done|].
  rewrite IH by (intros; apply Hk; [by right|done]).
  apply flatten_org_other. intros k' Hk'. apply Hk; [by left|done].
Qed.

Lemma flatten_orgs_own table org kv orgs :
  forall fields,
    org ∈ orgs ->
    (forall org', org' ∈ orgs -> org_prefix org' = org_prefix org -> org' = org) ->
    kv ∈ org_items (default fresh_org_stats (table !! org)) ->
    dict_get (org_prefix org +:+ fst kv) (foldl (flatten_org table) fields orgs)
    = Some (snd kv).
Proof.
  induction orgs as [|o orgs IH]; intros fields Hin Hinj Hkv; simpl.
  - by apply elem_of_nil in Hin.
  - destruct (decide (org ∈ orgs)) as [Hlater|Hlast].
    + apply IH; [done| |done]. intros org' Horg'. apply Hinj. by right.
    + assert (o = org) as -> by (apply elem_of_cons in Hin as [->|?]; done).
      rewrite flatten_orgs_other; [by apply flatten_org_own|].
      intros org' k' Horg' Hk' Heq. unfold org_prefix in Heq.
      apply prefixed_key_inj in Heq as [Hp _]; [|done|by eapply org_items_keys].
      apply Hlast. rewrite <- (Hinj org'); [done|by right|done].
Qed.

Lemma metric_key_item m : metric_key m ∈ item_keys.
Proof. destruct m; repeat constructor. Qed.

Lemma org_items_metric o m : (metric_key m, org_count o m) ∈ org_items o.
Proof. destruct m; unfold org_items; simpl; repeat constructor. Qed.



(** ** Worked examples *)

(** The end-to-end scenario: the record of the user on the [acme] stub. *)
Example acme_record :
  fst (get_user_stats 10 "alice" (Stub.start ["acme"] Stub.acme))
  = Ok (UserRecord "alice"
          [("pr_total", 2); ("pr_merged", 1); ("pr_open", 1); ("commits", 4);
           ("issues_opened", 1); ("issues_closed", 1); ("issues_commented", 0);
           ("repos_contributed", 1); ("reviews_submitted", 1);
           ("acme_pr_total", 2); ("acme_pr_merged", 1); ("acme_pr_open", 1);
           ("acme_commits", 4); ("acme_issues_opened", 1); ("acme_issues_closed", 1);
           ("acme_issues_commented", 0); ("acme_repos_contributed", 1);
           ("acme_reviews_submitted", 1)]).
Proof. vm_compute. repeat split. Qed.

(** Three pages are two requests here: the results of both pages, in page
    order. *)
Example paged_fetch :
  fst (_paginated_request 5 Stub.page_url (Stub.start [] Stub.paged))
  = Ok (JList [Stub.commit "a"; Stub.commit "b"])
  /\ requests_sent (snd (_paginated_request 5 Stub.page_url (Stub.start [] Stub.paged))) = 2.
Proof. vm_compute. repeat split. Qed.

(** C1 at work: the two stub pages are fetched once; the second call
    sends nothing. *)
Lemma paginated_request_fetches_once_witness :
  fst (_paginated_request 5 Stub.page_url (Stub.start [] Stub.paged))
  = Ok (JList [Stub.commit "a"; Stub.commit "b"])
  /\ _paginated_request 0 Stub.page_url
       (snd (_paginated_request 5 Stub.page_url (Stub.start [] Stub.paged)))
     = (Ok (JList [Stub.commit "a"; Stub.commit "b"]),
        snd (_paginated_request 5 Stub.page_url (Stub.start [] Stub.paged))).
Proof.
  assert (H : _paginated_request 5 Stub.page_url (Stub.start [] Stub.paged)
              = (Ok (JList [Stub.commit "a"; Stub.commit "b"]),
                 snd (_paginated_request 5 Stub.page_url (Stub.start [] Stub.paged))))
    by (vm_compute; reflexivity).
  destruct (paginated_request_fetches_once _ _ _ _ _ H) as (_ & Hagain & _).
  split; [rewrite H; reflexivity|]. apply Hagain. reflexivity.
Defined.

(** C2 as stated fails: the stub answers 403 with the rate-limit phrase
    and a reset time in the past, and the fetch ends in the request
    error. *)
Lemma quota_exceeded_past_reset_fails :
  quota_exceeded (Stub.rate_limited 900) = true
  /\ Stub.limited 0 1000 Stub.page_url = Responded (Stub.rate_limited 900)
  /\ fst (_paginated_request 5 Stub.page_url (Stub.start [] Stub.limited))
     = Raise (ApiRequestFailed 403 "API rate limit exceeded for user ID 1.").
Proof. vm_compute. repeat split. Qed.

(** C2, as amended, at work on the [flaky] stub: the request for the
    second page is answered with the quota signal; the restarted fetch
    cannot reach the first page and gives up with a network error after
    its retries; the caller catches that error, sleeps two seconds, asks
    for the second page again and ends with the pages of both requests:
    the fetch has resumed in the middle. *)
Lemma quota_exceeded_restarts_or_fails_witness :
  fst (_paginated_request 6 Stub.page_url (slept 15 Sample.throttled_at_page2))
  = Raise (RequestException "connection reset")
  /\ fst (fetch_pages 7 Stub.page_url (Some Stub.page2_url) (JList [Stub.commit "a"]) 0
            Sample.at_page2)
     = Ok (JList [Stub.commit "a"; Stub.commit "b"])
  /\ fst (_paginated_request 9 Stub.page_url (Stub.start [] Stub.flaky))
     = Ok (JList [Stub.commit "a"; Stub.commit "b"]).
Proof.
  pose proof (quota_exceeded_restarts_or_fails 6 Stub.page_url Stub.page2_url
                (JList [Stub.commit "a"]) 0 Sample.at_page2 (Stub.rate_limited 1010)
                1010%Z) as H.
  cbv zeta in H.
  destruct H as [Hrestart _];
    [vm_compute; discriminate | vm_compute; reflexivity | vm_compute; reflexivity
     | vm_compute; reflexivity |].
  destruct (Hrestart ltac:(vm_compute; reflexivity)) as (_ & _ & Hresume & _).
  split; [vm_compute; reflexivity|]. split; [|vm_compute; reflexivity].
  rewrite (Hresume (RequestException "connection reset")
             (snd (_paginated_request 6 Stub.page_url
                     (slept 15 Sample.throttled_at_page2))));
    [vm_compute; reflexivity | vm_compute; reflexivity | reflexivity].
Defined.

(** C3, as amended, at work: five requests left and the reset time ten
    seconds ahead make a sleep of fifteen seconds, then the refresh. *)
Lemma wait_for_rate_limit_cases_witness :
  wait_for_rate_limit (Stub.short Stub.acme)
  = update_rate_limit_info (slept 15 (Stub.short Stub.acme))
  /\ clock (snd (wait_for_rate_limit (Stub.short Stub.acme))) = 1015%Z.
Proof.
  destruct (wait_for_rate_limit_cases (Stub.short Stub.acme) 5 1010 eq_refl eq_refl)
    as (Hwait & Hclock & _).
  split; [exact Hwait|]. rewrite Hwait. apply (Hclock 15%Z).
Defined.

(** C4 as stated fails: on the stub that answers 500, the run logs the
    error and ends without ever writing the progress file. *)
Lemma other_failure_writes_no_checkpoint :
  fst (analyze_users 5 ["alice"] (Stub.start ["acme"] Stub.broken)) = Ok []
  /\ log (snd (analyze_users 5 ["alice"] (Stub.start ["acme"] Stub.broken)))
     = [LogErrorAnalyzing "alice" "API request failed: 500 - Internal Server Error";
        LogStatsError "alice" "API request failed: 500 - Internal Server Error";
        LogAnalyzing "alice"]
  /\ progress_file (snd (analyze_users 5 ["alice"] (Stub.start ["acme"] Stub.broken)))
     = None
  /\ checkpoint_writes
       (trace (snd (analyze_users 5 ["alice"] (Stub.start ["acme"] Stub.broken)))) = 0.
Proof. vm_compute. repeat split. Qed.

(** C4, as amended, at work on the same stub. *)
Lemma other_failure_is_skipped_witness :
  fst (analyze_user 5 "alice" [] (Stub.start ["acme"] Stub.broken)) = Ok []
  /\ progress_file (snd (analyze_user 5 "alice" [] (Stub.start ["acme"] Stub.broken)))
     = None.
Proof.
  destruct (other_failure_is_skipped 5 "alice" [] (Stub.start ["acme"] Stub.broken)
              (refreshed (logged (LogAnalyzing "alice") (Stub.start ["acme"] Stub.broken)))
              (snd (get_user_stats 5 "alice"
                      (refreshed (logged (LogAnalyzing "alice")
                                    (Stub.start ["acme"] Stub.broken)))))
              (ApiRequestFailed 500 "Internal Server Error"))
    as (Hrun & _ & _ & Hfile & _);
    [vm_compute; reflexivity | vm_compute; reflexivity | vm_compute; reflexivity |].
  rewrite Hrun. split; [reflexivity|]. exact Hfile.
Defined.



(** C6 as stated fails: the one pull request of the user on the [stale]
    stub is closed and was never merged.  The record counts it in
    [pr_total] and its repository in [repos_contributed]; no other counter
    of the record has moved, and the record has no counter of closed pull
    requests. *)
Lemma closed_pull_request_has_no_counter :
  fst (get_user_stats 10 "alice" (Stub.start ["acme"] Stub.stale))
  = Ok (UserRecord "alice"
          [("pr_total", 1); ("pr_merged", 0); ("pr_open", 0); ("commits", 0);
           ("issues_opened", 0); ("issues_closed", 0); ("issues_commented", 0);
           ("repos_contributed", 1); ("reviews_submitted", 0);
           ("acme_pr_total", 1); ("acme_pr_merged", 0); ("acme_pr_open", 0);
           ("acme_commits", 0); ("acme_issues_opened", 0); ("acme_issues_closed", 0);
           ("acme_issues_commented", 0); ("acme_repos_contributed", 1);
           ("acme_reviews_submitted", 0)])
  /\ (forall a a',
        count_pr "acme" (Stub.pr_item "closed" JNull) a = inr a' ->
        org_count (acc_org a') = org_count (acc_org a) /\ acc_total a' = acc_total a).
Proof.
  split; [vm_compute; reflexivity|].
  intros a a'. unfold count_pr. simpl. intros Hnote.
  split; [by eapply note_repo_counts | by eapply note_repo_total].
Qed.

(** C6, as amended, at work on three pull requests. *)
Lemma pull_request_classification_witness :
  (exists a', count_pr "acme" (Stub.pr_item "closed" (JStr "2024-05-01T10:00:00Z"))
                (Acc fresh_org_stats zero []) = inr a'
              /\ org_count (acc_org a') pr_merged = 1 /\ acc_total a' pr_merged = 1
              /\ org_count (acc_org a') pr_open = 0 /\ acc_total a' pr_open = 0)
  /\ (exists a', count_pr "acme" (Stub.pr_item "closed" JNull)
                   (Acc fresh_org_stats zero []) = inr a'
                 /\ forall m, org_count (acc_org a') m = 0 /\ acc_total a' m = 0)
  /\ (exists a', count_pr "acme" (Stub.pr_item "open" JNull)
                   (Acc fresh_org_stats zero []) = inr a'
                 /\ org_count (acc_org a') pr_open = 1 /\ acc_total a' pr_open = 1
                 /\ org_count (acc_org a') pr_merged = 0 /\ acc_total a' pr_merged = 0).
Proof.
  assert (Hnote : forall merged_at st,
             note_repo "acme" (Stub.pr_item st merged_at) (Acc fresh_org_stats zero [])
             = inr (Acc (OrgStats zero (RepoSet ["widget"])) zero ["acme/widget"]))
    by (intros; vm_compute; reflexivity).
  split; [|split].
  - destruct (proj1 (pull_request_classification "acme" _ _ _
                       (Hnote (JStr "2024-05-01T10:00:00Z") "closed"))
                eq_refl (JStr "2024-05-01T10:00:00Z") eq_refl eq_refl)
      as (a' & Hrun & Hcount).
    exists a'. split; [exact Hrun|].
    destruct (Hcount pr_merged) as [H1 H2]. destruct (Hcount pr_open) as [H3 H4].
    by split_and!.
  - destruct (proj1 (proj2 (pull_request_classification "acme" _ _ _ (Hnote JNull "closed")))
                eq_refl JNull eq_refl eq_refl)
      as (a' & Hrun & Hcount).
    exists a'. split; [exact Hrun|]. intros m. destruct (Hcount m) as [H1 H2].
    rewrite H1, H2. by split.
  - destruct (proj1 (proj2 (proj2 (pull_request_classification "acme" _ _ _
                                     (Hnote JNull "open")))) eq_refl)
      as (a' & Hrun & Hcount).
    exists a'. split; [exact Hrun|].
    destruct (Hcount pr_merged) as [H1 H2]. destruct (Hcount pr_open) as [H3 H4].
    by split_and!.
Defined.



(** C8 at work: without a network the first page is requested four
    times, 2, 4 and 8 seconds apart, and the error is raised. *)
Lemma network_failures_are_retried_witness :
  fetch_pages 4 Stub.page_url (Some Stub.page_url) JNull 0 (Stub.start [] Stub.offline)
  = (Raise (RequestException "connection refused"),
     sent Stub.page_url (after_failures Stub.page_url 3 (Stub.start [] Stub.offline)))
  /\ clock (after_failures Stub.page_url 3 (Stub.start [] Stub.offline)) = 1014%Z.
Proof.
  destruct (network_failures_are_retried 0 Stub.page_url Stub.page_url JNull
              (Stub.start [] Stub.offline) (fun _ => "connection refused"))
    as (_ & Hraise & _); [vm_compute; discriminate|].
  split; [|vm_compute; reflexivity]. apply Hraise. intros i _. reflexivity.
Defined.

(** C9 at work: the wrapper page after a list page adds nothing. *)
Lemma mismatched_page_is_dropped_witness :
  fst (fetch_pages 1 Stub.page_url (Some Stub.page2_url) (JList [Stub.commit "a"]) 0
         (Stub.start [] Stub.mixed))
  = Ok (JList [Stub.commit "a"]).
Proof.
  pose proof (mismatched_page_is_dropped 0 Stub.page_url Stub.page2_url 0
                (Stub.start [] Stub.mixed)
                (Response 200 EmptyString (JDict [("items", JList [Stub.commit "b"])])
                   None None None)
                ltac:(vm_compute; discriminate) ltac:(vm_compute; reflexivity)
                ltac:(reflexivity)) as H.
  cbv zeta in H. destruct H as [Hlist _].
  rewrite (Hlist [Stub.commit "a"] [("items", JList [Stub.commit "b"])]);
    [vm_compute; reflexivity | reflexivity | eexists; vm_compute; reflexivity
     | vm_compute; reflexivity].
Defined.

(** C10 at work: the same name twice gives the same record twice, from
    two calls of [get_user_stats] that returned. *)
Lemma repeated_user_is_analyzed_again_witness :
  fst Stub.twice = Ok Stub.twice_results
  /\ records_of "alice" Stub.twice_results = 2
  /\ completions "alice" (log (snd Stub.twice)) = 2.
Proof.
  assert (Hrun : analyze_users 10 ["alice"; "alice"] (Stub.start ["acme"] Stub.acme)
                 = (Ok Stub.twice_results, snd Stub.twice))
    by (vm_compute; reflexivity).
  pose proof (repeated_user_is_analyzed_again 10 ["alice"; "alice"] "alice"
                (Stub.start ["acme"] Stub.acme) (snd Stub.twice) Stub.twice_results
                Hrun (not_elem_of_empty "alice")) as H.
  destruct H as (_ & _ & _ & Hall).
  destruct Hall as [Hrecords Hcompletions]; [vm_compute; reflexivity|].
  split; [vm_compute; reflexivity|]. split; [exact Hrecords | exact Hcompletions].
Defined.

(** * Further properties of the code *)

(** ** The quota tracker *)

(** X1: [update_rate_limit_info] never raises, whatever the server does.
    It sends exactly one request, to the rate-limit endpoint, and takes no
    time.  When the request fails or is answered with another status than
    200, the quota the analyzer holds stays as it was.  A 200 payload with
    both fields sets both attributes to what it holds there, whatever that
    is: the values are not checked, and a value that is no number is
    stored like any other.  Since the two assignments are separate
    statements, a payload that has [remaining] but no [reset] leaves the
    analyzer with the new [remaining] and the old [reset]; a payload
    without [remaining] changes nothing. *)
Theorem update_rate_limit_info_never_raises (s : state) :
  let answer := server s (requests_sent s) (clock s) (base_url +:+ "/rate_limit") in
  let s' := snd (update_rate_limit_info s) in
  fst (update_rate_limit_info s) = Ok tt
  /\ requests_sent s' = S (requests_sent s)
  /\ trace s' = EvGet (base_url +:+ "/rate_limit") :: trace s
  /\ clock s' = clock s
  /\ ((forall r, answer = Responded r -> status_code r <> 200%Z) ->
      rate_limit_remaining s' = rate_limit_remaining s
      /\ rate_limit_reset s' = rate_limit_reset s)
  /\ (forall r remaining reset,
        answer = Responded r -> status_code r = 200%Z ->
        core_field "remaining" (body r) = inr remaining ->
        core_field "reset" (body r) = inr reset ->
        rate_limit_remaining s' = remaining /\ rate_limit_reset s' = reset)
  /\ (forall r remaining e,
        answer = Responded r -> status_code r = 200%Z ->
        core_field "remaining" (body r) = inr remaining ->
        core_field "reset" (body r) = inl e ->
        rate_limit_remaining s' = remaining /\ rate_limit_reset s' = rate_limit_reset s)
  /\ (forall r e,
        answer = Responded r -> status_code r = 200%Z ->
        core_field "remaining" (body r) = inl e ->
        rate_limit_remaining s' = rate_limit_remaining s
        /\ rate_limit_reset s' = rate_limit_reset s).
Proof.
  intros answer s'. subst answer s'.
  unfold update_rate_limit_info, try_except, bind, requests_get.
  destruct (server s _ _ _) as [r|msg] eqn:Hsrv; simpl;
    [destruct (status_code r =? 200)%Z eqn:Hstatus; simpl;
     [apply Z.eqb_eq in Hstatus;
      destruct (core_field "remaining" (body r)) as [e1|remaining] eqn:H1; simpl;
      [|destruct (core_field "reset" (body r)) as [e2|reset] eqn:H2; simpl]
     |apply Z.eqb_neq in Hstatus]|];
    repeat split; intros; simplify_eq; simpl in *; try done; try congruence;
    match goal with
    | H : forall r0, Responded ?r = Responded r0 -> _ |- _ => by destruct (H r eq_refl)
    end.
Qed.

(** ** Time and requests only move forward *)

Global Instance steady_preorder : PreOrder steady.
Proof.
  split.
  - intros s. by split.
  - intros s1 s2 s3 [H1 H2 H3] [H4 H5 H6]. split; [lia | lia | auto].
Qed.

Lemma steady_remaining v s : steady s (set_remaining v s).
Proof. by split. Qed.

Lemma steady_reset v s : steady s (set_reset v s).
Proof. by split. Qed.

Lemma steady_sent url s : steady s (sent url s).
Proof.
  split; simpl; [lia | lia |]. intros H. by apply Forall_cons.
Qed.

Lemma steady_slept d s : (0 < d)%Z -> steady s (slept d s).
Proof.
  intros Hd. split; simpl; [lia | lia |]. intros H. by apply Forall_cons.
Qed.

Lemma steady_cache v s : steady s (set_cache v s).
Proof. by split. Qed.

Lemma steady_logged r s : steady s (logged r s).
Proof. by split. Qed.

Lemma steady_completed v s : steady s (set_completed v s).
Proof. by split. Qed.

Lemma steady_progress users s : steady s (progress_written users s).
Proof. split; simpl; [lia | lia |]. intros H. by apply Forall_cons. Qed.

Lemma steady_results records s : steady s (results_written records s).
Proof. split; simpl; [lia | lia |]. intros H. by apply Forall_cons. Qed.

Lemma update_rate_limit_info_steady : keeps steady update_rate_limit_info.
Proof.
  apply keeps_update_rate_limit_info; try apply _;
    auto using steady_remaining, steady_reset, steady_sent.
Qed.

Lemma wait_for_rate_limit_steady : keeps steady wait_for_rate_limit.
Proof.
  intros s. rewrite wait_for_rate_limit_unfold.
  destruct (Py.lt_int _ _) as [e|[]]; [reflexivity| |reflexivity].
  unfold Py.time_lt, Py.minus_time.
  destruct (Py.number (rate_limit_reset s)) as [reset|]; [|reflexivity].
  destruct (clock s <? reset)%Z eqn:Hlt; [|reflexivity].
  apply Z.ltb_lt in Hlt.
  etrans; [apply (steady_slept (reset - clock s + 5)); lia|].
  apply update_rate_limit_info_steady.
Qed.

Lemma note_headers_steady r : keeps steady (note_headers r).
Proof.
  apply keeps_note_headers; try apply _; auto using steady_remaining, steady_reset.
Qed.

Lemma request_page_steady restart target results :
  keeps steady restart -> keeps steady (request_page restart target results).
Proof.
  intros Hrestart. unfold request_page.
  apply (keeps_bind steady);
    [apply keeps_requests_get; auto using steady_sent|]. intros r.
  apply (keeps_bind steady); [apply note_headers_steady|]. intros _.
  apply (keeps_bind steady).
  - apply (keeps_if steady); [|apply (keeps_ret steady)].
    apply (keeps_bind steady); [apply (keeps_get steady)|]. intros s0.
    apply (keeps_bind steady); [apply (keeps_time steady)|]. intros t.
    apply (keeps_bind steady); [apply (keeps_lift steady)|]. intros delta.
    destruct (0 <? delta + 5)%Z eqn:Hpos.
    + apply Z.ltb_lt in Hpos.
      apply (keeps_bind steady);
        [apply (keeps_modify steady); intros s1; by apply steady_slept|]. intros _.
      apply (keeps_bind steady); [exact Hrestart|]. intros v. apply (keeps_ret steady).
    + apply (keeps_bind steady); [apply update_rate_limit_info_steady|]. intros _.
      apply (keeps_ret steady).
  - intros [v|]; [apply (keeps_ret steady)|].
    apply (keeps_if steady); [apply (keeps_raise steady)|].
    destruct (init_results results (body r)) as [results' stop].
    apply (keeps_if steady); [apply (keeps_ret steady)|].
    apply (keeps_bind steady); [apply (keeps_lift steady)|]. intros results''.
    apply (keeps_bind steady); [apply (keeps_lift steady)|]. intros next_url.
    apply (keeps_bind steady); [|intros; apply (keeps_ret steady)].
    apply (keeps_if steady); [apply wait_for_rate_limit_steady | apply (keeps_ret steady)].
Qed.

Lemma on_request_exception_steady next_url results retry_count e :
  keeps steady (on_request_exception next_url results retry_count e).
Proof.
  unfold on_request_exception.
  apply (keeps_if steady); [|apply (keeps_raise steady)].
  apply (keeps_bind steady); [|intros; apply (keeps_ret steady)].
  apply (keeps_modify steady). intros s. apply steady_slept.
  apply Z.pow_pos_nonneg; lia.
Qed.

Lemma cache_store_steady url results : keeps steady (cache_store url results).
Proof.
  unfold cache_store.
  apply (keeps_bind steady); [apply (keeps_get steady)|]. intros s.
  apply (keeps_modify steady). intros s'. apply steady_cache.
Qed.

Lemma fetcher_steady fuel :
  (forall url, keeps steady (_paginated_request fuel url)) /\
  (forall url next_url results retry_count,
      keeps steady (fetch_pages fuel url next_url results retry_count)).
Proof.
  induction fuel as [|fuel [IHp IHf]].
  - split.
    + intros url s. rewrite paginated_request_unfold.
      destruct (cache s !! url); reflexivity.
    + intros url next_url results retry_count.
      rewrite fetch_pages_unfold.
      apply (keeps_if steady); [apply (keeps_out_of_fuel steady)|].
      apply (keeps_bind steady);
        [apply cache_store_steady | intros; apply (keeps_ret steady)].
  - split.
    + intros url s. rewrite paginated_request_unfold.
      destruct (cache s !! url); [reflexivity|].
      apply (keeps_bind steady); [apply wait_for_rate_limit_steady | intros; apply IHf].
    + intros url next_url results retry_count.
      rewrite fetch_pages_unfold.
      apply (keeps_if steady).
      * apply (keeps_bind steady).
        -- apply (keeps_try steady); [apply request_page_steady, IHp|].
           intros e. apply on_request_exception_steady.
        -- intros [n r c|r|v].
           ++ apply IHf.
           ++ apply (keeps_bind steady);
                [apply cache_store_steady | intros; apply (keeps_ret steady)].
           ++ apply (keeps_ret steady).
      * apply (keeps_bind steady);
          [apply cache_store_steady | intros; apply (keeps_ret steady)].
Qed.

Lemma paginated_request_steady fuel url : keeps steady (_paginated_request fuel url).
Proof. apply fetcher_steady. Qed.

(** X2: the analyzer never asks [time.sleep] for a non-positive time,
    and neither its clock nor its request counter ever goes back: in the
    state any of its methods leaves, however the method ends, the clock and
    the number of requests are at least what they were, and every sleep it
    added to the trace is positive. *)
Theorem sleeps_are_positive (fuel : nat) :
  (forall s, steady s (snd (wait_for_rate_limit s)))
  /\ (forall url s, steady s (snd (_paginated_request fuel url s)))
  /\ (forall username s, steady s (snd (get_user_stats fuel username s)))
  /\ (forall usernames s, steady s (snd (analyze_users fuel usernames s))).
Proof.
  split; [|split; [|split]].
  - apply wait_for_rate_limit_steady.
  - intros url. apply paginated_request_steady.
  - intros username.
    apply keeps_get_user_stats; try apply _;
      auto using update_rate_limit_info_steady, wait_for_rate_limit_steady,
        paginated_request_steady, steady_logged.
  - intros usernames.
    apply keeps_analyze_users; try apply _;
      auto using update_rate_limit_info_steady, wait_for_rate_limit_steady,
        paginated_request_steady, steady_logged, steady_completed, steady_progress,
        steady_results.
Qed.

(** ** The fetcher *)

(** X3: a fetch touches the cache at its own URL only, and only when it
    succeeds: a call of [_paginated_request] that returns [r] leaves the
    cache as it was with [r] stored under the URL; a call that raises (or
    is cut off) leaves the cache exactly as it was, so that a failure is
    never cached and the next call for the URL goes to the network
    again. *)
Theorem fetch_writes_its_own_entry_only (fuel : nat) (url : string) (s : state) :
  let out := _paginated_request fuel url s in
  (forall r, fst out = Ok r -> cache (snd out) = <[url := r]> (cache s))
  /\ (forall e, fst out = Raise e -> cache (snd out) = cache s)
  /\ (fst out = OutOfFuel -> cache (snd out) = cache s)
  /\ (forall other, other <> url -> cache (snd out) !! other = cache s !! other).
Proof.
  intros out. subst out.
  pose proof (proj1 (fetcher_cache_effect fuel) url s) as H.
  destruct (_paginated_request fuel url s) as [[r|e|] s']; simpl in *.
  - split; [by intros ? [= <-]|]. split; [done|]. split; [done|].
    intros other Hother. rewrite H. by apply lookup_insert_ne.
  - split; [done|]. split; [done|]. split; [done|]. intros. by rewrite H.
  - split; [done|]. split; [done|]. split; [done|]. intros. by rewrite H.
Qed.

Lemma contains_raises k j e : Py.contains k j = inl e -> is_request_exception e = false.
Proof. destruct j; simpl; intros; by simplify_eq. Qed.

Lemma getitem_raises k j e : Py.getitem k j = inl e -> is_request_exception e = false.
Proof.
  destruct j as [| | | | |d]; simpl; intros; simplify_eq; try done.
  destruct (Py.lookup k d); by simplify_eq.
Qed.

Lemma iterate_raises j e : Py.iterate j = inl e -> is_request_exception e = false.
Proof. destruct j; simpl; intros; by simplify_eq. Qed.

Lemma extend_items_raises results data e :
  extend_items results data = inl e -> is_request_exception e = false.
Proof.
  unfold extend_items.
  destruct (Py.getitem "items" results) as [e1|target] eqn:H1; simpl;
    [intros [= <-]; by eapply getitem_raises|].
  destruct target; try (by intros [= <-]).
  destruct (Py.getitem "items" data) as [e2|source] eqn:H2; simpl;
    [intros [= <-]; by eapply getitem_raises|].
  destruct (Py.iterate source) as [e3|more] eqn:H3; simpl;
    [intros [= <-]; by eapply iterate_raises|].
  by destruct results.
Qed.

Lemma combine_raises results data e :
  combine results data = inl e -> is_request_exception e = false.
Proof.
  assert (H : (in_results <-? Py.contains "items" results ;;
               if in_results : bool then
                 in_data <-? Py.contains "items" data ;;
                 if in_data : bool then extend_items results data else inr results
               else inr results) = inl e -> is_request_exception e = false).
  { destruct (Py.contains "items" results) as [e1|[]] eqn:H1; simpl;
      [intros [= <-]; by eapply contains_raises| |done].
    destruct (Py.contains "items" data) as [e2|[]] eqn:H2; simpl;
      [intros [= <-]; by eapply contains_raises| |done].
    apply extend_items_raises. }
  unfold combine. destruct results, data; try exact H. done.
Qed.

(** What [fetch_pages] does with a response that is not the quota
    signal. *)
Lemma fetch_pages_response fuel url target results retry_count s r :
  target <> EmptyString ->
  server s (requests_sent s) (clock s) target = Responded r ->
  quota_exceeded r = false ->
  fetch_pages (S fuel) url (Some target) results retry_count s =
    let s1 := snd (note_headers r (sent target s)) in
    if negb (status_code r =? 200)%Z
    then (Raise (ApiRequestFailed (status_code r) (text r)), s1)
    else
      let '(results1, stop) := init_results results (body r) in
      if stop : bool
      then (Ok results1, set_cache (<[url := results1]> (cache s1)) s1)
      else
        match combine results1 (body r) with
        | inl e => (Raise e, s1)
        | inr results' =>
            match next_link (Str.split "," (default EmptyString (link r))) with
            | inl e => (Raise e, s1)
            | inr next_url =>
                ((if url_truthy next_url then wait_for_rate_limit else ret tt) ;;
                 fetch_pages fuel url next_url results' 0) s1
            end
        end.
Proof.
  intros Htarget Hsrv Hquota. cbv zeta.
  set (s1 := snd (note_headers r (sent target s))).
  assert (Hnote : note_headers r (sent target s) = (Ok tt, s1)) by apply note_headers_run.
  rewrite fetch_pages_unfold, url_truthy_some by done.
  unfold bind at 1. unfold try_except at 1. unfold request_page.
  unfold bind at 1. unfold requests_get. simpl. rewrite Hsrv.
  unfold bind at 1. rewrite Hnote. rewrite Hquota.
  unfold bind at 1. unfold ret at 1.
  destruct (negb (status_code r =? 200)%Z); [reflexivity|].
  destruct (init_results results (body r)) as [results1 stop].
  destruct stop; [reflexivity|].
  unfold bind at 1.
  destruct (combine results1 (body r)) as [e|results'] eqn:Hcombine; simpl.
  - by rewrite (combine_raises _ _ _ Hcombine).
  - unfold bind at 1.
    destruct (next_link _) as [e|next_url] eqn:Hlink; simpl.
    + by rewrite (next_link_raises _ _ Hlink).
    + unfold bind at 1. unfold bind at 2.
      destruct (url_truthy next_url); [|reflexivity].
      destruct (wait_for_rate_limit s1) as [[[]|e|] s2] eqn:Hwait;
        [reflexivity| |reflexivity].
      destruct (wait_for_rate_limit_raises _ _ _ Hwait) as (_ & He & _).
      by rewrite He.
Qed.

Lemma note_headers_world r s :
  let s1 := snd (note_headers r s) in
  server s1 = server s /\ requests_sent s1 = requests_sent s /\ clock s1 = clock s
  /\ trace s1 = trace s /\ cache s1 = cache s
  /\ rate_limit_remaining s1
     = default (rate_limit_remaining s) (JNum <$> x_ratelimit_remaining r).
Proof.
  unfold note_headers, bind, modify, ret.
  destruct (x_ratelimit_remaining r), (x_ratelimit_reset r); simpl; done.
Qed.

(** X4: an HTTP error is not retried.  When the response for a page has
    another status than 200 and is not the quota signal, the fetch fails at
    once with [API request failed: <status> - <body>], whatever pages have
    been gathered and however many retries are left: one request has been
    sent, no time has passed, and the cache is as it was. *)
Theorem http_error_fails_at_once (fuel : nat) (url target : string) (results : json)
    (retry_count : nat) (s : state) (r : response) :
  target <> EmptyString ->
  server s (requests_sent s) (clock s) target = Responded r ->
  status_code r <> 200%Z ->
  quota_exceeded r = false ->
  let s' := snd (note_headers r (sent target s)) in
  fetch_pages (S fuel) url (Some target) results retry_count s
  = (Raise (ApiRequestFailed (status_code r) (text r)), s')
  /\ trace s' = EvGet target :: trace s
  /\ clock s' = clock s
  /\ cache s' = cache s.
Proof.
  intros Htarget Hsrv Hstatus Hquota s'.
  destruct (note_headers_world r (sent target s)) as (_ & _ & Hclock & Htrace & Hcache & _).
  split; [|by repeat split].
  rewrite (fetch_pages_response _ _ _ _ _ _ r) by done. cbv zeta.
  replace (status_code r =? 200)%Z with false; [reflexivity|].
  symmetry. by apply Z.eqb_neq.
Qed.

Lemma init_results_plain data : plain data -> init_results JNull data = (data, true).
Proof.
  destruct data as [| | | | |d]; simpl; try done.
  intros ->. rewrite bool_decide_eq_false_2; [done|]. by intros [? ?].
Qed.

(** X5: a 200 response whose body is neither a list nor an object with
    an ['items'] field ends the fetch on the first page: the body itself is
    the result, it is stored in the cache under the original URL, and the
    [Link] header of the response is not looked at. *)
Theorem plain_body_ends_the_fetch (fuel : nat) (url target : string)
    (retry_count : nat) (s : state) (r : response) :
  target <> EmptyString ->
  server s (requests_sent s) (clock s) target = Responded r ->
  status_code r = 200%Z ->
  plain (body r) ->
  let s1 := snd (note_headers r (sent target s)) in
  fetch_pages (S fuel) url (Some target) JNull retry_count s
  = (Ok (body r), set_cache (<[url := body r]> (cache s)) s1)
  /\ requests_sent s1 = S (requests_sent s).
Proof.
  intros Htarget Hsrv Hstatus Hplain s1.
  destruct (note_headers_world r (sent target s)) as (_ & Hsent & _ & _ & Hcache & _).
  split; [|exact Hsent].
  rewrite (fetch_pages_response _ _ _ _ _ _ r);
    [|done|done|by apply not_quota_exceeded_200].
  cbv zeta. rewrite Hstatus, (init_results_plain _ Hplain).
  fold s1 in Hcache |- *. clearbody s1. simpl. by rewrite Hcache.
Qed.

(** X8: a [Link] header that mentions [rel="next"] in a part without
    [<] or without [>] makes the fetch fail: [str.index] raises
    [ValueError], which is no network error, so the page is not retried,
    the pages gathered so far are lost, and nothing is cached. *)
Theorem malformed_link_fails_the_fetch (fuel : nat) (url target : string)
    (results results1 results' : json) (retry_count : nat) (s : state) (r : response)
    (e : exn) :
  target <> EmptyString ->
  server s (requests_sent s) (clock s) target = Responded r ->
  status_code r = 200%Z ->
  init_results results (body r) = (results1, false) ->
  combine results1 (body r) = inr results' ->
  next_link (Str.split "," (default EmptyString (link r))) = inl e ->
  e = ValueError "substring not found"
  /\ fetch_pages (S fuel) url (Some target) results retry_count s
     = (Raise e, snd (note_headers r (sent target s)))
  /\ cache (snd (note_headers r (sent target s))) = cache s.
Proof.
  intros Htarget Hsrv Hstatus Hinit Hcombine Hlink.
  destruct (note_headers_world r (sent target s)) as (_ & _ & _ & _ & Hcache & _).
  split; [|split; [|exact Hcache]].
  - clear -Hlink. revert Hlink.
    induction (Str.split "," (default EmptyString (link r))) as [|l ls IH]; simpl; [done|].
    destruct (Str.contains rel_next l); [|exact IH].
    destruct (Str.index "<" l); [|by intros [= <-]].
    destruct (Str.index ">" l); [done | by intros [= <-]].
  - rewrite (fetch_pages_response _ _ _ _ _ _ r);
      [|done|done|by apply not_quota_exceeded_200].
    cbv zeta. by rewrite Hstatus, Hinit, Hcombine, Hlink.
Qed.

(** *** Pagination *)

Lemma wait_for_rate_limit_ample s :
  Py.lt_int (rate_limit_remaining s) 10 = inr false -> wait_for_rate_limit s = (Ok tt, s).
Proof. intros H. rewrite wait_for_rate_limit_unfold. by rewrite H. Qed.

Lemma lt_int_ample remaining : (10 <= remaining)%Z -> Py.lt_int (JNum remaining) 10 = inr false.
Proof.
  intros H. unfold Py.lt_int. simpl. f_equal. apply Z.ltb_ge. lia.
Qed.

(** A page with enough quota left, after enough quota: still enough. *)
Lemma note_headers_ample r s :
  ample r ->
  Py.lt_int (rate_limit_remaining s) 10 = inr false ->
  Py.lt_int (rate_limit_remaining (snd (note_headers r s))) 10 = inr false.
Proof.
  intros Hr Hs. destruct (note_headers_world r s) as (_ & _ & _ & _ & _ & ->).
  unfold ample in Hr. destruct (x_ratelimit_remaining r); simpl; [|done].
  by apply lt_int_ample.
Qed.

Lemma init_results_started results data :
  results <> JNull -> init_results results data = (results, false).
Proof. by destruct results. Qed.

Lemma init_results_starts data results1 :
  init_results JNull data = (results1, false) -> results1 <> JNull.
Proof.
  destruct data as [| | | | |d]; simpl; try (by intros [= <-]).
  case_bool_decide; by intros [= <-].
Qed.

Lemma extend_items_started results data results' :
  results <> JNull -> extend_items results data = inr results' -> results' <> JNull.
Proof.
  intros Hr. unfold extend_items.
  destruct (Py.getitem "items" results) as [e1|target]; simpl; [done|].
  destruct target; try done.
  destruct (Py.getitem "items" data) as [e2|source]; simpl; [done|].
  destruct (Py.iterate source) as [e3|more]; simpl; [done|].
  destruct results; intros [= <-]; done.
Qed.

Lemma combine_started results data results' :
  results <> JNull -> combine results data = inr results' -> results' <> JNull.
Proof.
  intros Hr.
  assert (H : (in_results <-? Py.contains "items" results ;;
               if in_results : bool then
                 in_data <-? Py.contains "items" data ;;
                 if in_data : bool then extend_items results data else inr results
               else inr results) = inr results' -> results' <> JNull).
  { destruct (Py.contains "items" results) as [e1|[]]; simpl;
      [done| |by intros [= <-]].
    destruct (Py.contains "items" data) as [e2|[]]; simpl;
      [done| |by intros [= <-]].
    by apply extend_items_started. }
  unfold combine. destruct results, data; try exact H. by intros [= <-].
Qed.

(** The loop of the fetcher from the second page on. *)
Lemma fetch_pages_rest rest :
  forall fuel url next_url results retry_count s final,
    results <> JNull ->
    Py.lt_int (rate_limit_remaining s) 10 = inr false ->
    match rest with
    | [] => url_truthy next_url = false
    | _ :: _ => url_truthy next_url = true
                /\ serves (server s) (requests_sent s) (clock s)
                     (default EmptyString next_url) rest
    end ->
    gather results rest = inr final ->
    exists s',
      fetch_pages (length rest + fuel) url next_url results retry_count s = (Ok final, s')
      /\ requests_sent s' = requests_sent s + length rest
      /\ clock s' = clock s
      /\ cache s' = <[url := final]> (cache s).
Proof.
  induction rest as [|r rest IH];
    intros fuel url next_url results retry_count s final Hstarted Hample Hserves Hgather.
  - simpl in Hgather. injection Hgather as <-.
    rewrite fetch_pages_unfold, Hserves.
    eexists. split; [reflexivity|]. simpl. split; [lia|done].
  - destruct Hserves as (Htruthy & Hsrv & Hstatus & Hr & next' & Hlink & Hnext).
    assert (Htarget : exists u, next_url = Some u /\ u <> EmptyString).
    { destruct next_url as [u|]; [|done]. exists u. split; [done|].
      intros ->. by vm_compute in Htruthy. }
    destruct Htarget as (u & -> & Hu). simpl in Hsrv.
    simpl in Hgather.
    destruct (combine results (body r)) as [e|results'] eqn:Hcombine; simpl in Hgather;
      [done|].
    change (length (r :: rest) + fuel) with (S (length rest + fuel)).
    rewrite (fetch_pages_response _ _ _ _ _ _ r);
      [|done|done|by apply not_quota_exceeded_200].
    cbv zeta. rewrite Hstatus, (init_results_started _ _ Hstarted), Hcombine, Hlink. simpl.
    set (s1 := snd (note_headers r (sent u s))).
    destruct (note_headers_world r (sent u s))
      as (Hserver & Hsent & Hclock & _ & Hcache & _).
    fold s1 in Hserver, Hsent, Hclock, Hcache. simpl in *.
    assert (Hample1 : Py.lt_int (rate_limit_remaining s1) 10 = inr false)
      by (by apply note_headers_ample).
    replace (((if url_truthy next' then wait_for_rate_limit else ret tt) ;;
              fetch_pages (length rest + fuel) url next' results' 0) s1)
      with (fetch_pages (length rest + fuel) url next' results' 0 s1)
      by (unfold bind; destruct (url_truthy next');
          [by rewrite wait_for_rate_limit_ample|done]).
    destruct (IH fuel url next' results' 0 s1 final) as (s' & Hrun & Hn & Ht & Hc).
    + by eapply combine_started.
    + done.
    + destruct rest; [done|]. destruct Hnext as [Ht' Hs']. split; [done|].
      by rewrite Hserver, Hsent, Hclock.
    + done.
    + exists s'. split; [exact Hrun|]. rewrite Hn, Ht, Hc, Hsent, Hclock, Hcache.
      split; [lia|done].
Qed.

(** A whole fetch of a URL that is not cached, with enough quota. *)
Lemma paginated_request_serves fuel url s r rest results1 final :
  url <> EmptyString ->
  cache s !! url = None ->
  Py.lt_int (rate_limit_remaining s) 10 = inr false ->
  serves (server s) (requests_sent s) (clock s) url (r :: rest) ->
  init_results JNull (body r) = (results1, false) ->
  gather results1 (r :: rest) = inr final ->
  exists s',
    _paginated_request (S (length (r :: rest)) + fuel) url s = (Ok final, s')
    /\ requests_sent s' = requests_sent s + length (r :: rest)
    /\ clock s' = clock s
    /\ cache s' = <[url := final]> (cache s).
Proof.
  intros Hurl Hmiss Hample Hserves Hinit Hgather.
  destruct Hserves as (Hsrv & Hstatus & Hr & next' & Hlink & Hnext).
  simpl in Hgather.
  destruct (combine results1 (body r)) as [e|results'] eqn:Hcombine; simpl in Hgather;
    [done|].
  change (S (length (r :: rest)) + fuel) with (S (S (length rest + fuel))).
  rewrite paginated_request_unfold, Hmiss.
  unfold bind at 1. rewrite wait_for_rate_limit_ample by done.
  rewrite (fetch_pages_response _ _ _ _ _ _ r);
    [|done|done|by apply not_quota_exceeded_200].
  cbv zeta. rewrite Hstatus, Hinit, Hcombine, Hlink. simpl.
  set (s1 := snd (note_headers r (sent url s))).
  destruct (note_headers_world r (sent url s))
    as (Hserver & Hsent & Hclock & _ & Hcache & _).
  fold s1 in Hserver, Hsent, Hclock, Hcache. simpl in *.
  assert (Hample1 : Py.lt_int (rate_limit_remaining s1) 10 = inr false)
    by (by apply note_headers_ample).
  replace (((if url_truthy next' then wait_for_rate_limit else ret tt) ;;
            fetch_pages (length rest + fuel) url next' results' 0) s1)
    with (fetch_pages (length rest + fuel) url next' results' 0 s1)
    by (unfold bind; destruct (url_truthy next');
        [by rewrite wait_for_rate_limit_ample|done]).
  destruct (fetch_pages_rest rest fuel url next' results' 0 s1 final)
    as (s' & Hrun & Hn & Ht & Hc).
  - eapply combine_started; [|exact Hcombine]. by eapply init_results_starts.
  - done.
  - destruct rest; [done|]. destruct Hnext as [Ht' Hs']. split; [done|].
    by rewrite Hserver, Hsent, Hclock.
  - done.
  - exists s'. split; [exact Hrun|]. rewrite Hn, Ht, Hc, Hsent, Hclock, Hcache.
    split; [lia|done].
Qed.

Lemma gather_lists pages : forall lists acc,
  Forall2 (fun r l => body r = JList l) pages lists ->
  gather (JList acc) pages = inr (JList (acc ++ concat lists)).
Proof.
  induction pages as [|r pages IH]; intros lists acc Hall.
  - apply Forall2_nil_inv_l in Hall as ->. simpl. by rewrite app_nil_r.
  - apply Forall2_cons_inv_l in Hall as (l & lists' & Hbody & Hall & ->).
    simpl. rewrite Hbody. simpl. rewrite (IH lists' (acc ++ l)%list Hall).
    by rewrite app_assoc.
Qed.

Lemma gather_items pages : forall lists acc,
  Forall2 (fun r l => exists d, body r = JDict d /\ Py.lookup "items" d = Some (JList l))
          pages lists ->
  gather (JDict [("items", JList acc)]) pages
  = inr (JDict [("items", JList (acc ++ concat lists))]).
Proof.
  induction pages as [|r pages IH]; intros lists acc Hall.
  - apply Forall2_nil_inv_l in Hall as ->. simpl. by rewrite app_nil_r.
  - apply Forall2_cons_inv_l in Hall as (l & lists' & (d & Hbody & Hitems) & Hall & ->).
    simpl. rewrite Hbody. unfold combine, extend_items. simpl.
    rewrite Hitems. simpl.
    rewrite (IH lists' (acc ++ l)%list Hall).
    by rewrite app_assoc.
Qed.

(** X6: pagination of a list endpoint.  When the server hands out the
    pages of a URL that is not cached one after the other, each a list and
    each but the last with a [next] link, [_paginated_request] returns the
    concatenation of the lists in page order, after one request for each
    page, and stores it in the cache under the URL. *)
Theorem list_pages_are_concatenated (fuel : nat) (url : string) (s : state)
    (pages : list response) (lists : list (list json)) (remaining : Z) :
  url <> EmptyString ->
  cache s !! url = None ->
  rate_limit_remaining s = JNum remaining ->
  (10 <= remaining)%Z ->
  serves (server s) (requests_sent s) (clock s) url pages ->
  Forall2 (fun r l => body r = JList l) pages lists ->
  exists s',
    _paginated_request (S (length pages) + fuel) url s = (Ok (JList (concat lists)), s')
    /\ requests_sent s' = requests_sent s + length pages
    /\ clock s' = clock s
    /\ cache s' = <[url := JList (concat lists)]> (cache s).
Proof.
  intros Hurl Hmiss Hremaining Hten Hserves Hall.
  assert (Hample : Py.lt_int (rate_limit_remaining s) 10 = inr false)
    by (rewrite Hremaining; by apply lt_int_ample).
  destruct pages as [|r rest]; [done|].
  pose proof Hall as Hhead.
  apply Forall2_cons_inv_l in Hhead as (l & lists' & Hbody & _ & _).
  apply (paginated_request_serves fuel url s r rest (JList [])); try done.
  - by rewrite Hbody.
  - by rewrite (gather_lists _ lists []).
Qed.

(** X7: pagination of a search endpoint.  When every page is an object
    whose ['items'] field is a list, the result is an object with the one
    field ['items'], holding the items of all pages in page order; the
    other fields of the pages ([total_count] and the like) are not part of
    the result. *)
Theorem item_pages_are_concatenated (fuel : nat) (url : string) (s : state)
    (pages : list response) (lists : list (list json)) (remaining : Z) :
  url <> EmptyString ->
  cache s !! url = None ->
  rate_limit_remaining s = JNum remaining ->
  (10 <= remaining)%Z ->
  serves (server s) (requests_sent s) (clock s) url pages ->
  Forall2 (fun r l => exists d, body r = JDict d /\ Py.lookup "items" d = Some (JList l))
          pages lists ->
  exists s',
    _paginated_request (S (length pages) + fuel) url s
    = (Ok (JDict [("items", JList (concat lists))]), s')
    /\ requests_sent s' = requests_sent s + length pages
    /\ clock s' = clock s
    /\ cache s' = <[url := JDict [("items", JList (concat lists))]]> (cache s).
Proof.
  intros Hurl Hmiss Hremaining Hten Hserves Hall.
  assert (Hample : Py.lt_int (rate_limit_remaining s) 10 = inr false)
    by (rewrite Hremaining; by apply lt_int_ample).
  destruct pages as [|r rest]; [done|].
  pose proof Hall as Hhead.
  apply Forall2_cons_inv_l in Hhead as (l & lists' & (d & Hbody & Hitems) & _ & _).
  apply (paginated_request_serves fuel url s r rest (JDict [("items", JList [])]));
    try done.
  - rewrite Hbody. simpl. rewrite bool_decide_eq_true_2; [done | by eexists].
  - by rewrite (gather_items _ lists []).
Qed.

(** ** The aggregator *)

Lemma batches_prefix size (l : list string) k :
  concat (map (fun k => take size (drop (k * size) l)) (seq 0 k)) = take (k * size) l.
Proof.
  induction k as [|k IH]; [done|].
  rewrite seq_S, map_app, concat_app, IH. cbn [map concat Nat.add]. rewrite app_nil_r.
  rewrite take_take_drop. f_equal. lia.
Qed.

(** X9: the batches of the commit count (lines 210-211) split the list
    of repositories into consecutive slices: put together they are the
    list again, in order; none is empty and none is longer than the batch
    size; so every repository is asked for its commits exactly once, and
    the quota is refreshed after at most [repo_batch_size] of them. *)
Theorem batches_partition (size : nat) (repo_list : list string) :
  0 < size ->
  concat (batches size repo_list) = repo_list
  /\ Forall (fun batch => 0 < length batch <= size) (batches size repo_list)
  /\ length repo_list <= length (batches size repo_list) * size
     < length repo_list + size.
Proof.
  intros Hsize. unfold batches.
  set (n := (length repo_list + (size - 1)) / size).
  assert (Hn : length repo_list <= n * size < length repo_list + size).
  { pose proof (Nat.div_mod_eq (length repo_list + (size - 1)) size) as Hdiv.
    pose proof (Nat.mod_upper_bound (length repo_list + (size - 1)) size) as Hmod.
    fold n in Hdiv. nia. }
  split; [|split].
  - rewrite batches_prefix. apply take_ge. lia.
  - apply Forall_forall. intros batch Hbatch.
    apply list_elem_of_fmap in Hbatch as (k & -> & Hk).
    apply elem_of_seq in Hk. rewrite length_take, length_drop. nia.
  - rewrite length_map, length_seq. exact Hn.
Qed.

(** *** Coherence of the counters *)

Lemma for_each_measure {A S} (f : A -> S -> exn + S) (mu : S -> nat) (l : list A) :
  (forall x s s', f x s = inr s' -> mu s' <= mu s + 1) ->
  forall s s', for_each f l s = inr s' -> mu s' <= mu s + length l.
Proof.
  intros Hf. induction l as [|x l IH]; intros s s'; simpl.
  - intros [= <-]. lia.
  - destruct (f x s) as [e|s1] eqn:E; simpl; [done|]. intros Hrest.
    specialize (IH _ _ Hrest). specialize (Hf _ _ _ E). lia.
Qed.

Lemma chars_length s : length (Py.chars s) = String.length s.
Proof. induction s as [|c s IH]; simpl; [done | by rewrite IH]. Qed.

Lemma len_iterate j n l : Py.len j = inr n -> Py.iterate j = inr l -> length l = n.
Proof.
  destruct j; simpl; try done; intros [= <-] [= <-]; [by apply chars_length|done|].
  by rewrite length_map.
Qed.

(** The counters of the organization after one pull request. *)
Lemma count_pr_counts org pr a a' :
  count_pr org pr a = inr a' ->
  org_count (acc_org a') pr_merged + org_count (acc_org a') pr_open
  <= org_count (acc_org a) pr_merged + org_count (acc_org a) pr_open + 1
  /\ forall m, m <> pr_merged -> m <> pr_open ->
               org_count (acc_org a') m = org_count (acc_org a) m.
Proof.
  unfold count_pr.
  destruct (classify_pr pr a) as [e|a1] eqn:E; simpl; [done|].
  intros Hnote. rewrite (note_repo_counts _ _ _ _ Hnote).
  destruct (classify_pr_cases _ _ _ E) as [->|[->| ->]]; simpl; unfold bump;
    (split; [repeat case_bool_decide; try done; lia
            |intros m H1 H2; by rewrite bool_decide_eq_false_2]) || (split; [lia|done]).
Qed.

Lemma count_issue_counts org issue a a' :
  count_issue org issue a = inr a' ->
  org_count (acc_org a') issues_closed <= org_count (acc_org a) issues_closed + 1
  /\ forall m, m <> issues_closed ->
               org_count (acc_org a') m = org_count (acc_org a) m.
Proof.
  unfold count_issue.
  destruct (Py.get "state" JNull issue) as [e|state]; simpl; [done|].
  intros Hnote. rewrite (note_repo_counts _ _ _ _ Hnote).
  destruct (Py.eq_str state "closed"); simpl; unfold bump.
  - split; [rewrite bool_decide_eq_true_2 by done; lia|].
    intros m Hm. by rewrite bool_decide_eq_false_2.
  - split; [lia|done].
Qed.

Lemma count_prs_counts org pr_data a a' :
  count_prs org pr_data a = inr a' ->
  org_count (acc_org a) pr_total = 0 ->
  org_count (acc_org a') pr_merged + org_count (acc_org a') pr_open
  <= org_count (acc_org a) pr_merged + org_count (acc_org a) pr_open
     + org_count (acc_org a') pr_total
  /\ forall m, m <> pr_merged -> m <> pr_open -> m <> pr_total ->
               org_count (acc_org a') m = org_count (acc_org a) m.
Proof.
  unfold count_prs.
  destruct (has_items pr_data) as [e|[]]; simpl; [done| |].
  - destruct (Py.getitem "items" pr_data) as [e|pr_items]; simpl; [done|].
    destruct (Py.len pr_items) as [e|n] eqn:Hlen; simpl; [done|].
    destruct (Py.iterate pr_items) as [e|prs] eqn:Hiter; simpl; [done|].
    intros Hloop Hzero.
    pose proof (len_iterate _ _ _ Hlen Hiter) as Hn.
    set (a0 := assign_and_add pr_total n a) in *.
    assert (Hmu : org_count (acc_org a') pr_merged + org_count (acc_org a') pr_open
                  <= org_count (acc_org a0) pr_merged + org_count (acc_org a0) pr_open
                     + length prs).
    { refine (for_each_measure (count_pr org)
                (fun a => org_count (acc_org a) pr_merged + org_count (acc_org a) pr_open)
                prs _ a0 a' Hloop).
      intros pr a1 a2 Hstep. apply (count_pr_counts _ _ _ _ Hstep). }
    assert (Hkeep : forall m, m <> pr_merged -> m <> pr_open ->
                              org_count (acc_org a') m = org_count (acc_org a0) m).
    { refine (for_each_invariant (count_pr org)
                (fun a1 => forall m, m <> pr_merged -> m <> pr_open ->
                                     org_count (acc_org a1) m = org_count (acc_org a0) m)
                prs _ a0 a' _ Hloop); [|done].
      intros pr a1 a2 H1 Hstep m Hm1 Hm2.
      rewrite (proj2 (count_pr_counts _ _ _ _ Hstep)) by done. by apply H1. }
    simpl in Hmu. unfold assign in Hmu. simpl in Hmu.
    split.
    + rewrite (Hkeep pr_total) by done. subst a0. simpl. unfold assign. simpl. lia.
    + intros m H1 H2 H3. rewrite Hkeep by done. subst a0. simpl. unfold assign.
      by rewrite bool_decide_eq_false_2.
  - intros [= <-] _. split; [lia|done].
Qed.

Lemma count_issues_counts org issues_data a a' :
  count_issues org issues_data a = inr a' ->
  org_count (acc_org a) issues_opened = 0 ->
  org_count (acc_org a') issues_closed
  <= org_count (acc_org a) issues_closed + org_count (acc_org a') issues_opened
  /\ forall m, m <> issues_closed -> m <> issues_opened ->
               org_count (acc_org a') m = org_count (acc_org a) m.
Proof.
  unfold count_issues.
  destruct (has_items issues_data) as [e|[]]; simpl; [done| |].
  - destruct (Py.getitem "items" issues_data) as [e|issue_items]; simpl; [done|].
    destruct (Py.len issue_items) as [e|n] eqn:Hlen; simpl; [done|].
    destruct (Py.iterate issue_items) as [e|issues] eqn:Hiter; simpl; [done|].
    intros Hloop Hzero.
    pose proof (len_iterate _ _ _ Hlen Hiter) as Hn.
    set (a0 := assign_and_add issues_opened n a) in *.
    assert (Hmu : org_count (acc_org a') issues_closed
                  <= org_count (acc_org a0) issues_closed + length issues).
    { refine (for_each_measure (count_issue org)
                (fun a => org_count (acc_org a) issues_closed) issues _ a0 a' Hloop).
      intros issue a1 a2 Hstep. apply (count_issue_counts _ _ _ _ Hstep). }
    assert (Hkeep : forall m, m <> issues_closed ->
                              org_count (acc_org a') m = org_count (acc_org a0) m).
    { refine (for_each_invariant (count_issue org)
                (fun a1 => forall m, m <> issues_closed ->
                                     org_count (acc_org a1) m = org_count (acc_org a0) m)
                issues _ a0 a' _ Hloop); [|done].
      intros issue a1 a2 H1 Hstep m Hm1.
      rewrite (proj2 (count_issue_counts _ _ _ _ Hstep)) by done. by apply H1. }
    simpl in Hmu. unfold assign in Hmu. simpl in Hmu.
    split.
    + rewrite (Hkeep issues_opened) by done. subst a0. simpl. unfold assign. simpl. lia.
    + intros m H1 H2. rewrite Hkeep by done. subst a0. simpl. unfold assign.
      by rewrite bool_decide_eq_false_2.
  - intros [= <-] _. split; [lia|done].
Qed.

Lemma coherent_bump m n c :
  m = commits \/ m = reviews_submitted \/ m = issues_commented ->
  coherent c -> coherent (bump m n c).
Proof.
  intros Hm [H1 H2]. unfold coherent, bump.
  destruct Hm as [->|[->| ->]]; by rewrite !bool_decide_eq_false_2.
Qed.

Lemma coherent_assign m n c :
  m = commits \/ m = reviews_submitted \/ m = issues_commented ->
  coherent c -> coherent (assign m n c).
Proof.
  intros Hm [H1 H2]. unfold coherent, assign.
  destruct Hm as [->|[->| ->]]; by rewrite !bool_decide_eq_false_2.
Qed.

Lemma coherent_count_batch fuel username org batch a :
  coherent (org_count (acc_org a)) ->
  yields (count_batch fuel username org batch a)
         (fun a' => coherent (org_count (acc_org a'))).
Proof.
  intros Ha. unfold count_batch.
  eapply yields_bind.
  - apply (yields_for_each _ (fun a' => coherent (org_count (acc_org a')))); [|exact Ha].
    intros repo a1 Ha1. unfold count_repo_commits.
    eapply yields_bind; [apply yields_any|]. intros repo_commits _.
    destruct repo_commits; apply yields_ret; try done;
      simpl; apply coherent_bump; auto.
  - intros a1 Ha1.
    eapply yields_bind; [apply yields_any|]. intros _ _.
    eapply yields_bind; [apply yields_any|]. intros _ _.
    by apply yields_ret.
Qed.

Lemma coherent_count_reviews review_data a a' :
  coherent (org_count (acc_org a)) -> count_reviews review_data a = inr a' ->
  coherent (org_count (acc_org a')).
Proof.
  intros Ha. unfold count_reviews.
  destruct (has_items review_data) as [e|[]]; simpl; [done| |by intros [= <-]].
  destruct (Py.getitem "items" review_data) as [e|items]; simpl; [done|].
  destruct (Py.len items) as [e|n]; simpl; [done|].
  intros [= <-]. simpl. apply coherent_assign; auto.
Qed.

Lemma coherent_count_comments data1 data2 a a' :
  coherent (org_count (acc_org a)) -> count_comments data1 data2 a = inr a' ->
  coherent (org_count (acc_org a')).
Proof.
  intros Ha. unfold count_comments.
  destruct (add_comments data1 0) as [e|c1]; simpl; [done|].
  destruct (add_comments data2 c1) as [e|c2]; simpl; [done|].
  intros [= <-]. simpl. apply coherent_assign; auto.
Qed.

(** One organization that is processed for the first time. *)
Lemma process_org_coherent fuel username org st :
  org_entry st org = fresh_org_stats ->
  (forall o, coherent (org_count (org_entry st o))) ->
  yields (process_org fuel username org st)
         (fun st' => forall o, coherent (org_count (org_entry st' o))).
Proof.
  intros Hfresh Hall. unfold process_org.
  eapply yields_bind; [apply yields_any|]. intros s _.
  fold (org_entry st org). rewrite Hfresh.
  set (C := fun a : acc => coherent (org_count (acc_org a))).
  eapply yields_bind; [apply yields_any|]. intros pr_data _.
  eapply (yields_bind _ _
            (fun a => org_count (acc_org a) pr_merged + org_count (acc_org a) pr_open
                      <= org_count (acc_org a) pr_total
                      /\ org_count (acc_org a) issues_opened = 0
                      /\ org_count (acc_org a) issues_closed = 0)).
  { apply yields_lift. intros a1 H1.
    destruct (count_prs_counts _ _ _ _ H1) as [Hle Hkeep]; [done|].
    rewrite (Hkeep issues_opened), (Hkeep issues_closed) by done.
    simpl in *. unfold zero in *. split; [lia|done]. }
  intros a1 (Hpr & Hio & Hic).
  eapply yields_bind; [apply yields_any|]. intros issues_data _.
  eapply (yields_bind _ _ C).
  { apply yields_lift. intros a2 H2.
    destruct (count_issues_counts _ _ _ _ H2) as [Hle Hkeep]; [done|].
    split; [rewrite (Hkeep pr_merged), (Hkeep pr_open), (Hkeep pr_total) by done;
            exact Hpr | lia]. }
  intros a2 H2.
  eapply yields_bind; [apply yields_any|]. intros repo_list _.
  eapply (yields_bind _ _ C).
  { apply yields_for_each; [|exact H2].
    intros batch a3 H3. by apply coherent_count_batch. }
  intros a3 H3.
  eapply yields_bind; [apply yields_any|]. intros review_data _.
  eapply (yields_bind _ _ C).
  { apply yields_lift. intros a4. by apply coherent_count_reviews. }
  intros a4 H4.
  eapply yields_bind; [apply yields_any|]. intros comments_data_issues _.
  eapply yields_bind; [apply yields_any|]. intros _ _.
  eapply yields_bind; [apply yields_any|]. intros comments_data_prs _.
  eapply (yields_bind _ _ C).
  { apply yields_lift. intros a5. by apply coherent_count_comments. }
  intros a5 H5.
  eapply yields_bind; [apply yields_any|]. intros n _.
  apply yields_ret. intros o. rewrite org_entry_stored.
  case_bool_decide; [exact H5 | apply Hall].
Qed.

Lemma process_orgs_coherent fuel username orgs :
  forall done st,
    aggregated done st ->
    (forall o, coherent (org_count (org_entry st o))) ->
    yields (for_each_M (process_org fuel username) orgs st)
           (fun st' => aggregated (done ++ orgs) st'
                       /\ forall o, coherent (org_count (org_entry st' o))).
Proof.
  induction orgs as [|org orgs IH]; intros done st Hagg Hall; simpl.
  - rewrite app_nil_r. by apply yields_ret.
  - eapply (yields_bind _ _
              (fun st' => aggregated (done ++ [org]) st'
                          /\ forall o, coherent (org_count (org_entry st' o)))).
    + intros s st1 s1 Hrun.
      pose proof (process_org_aggregates fuel username org done st Hagg s st1 s1 Hrun)
        as Hagg1.
      split; [exact Hagg1|].
      assert (Hnew : org ∉ done).
      { intros Hin. pose proof (agg_nodup _ _ Hagg1) as Hnodup.
        apply NoDup_app in Hnodup as (_ & Hdisj & _).
        apply (Hdisj org Hin). by apply list_elem_of_singleton. }
      eapply (process_org_coherent fuel username org st); [|exact Hall|exact Hrun].
      by apply (agg_fresh _ _ Hagg).
    + intros st1 [Hagg1 Hall1].
      replace (done ++ org :: orgs)%list with ((done ++ [org]) ++ orgs)%list
        by (by rewrite <- app_assoc).
      by apply IH.
Qed.

Lemma sum_coherent {A} (f g h : A -> nat) (l : list A) :
  (forall x, f x + g x <= h x) ->
  sum_list_with f l + sum_list_with g l <= sum_list_with h l.
Proof.
  intros H. induction l as [|x l IH]; simpl; [lia|]. specialize (H x). lia.
Qed.

(** X10: the counters of a record make sense together.  In every record
    [get_user_stats] returns, the merged and the open pull requests
    together are no more than the pull requests, and the closed issues are
    no more than the issues opened: overall, and for every organization
    whose prefix no other organization of the list shares. *)
Theorem record_counters_are_coherent (fuel : nat) (username : string) (s s' : state)
    (rec : user_record) :
  get_user_stats fuel username s = (Ok rec, s') ->
  (exists c : counts,
      coherent c
      /\ forall m, dict_get (metric_key m) (rec_fields rec) = Some (c m))
  /\ (forall org,
        org ∈ organizations s ->
        (forall org', org' ∈ organizations s ->
                      org_prefix org' = org_prefix org -> org' = org) ->
        exists c : counts,
          coherent c
          /\ forall m, dict_get (org_prefix org +:+ metric_key m) (rec_fields rec)
                       = Some (c m)).
Proof.
  unfold get_user_stats. unfold bind at 1. unfold try_except.
  destruct (collect_stats fuel username s) as [[st|e|] s1] eqn:Hcollect; [|done|done].
  pose proof (keeps_collect_stats calm update_rate_limit_info_calm
                wait_for_rate_limit_calm paginated_request_calm fuel username s) as Hcalm.
  rewrite Hcollect in Hcalm. simpl in Hcalm.
  unfold bind at 1. simpl. unfold bind at 1. simpl.
  intros [= <- <-]. rewrite (calm_organizations _ _ Hcalm).
  assert (Hst : aggregated (organizations s) st
                /\ forall o, coherent (org_count (org_entry st o))).
  { unfold collect_stats in Hcollect. unfold bind at 1 in Hcollect. simpl in Hcollect.
    eapply (process_orgs_coherent fuel username (organizations s) []);
      [apply initial_stats_aggregated| |exact Hcollect].
    intros o. rewrite initial_stats_fresh. split; simpl; unfold zero; lia. }
  destruct Hst as [[_ Htotal _ _ _] Hall].
  split.
  - exists (total st). split.
    + split.
      * rewrite !Htotal.
        apply (sum_coherent _ _ _ _ (fun o => proj1 (Hall o))).
      * rewrite !Htotal. clear -Hall.
        induction (organizations s) as [|o l IH]; simpl; [lia|].
        pose proof (proj2 (Hall o)). lia.
    + intros m. simpl. rewrite flatten_orgs_other.
      * by destruct m.
      * intros org k' _ Hk'. unfold org_prefix.
        apply prefixed_key_top; [done | apply metric_key_item].
  - intros org Horg Hinj. exists (org_count (org_entry st org)). split; [apply Hall|].
    intros m. simpl.
    apply (flatten_orgs_own (per_org st) org (metric_key m, org_count (org_entry st org) m));
      [done|done|]. apply org_items_metric.
Qed.

(** X11: the aggregator reports, it does not decide.  Whatever happens
    in [get_user_stats], the completed set, the progress file, the results
    file and the configuration are as before; the call adds exactly one
    line to the log: the completion, together with a record that carries
    the user's name, or the error, which it raises again unchanged. *)
Theorem aggregator_leaves_the_checkpoint_alone (fuel : nat) (username : string)
    (s : state) :
  let out := get_user_stats fuel username s in
  completed_users (snd out) = completed_users s
  /\ progress_file (snd out) = progress_file s
  /\ results_file (snd out) = results_file s
  /\ checkpoint_writes (trace (snd out)) = checkpoint_writes (trace s)
  /\ organizations (snd out) = organizations s
  /\ time_filter (snd out) = time_filter s
  /\ (forall rec, fst out = Ok rec ->
        rec_username rec = username
        /\ log (snd out) = LogStatsCompleted username :: log s)
  /\ (forall e, fst out = Raise e ->
        log (snd out) = LogStatsError username (str_exn e) :: log s).
Proof.
  intros out. subst out.
  pose proof (get_user_stats_calm fuel username s) as [H1 H2 H3 H4 H5 H6 H7].
  pose proof (get_user_stats_effect fuel username s) as Heff.
  destruct (get_user_stats fuel username s) as [[rec|e|] s1]; simpl in *.
  - destruct Heff as [Hname Hlog].
    split_and!; try done. by intros ? [= <-].
  - split_and!; try done. by intros ? [= <-].
  - split_and!; done.
Qed.

(** ** The orchestrator and the checkpoint *)

Lemma phrase_in_quota_error text :
  rate_limit_message (ApiRequestFailed 403 text)
  = Str.contains "API rate limit exceeded" text.
Proof.
  unfold rate_limit_message.
  change (str_exn (ApiRequestFailed 403 text))
    with ("API request failed: 403 - " +:+ text).
  generalize text. intros t. vm_compute. reflexivity.
Qed.

(** X12: which quota failures the orchestrator retries.  The fetcher
    takes a 403 response for the quota signal when its body holds
    [rate limit exceeded] in any case of letters, and when the reset time
    has passed it fails with the error that reads
    [API request failed: 403 - <body>].  The orchestrator, at the first
    attempt at a user that ends in this error, looks for
    [API rate limit exceeded] in the text of the error, in exactly this
    case of letters: when the body of the response holds it, the handler
    refreshes the quota, waits and runs the retry; when the body does not
    hold it, the user is skipped after the one attempt, although the
    failure was a quota failure. *)
Theorem quota_error_is_told_by_its_phrase :
  (forall fuel url target acc retry_count s r reset,
      target <> EmptyString ->
      server s (requests_sent s) (clock s) target = Responded r ->
      status_code r = 403%Z ->
      Str.contains "rate limit exceeded" (Str.lower (text r)) = true ->
      let s1 := snd (note_headers r (sent target s)) in
      Py.number (rate_limit_reset s1) = Some reset ->
      (reset - clock s1 + 5 <= 0)%Z ->
      fetch_pages (S fuel) url (Some target) acc retry_count s
      = (Raise (ApiRequestFailed 403 (text r)), snd (update_rate_limit_info s1)))
  /\ (forall fuel username results s s1 s2 text,
        wait_for_rate_limit
          (snd (update_rate_limit_info (logged (LogAnalyzing username) s))) = (Ok tt, s1) ->
        get_user_stats fuel username s1 = (Raise (ApiRequestFailed 403 text), s2) ->
        let told := LogErrorAnalyzing username ("API request failed: 403 - " +:+ text) in
        (Str.contains "API rate limit exceeded" text = false ->
           analyze_user fuel username results s = (Ok results, logged told s2)
           /\ attempts username (log s2) = attempts username (log s) + 1)
        /\ (Str.contains "API rate limit exceeded" text = true ->
              analyze_user fuel username results s
              = (update_rate_limit_info ;;
                 wait_for_rate_limit ;;
                 retry_user fuel username results)
                  (logged LogRateLimitExceeded (logged told s2)))).
Proof.
  split.
  - intros fuel url target acc retry_count s r reset Htarget Hsrv Hstatus Hphrase s1
      Hreset Hwait.
    assert (Hquota : quota_exceeded r = true)
      by (unfold quota_exceeded; by rewrite Hstatus, Hphrase).
    rewrite fetch_pages_unfold, url_truthy_some by done.
    unfold bind at 1. unfold try_except.
    rewrite (request_page_quota _ _ _ _ r reset Hsrv Hquota Hreset). fold s1.
    by replace (0 <? reset - clock s1 + 5)%Z with false by (symmetry; apply Z.ltb_ge; lia).
  - intros fuel username results s s1 s2 text Hcheck Hfirst told.
    assert (Hunfold : analyze_user fuel username results s
                      = on_user_error fuel username results (ApiRequestFailed 403 text) s2).
    { by rewrite analyze_user_unfold, first_attempt_unfold, Hcheck, Hfirst. }
    split.
    + intros Hno. split.
      * rewrite Hunfold, on_user_error_unfold, phrase_in_quota_error, Hno. reflexivity.
      * pose proof (get_user_stats_effect fuel username s1) as Heff.
        rewrite Hfirst in Heff. rewrite Heff, (refreshed_passed _ _ Hcheck), refreshed_log.
        unfold attempts. simpl. rewrite bool_decide_eq_true_2 by done. simpl. lia.
    + intros Hyes. rewrite Hunfold. unfold on_user_error.
      rewrite phrase_in_quota_error, Hyes. reflexivity.
Qed.

(** What one turn of the loop over the pending users does to the result
    list, the completed set and the two files; the one error that leaves
    it is the type error of the quota check in the handler. *)
Lemma analyze_user_outcome fuel u results s :
  let out := analyze_user fuel u results s in
  (synced s -> synced (snd out))
  /\ results_file (snd out) = results_file s
  /\ (forall e, fst out = Raise e -> quota_type_error e)
  /\ (forall results', fst out = Ok results' ->
        (results' = results /\ completed_users (snd out) = completed_users s)
        \/ (exists rec, results' = (results ++ [rec])%list /\ rec_username rec = u
                        /\ completed_users (snd out) = {[u]} ∪ completed_users s))
  /\ completed_users s ⊆ completed_users (snd out)
  /\ completed_users (snd out) ⊆ completed_users s ∪ {[u]}.
Proof.
  intros out. subst out. rewrite analyze_user_unfold.
  pose proof (first_attempt_effect fuel u (logged (LogAnalyzing u) s)) as Heff.
  pose proof (first_attempt_calm fuel u (logged (LogAnalyzing u) s)) as Hc1.
  destruct (first_attempt fuel u _) as [[rec|e|] s1]; simpl in Heff, Hc1.
  - (* success at the first attempt *)
    destruct Heff as [Hname _].
    destruct Hc1 as [_ _ Hcompleted _ Hprogress Hresults _]. simpl in *.
    unfold completed_in, synced. simpl. rewrite Hcompleted, Hresults.
    split_and!; try done.
    + intros _. by rewrite list_to_set_elements_L.
    + intros results' [= <-]. right. by exists rec.
    + clear. set_solver.
    + clear. set_solver.
  - (* the first attempt raised *)
    clear Heff. rewrite on_user_error_unfold.
    destruct (rate_limit_message e).
    + set (s2' := logged LogRateLimitExceeded (logged (LogErrorAnalyzing u (str_exn e)) s1)).
      assert (Hc2 : calm s (refreshed s2')).
      { transitivity (logged (LogAnalyzing u) s); [apply calm_logged|].
        transitivity s1; [exact Hc1|]. transitivity s2'; [|apply refreshed_calm].
        subst s2'. etrans; apply calm_logged. }
      unfold refreshed in Hc2.
      destruct (wait_for_rate_limit (snd (update_rate_limit_info s2')))
        as [[[]|e'|] s2] eqn:Hwait; simpl in Hc2.
      * rewrite retry_user_unfold.
        pose proof (get_user_stats_effect fuel u (logged (LogRetrying u) s2)) as Heff3.
        pose proof (get_user_stats_calm fuel u (logged (LogRetrying u) s2)) as Hcalm3.
        assert (Hc3 : calm s (snd (get_user_stats fuel u (logged (LogRetrying u) s2)))).
        { transitivity s2; [exact Hc2|].
          transitivity (logged (LogRetrying u) s2); [apply calm_logged | exact Hcalm3]. }
        clear Hcalm3.
        destruct (get_user_stats fuel u _) as [[rec|e2|] s3]; simpl in Heff3, Hc3;
          destruct Hc3 as [_ _ Hcompleted _ Hprogress Hresults _].
        -- destruct Heff3 as [Hname _].
           unfold completed_in, synced. simpl. rewrite Hcompleted, Hresults.
           split_and!; try done.
           ++ intros _. by rewrite list_to_set_elements_L.
           ++ intros results' [= <-]. right. by exists rec.
           ++ clear. set_solver.
           ++ clear. set_solver.
        -- unfold synced. simpl. rewrite Hcompleted, Hresults.
           split_and!; try done.
           ++ intros _. by rewrite list_to_set_elements_L.
           ++ intros results' [= <-]. by left.
           ++ clear. set_solver.
        -- unfold synced. simpl. rewrite Hcompleted, Hresults, Hprogress.
           split_and!; try done. clear. set_solver.
      * destruct (refreshed_raised _ _ _ Hwait) as (_ & He' & _).
        destruct Hc2 as [_ _ Hcompleted _ Hprogress Hresults _].
        unfold synced. simpl. rewrite Hcompleted, Hresults, Hprogress.
        split_and!; try done; [by intros ? [= <-] | clear; set_solver].
      * destruct Hc2 as [_ _ Hcompleted _ Hprogress Hresults _].
        unfold synced. simpl. rewrite Hcompleted, Hresults, Hprogress.
        split_and!; try done. clear. set_solver.
    + assert (Hc : calm s s1)
        by (transitivity (logged (LogAnalyzing u) s); [apply calm_logged | exact Hc1]).
      destruct Hc as [_ _ Hcompleted _ Hprogress Hresults _].
      unfold synced. simpl. rewrite Hcompleted, Hresults, Hprogress.
      split_and!; try done.
      * intros results' [= <-]. by left.
      * clear. set_solver.
  - assert (Hc : calm s s1)
      by (transitivity (logged (LogAnalyzing u) s); [apply calm_logged | exact Hc1]).
    destruct Hc as [_ _ Hcompleted _ Hprogress Hresults _].
    unfold synced. simpl. rewrite Hcompleted, Hresults, Hprogress.
    split_and!; try done. clear. set_solver.
Qed.

(** The loop over the pending users. *)
Lemma analyze_loop_outcome fuel pending :
  forall results0 s,
    let out := for_each_M (analyze_user fuel) pending results0 s in
    (synced s -> synced (snd out))
    /\ results_file (snd out) = results_file s
    /\ (forall e, fst out = Raise e -> quota_type_error e)
    /\ completed_users s ⊆ completed_users (snd out)
    /\ completed_users (snd out) ⊆ completed_users s ∪ list_to_set pending
    /\ (forall results, fst out = Ok results ->
          exists added,
            results = (results0 ++ added)%list
            /\ map rec_username added `sublist_of` pending
            /\ forall r, r ∈ added -> rec_username r ∈ completed_users (snd out)).
Proof.
  induction pending as [|u pending IH]; intros results0 s; simpl.
  - split_and!; try done; [set_solver|].
    intros results [= <-]. exists []. rewrite app_nil_r.
    split; [done|]. split; [done|]. by intros r ?%elem_of_nil.
  - unfold bind at 1 2 3 4 5 6 7.
    destruct (analyze_user_outcome fuel u results0 s)
      as (Hsync & Hfile & Hraise & Hres & Hgrow & Hbound1).
    destruct (analyze_user fuel u results0 s) as [[results1|e|] s1]; simpl in *.
    + destruct (IH results1 s1) as (Hsync2 & Hfile2 & Hraise2 & Hgrow2 & Hbound2 & Hres2).
      split_and!; try done.
      * auto.
      * congruence.
      * clear -Hgrow Hgrow2. set_solver.
      * clear -Hbound1 Hbound2. set_solver.
      * intros results Hok. destruct (Hres2 results Hok) as (added & -> & Hsub & Hin).
        destruct (Hres results1 eq_refl) as [[-> _]|(rec & -> & Hname & Hc)].
        -- exists added. split; [done|]. split; [by apply sublist_cons|done].
        -- exists (rec :: added). split; [by rewrite <- app_assoc|]. split.
           ++ simpl. rewrite Hname. by apply sublist_skip.
           ++ intros r [->|Hr]%elem_of_cons; [|by apply Hin].
              apply Hgrow2. rewrite Hc, Hname. clear. set_solver.
    + split_and!; try done. clear -Hbound1. set_solver.
    + split_and!; try done. clear -Hbound1. set_solver.
Qed.

(** *** Taking over cached records *)

Lemma merge_cached_spec completed cached :
  forall results,
    exists added,
      merge_cached completed cached results = (results ++ added)%list
      /\ added `sublist_of` cached
      /\ (forall r, r ∈ added -> rec_username r ∈ completed
                                 /\ rec_username r ∉ map rec_username results)
      /\ NoDup (map rec_username added)
      /\ (forall r, r ∈ cached -> rec_username r ∈ completed ->
                    rec_username r ∈ map rec_username (results ++ added)).
Proof.
  induction cached as [|c cached IH]; intros results; simpl.
  - exists []. rewrite app_nil_r. split_and!; try done.
    + by intros r ?%elem_of_nil.
    + apply NoDup_nil_2.
    + by intros r ?%elem_of_nil.
  - destruct (bool_decide (rec_username c ∈ completed)) eqn:Hin; simpl.
    + destruct (bool_decide (rec_username c ∈ map rec_username results)) eqn:Hseen; simpl.
      * apply bool_decide_eq_true_1 in Hseen.
        destruct (IH results) as (added & -> & Hsub & Hadded & Hnodup & Hall).
        exists added. split_and!; try done; [by apply sublist_cons|].
        intros r [->|Hr]%elem_of_cons Hc; [|by apply Hall].
        rewrite map_app. set_solver.
      * apply bool_decide_eq_true_1 in Hin. apply bool_decide_eq_false_1 in Hseen.
        destruct (IH (results ++ [c])%list) as (added & -> & Hsub & Hadded & Hnodup & Hall).
        exists (c :: added). split_and!.
        -- by rewrite <- app_assoc.
        -- by apply sublist_skip.
        -- intros r [->|Hr]%elem_of_cons; [done|].
           destruct (Hadded r Hr) as [H1 H2]. split; [done|].
           intros H3. apply H2. rewrite map_app. set_solver.
        -- simpl. apply NoDup_cons. split; [|done].
           intros (r & Heq & Hr)%list_elem_of_fmap.
           destruct (Hadded r Hr) as [_ H2]. apply H2.
           rewrite map_app, <- Heq. set_solver.
        -- intros r [->|Hr]%elem_of_cons Hc.
           ++ rewrite map_app. simpl. set_solver.
           ++ specialize (Hall r Hr Hc). rewrite <- app_assoc in Hall. exact Hall.
    + apply bool_decide_eq_false_1 in Hin.
      destruct (IH results) as (added & -> & Hsub & Hadded & Hnodup & Hall).
      exists added. split_and!; try done; [by apply sublist_cons|].
      intros r [->|Hr]%elem_of_cons Hc; [done|by apply Hall].
Qed.

(** X14: what is taken over from the results file (lines 332-335).  The
    records gathered in this run stay in front, as they are; behind them
    come records of the file, in file order, each of a completed user who
    has no record yet, at most one for each user; and every completed user
    with a record in the file has a record in the merged list. *)
Theorem merge_cached_fills_in_completed_users (completed : gset string)
    (cached results : list user_record) :
  exists added,
    merge_cached completed cached results = (results ++ added)%list
    /\ added `sublist_of` cached
    /\ (forall r, r ∈ added -> rec_username r ∈ completed
                               /\ rec_username r ∉ map rec_username results)
    /\ NoDup (map rec_username added)
    /\ (forall r, r ∈ cached -> rec_username r ∈ completed ->
                  rec_username r ∈ map rec_username (merge_cached completed cached results)).
Proof.
  destruct (merge_cached_spec completed cached results)
    as (added & Heq & Hsub & Hadded & Hnodup & Hall).
  exists added. rewrite Heq. by split_and!.
Qed.

Lemma pending_subset (completed : gset string) (usernames : list string) :
  (list_to_set (filter (fun u => u ∉ completed) usernames) : gset string)
  ⊆ list_to_set usernames.
Proof.
  intros u. rewrite !elem_of_list_to_set, list_elem_of_filter. tauto.
Qed.


(** X15: the checkpoint keeps up with the run.  When the completed set
    and the progress file agree before [analyze_users], they agree after
    it, however the run ends; nobody leaves the completed set; and whoever
    joins it is one of the users the run was asked for. *)
Theorem checkpoint_stays_in_sync (fuel : nat) (usernames : list string) (s : state) :
  synced s ->
  let s' := snd (analyze_users fuel usernames s) in
  synced s'
  /\ completed_users s ⊆ completed_users s'
  /\ completed_users s' ⊆ completed_users s ∪ list_to_set usernames.
Proof.
  intros Hsynced s'. subst s'.
  rewrite analyze_users_unfold. cbv zeta.
  pose proof (pending_subset (completed_users s) usernames) as Hpending.
  set (pending := filter (fun u => u ∉ completed_users s) usernames) in *.
  destruct (analyze_loop_outcome fuel pending [] s)
    as (Hsync & _ & _ & Hgrow & Hbound & _).
  specialize (Hsync Hsynced).
  destruct (for_each_M (analyze_user fuel) pending [] s) as [[results|e|] s1];
    simpl in *; (split; [exact Hsync|]); (split; [exact Hgrow|]);
    clear -Hbound Hpending; set_solver.
Qed.

(** *** The constructor *)

Lemma update_rate_limit_info_counts s :
  requests_sent (snd (update_rate_limit_info s)) = S (requests_sent s)
  /\ clock (snd (update_rate_limit_info s)) = clock s.
Proof.
  split; [|apply update_rate_limit_info_clock].
  unfold update_rate_limit_info, try_except, bind, requests_get.
  destruct (server s _ _ _) as [r|msg]; simpl; [|done].
  destruct (status_code r =? 200)%Z; simpl; [|done].
  destruct (core_field "remaining" (body r)); simpl; [done|].
  destruct (core_field "reset" (body r)); simpl; done.
Qed.

Lemma load_progress_run s :
  load_progress s
  = (Ok tt, match progress_file s with
            | Some users => set_completed (list_to_set users) s
            | None => s
            end).
Proof. unfold load_progress, bind, get. simpl. by destruct (progress_file s). Qed.

(** The time filter the constructor sets (lines 44-47). *)
Lemma constructor_run token orgs months since w s :
  __init__ token orgs months since w = (Ok tt, s) ->
  exists s1 tf,
    s1 = snd (update_rate_limit_info
                (set_reset (JNum 0) (set_remaining (JNum 5000)
                   (set_organizations
                      (match orgs with OrgList names => names | OrgOne name => [name] end)
                      w))))
    /\ match months with
       | Some n => if (n =? 0)%Z then tf = EmptyString
                   else exists date, since n = inr date /\ tf = "+created:>=" +:+ date
       | None => tf = EmptyString
       end
    /\ s = match progress_file s1 with
           | Some users =>
               set_completed (list_to_set users)
                 (set_completed ∅ (set_cache ∅ (set_time_filter tf s1)))
           | None => set_completed ∅ (set_cache ∅ (set_time_filter tf s1))
           end.
Proof.
  unfold __init__. unfold bind at 1. simpl. unfold bind at 1. simpl.
  unfold bind at 1. simpl. unfold bind at 1.
  rewrite update_rate_limit_info_run.
  set (s1 := snd (update_rate_limit_info _)). clearbody s1.
  unfold bind at 1. simpl.
  destruct months as [n|].
  - destruct (n =? 0)%Z eqn:Hn; simpl.
    + unfold bind at 1. simpl. unfold bind at 1. simpl. unfold bind at 1. simpl.
      rewrite load_progress_run. simpl. intros [= <-].
      exists s1, EmptyString. by split_and!.
    + unfold bind at 1. unfold bind at 1.
      destruct (since n) as [e|date]; simpl; [done|].
      unfold bind at 1. simpl. unfold bind at 1. simpl.
      rewrite load_progress_run. simpl. intros [= <-].
      exists s1, ("+created:>=" +:+ date). split_and!; try done. by exists date.
  - unfold bind at 1. simpl. unfold bind at 1. simpl. unfold bind at 1. simpl.
    rewrite load_progress_run. simpl. intros [= <-].
    exists s1, EmptyString. by split_and!.
Qed.

Lemma constructor_state token orgs months since w s :
  __init__ token orgs months since w = (Ok tt, s) ->
  synced s
  /\ cache s = ∅
  /\ organizations s = match orgs with OrgList names => names | OrgOne name => [name] end
  /\ progress_file s = progress_file w
  /\ results_file s = results_file w
  /\ requests_sent s = S (requests_sent w)
  /\ clock s = clock w.
Proof.
  intros Hrun. destruct (constructor_run _ _ _ _ _ _ Hrun) as (s1 & tf & Hs1 & _ & ->).
  set (w0 := set_reset (JNum 0) (set_remaining (JNum 5000) (set_organizations _ w)))
    in Hs1.
  pose proof (update_rate_limit_info_calm w0) as [Horgs _ _ _ Hprogress Hresults _].
  destruct (update_rate_limit_info_counts w0) as (Hsent & Hclock).
  rewrite <- Hs1 in *. simpl in *.
  unfold synced.
  destruct (progress_file s1) as [users|] eqn:Hfile; simpl; rewrite ?Hfile;
    split_and!; try done; congruence.
Qed.

(** X16: what a new analyzer starts from.  When the constructor
    returns, the cache is empty, the completed set is exactly what the
    progress file lists (nobody, without a file), the organizations are the
    list that was given, or the one name as a list, both files are as the
    constructor found them, and one request has been sent: the quota check.
    A time filter is set if and only if a period other than zero months was
    given. *)
Theorem constructor_loads_the_checkpoint (token : string) (orgs : organizations_arg)
    (months : option Z) (since : Z -> exn + string) (w s : state) :
  __init__ token orgs months since w = (Ok tt, s) ->
  synced s
  /\ completed_users s = match progress_file w with
                         | Some users => list_to_set users
                         | None => ∅
                         end
  /\ cache s = ∅
  /\ organizations s = match orgs with OrgList names => names | OrgOne name => [name] end
  /\ progress_file s = progress_file w
  /\ results_file s = results_file w
  /\ requests_sent s = S (requests_sent w)
  /\ (time_filter s = EmptyString <-> months = None \/ months = Some 0%Z).
Proof.
  intros Hrun.
  destruct (constructor_state _ _ _ _ _ _ Hrun)
    as (Hsynced & Hcache & Horgs & Hprogress & Hresults & Hsent & _).
  split_and!; try done.
  - unfold synced in Hsynced. by rewrite Hsynced, Hprogress.
  - destruct (constructor_run _ _ _ _ _ _ Hrun) as (s1 & tf & _ & Htf & ->).
    assert (Hfilter : time_filter
                        (match progress_file s1 with
                         | Some users =>
                             set_completed (list_to_set users)
                               (set_completed ∅ (set_cache ∅ (set_time_filter tf s1)))
                         | None => set_completed ∅ (set_cache ∅ (set_time_filter tf s1))
                         end) = tf) by (by destruct (progress_file s1)).
    rewrite Hfilter. clear Hfilter.
    destruct months as [n|].
    + destruct (n =? 0)%Z eqn:Hn.
      * apply Z.eqb_eq in Hn. subst. split; auto.
      * apply Z.eqb_neq in Hn. destruct Htf as (date & _ & ->).
        split; [done|]. intros [?|[= ?]]; done.
    + subst. split; auto.
Qed.

(** *** Running the tool again *)

Lemma filter_none {A} (P : A -> Prop) `{!forall x, Decision (P x)} (l : list A) :
  (forall x, x ∈ l -> ~ P x) -> filter P l = [].
Proof.
  induction l as [|x l IH]; intros Hnone; [done|].
  rewrite filter_cons_False by (apply Hnone; by left).
  apply IH. intros y Hy. apply Hnone. by right.
Qed.

Lemma merge_cached_all completed cached :
  forall results,
    NoDup (map rec_username cached) ->
    (forall r, r ∈ cached -> rec_username r ∈ completed
                             /\ rec_username r ∉ map rec_username results) ->
    merge_cached completed cached results = (results ++ cached)%list.
Proof.
  induction cached as [|c cached IH]; intros results Hnodup Hall; simpl.
  - by rewrite app_nil_r.
  - simpl in Hnodup. apply NoDup_cons in Hnodup as [Hc Hnodup].
    destruct (Hall c) as [Hin Hnew]; [by left|].
    rewrite (bool_decide_eq_true_2 _ Hin), (bool_decide_eq_false_2 _ Hnew). simpl.
    rewrite IH; [by rewrite <- app_assoc|done|].
    intros r Hr. destruct (Hall r) as [H1 H2]; [by right|]. split; [done|].
    rewrite map_app. simpl. rewrite elem_of_app, list_elem_of_singleton.
    intros [H3|H3]; [done|]. apply Hc. rewrite <- H3.
    apply list_elem_of_fmap. by exists r.
Qed.

(** The result list of a run over distinct user names. *)
Lemma analyze_users_results fuel usernames s results s' :
  analyze_users fuel usernames s = (Ok results, s') ->
  results_file s' = Some results
  /\ (NoDup usernames -> NoDup (map rec_username results))
  /\ (forall r, r ∈ results -> rec_username r ∈ completed_users s')
  /\ (synced s -> synced s').
Proof.
  rewrite analyze_users_unfold. cbv zeta.
  set (pending := filter (fun u => u ∉ completed_users s) usernames).
  destruct (analyze_loop_outcome fuel pending [] s)
    as (Hsync & _ & _ & _ & _ & Hres).
  destruct (for_each_M (analyze_user fuel) pending [] s) as [[results1|e|] s1];
    simpl in *; [|done|done].
  destruct (Hres results1 eq_refl) as (added & -> & Hsub & Hin). clear Hres.
  intros [= <- <-]. simpl.
  split; [done|].
  assert (Hnodup1 : NoDup usernames -> NoDup (map rec_username added)).
  { intros Hnodup. eapply sublist_NoDup; [|exact Hsub].
    by apply NoDup_filter. }
  destruct (bool_decide (completed_users s1 ∖ list_to_set pending ≠ ∅));
    [destruct (results_file s1) as [cached|]|]; try (by split_and!).
  destruct (merge_cached_spec (completed_users s1) cached added)
    as (added2 & -> & _ & Hadded2 & Hnodup2 & _).
  split_and!; [| |exact Hsync].
  - intros Hnodup. rewrite map_app. apply NoDup_app. split; [by apply Hnodup1|].
    split; [|done].
    intros u Hu (r & -> & Hr)%list_elem_of_fmap. by destruct (Hadded2 r Hr).
  - intros r [Hr|Hr]%elem_of_app; [by apply Hin | by destruct (Hadded2 r Hr)].
Qed.

(** X17: running the tool again.  Take a run of [analyze_users] over
    distinct user names after which all of them are completed, and a later
    process that finds the progress file and the results file as that run
    left them.  The new analyzer starts with the same completed set; its
    [analyze_users] over the same names analyzes nobody, sends no request,
    needs no fuel, and returns the very list of records the first run
    returned, which it writes to the results file again. *)
Theorem rerun_reproduces_the_results (fuel fuel2 : nat) (usernames : list string)
    (s s' : state) (results : list user_record)
    (token : string) (orgs : organizations_arg) (months : option Z)
    (since : Z -> exn + string) (w s2 : state) :
  analyze_users fuel usernames s = (Ok results, s') ->
  synced s ->
  NoDup usernames ->
  (forall u, u ∈ usernames -> u ∈ completed_users s') ->
  progress_file w = progress_file s' ->
  results_file w = results_file s' ->
  __init__ token orgs months since w = (Ok tt, s2) ->
  completed_users s2 = completed_users s'
  /\ analyze_users fuel2 usernames s2 = (Ok results, results_written results s2).
Proof.
  intros Hrun Hsynced Hnodup Hall Hprogress Hresults Hinit.
  destruct (analyze_users_results _ _ _ _ _ Hrun) as (Hfile & Hnames & Hin & Hsync').
  specialize (Hnames Hnodup). specialize (Hsync' Hsynced).
  destruct (constructor_state _ _ _ _ _ _ Hinit)
    as (Hsynced2 & _ & _ & Hprogress2 & Hresults2 & _ & _).
  assert (Hcompleted : completed_users s2 = completed_users s').
  { unfold synced in *. by rewrite Hsynced2, Hsync', Hprogress2, Hprogress. }
  split; [exact Hcompleted|].
  rewrite analyze_users_unfold. cbv zeta.
  rewrite (filter_none _ usernames)
    by (intros u Hu Hnot; apply Hnot; rewrite Hcompleted; by apply Hall).
  simpl. rewrite Hresults2, Hresults, Hfile.
  case_bool_decide as Hne.
  - rewrite merge_cached_all; [done|done|].
    intros r Hr. split; [rewrite Hcompleted; by apply Hin | by intros ?%elem_of_nil].
  - assert (Hempty : completed_users s' = ∅).
    { rewrite <- Hcompleted. clear -Hne.
      set_solver. }
    destruct results as [|r results]; [done|].
    exfalso. specialize (Hin r ltac:(by left)). rewrite Hempty in Hin.
    by apply not_elem_of_empty in Hin.
Qed.

(** ** The user names of [main] *)

Lemma lstrip_shorter s :
  Text.lstrip s = s \/ String.length (Text.lstrip s) < String.length s.
Proof.
  induction s as [|c s IH]; simpl; [by left|].
  destruct (Text.is_space c); [|by left]. right. destruct IH as [->|IH]; lia.
Qed.

Lemma rstrip_length s : String.length (Text.rstrip s) <= String.length s.
Proof.
  induction s as [|c s IH]; simpl; [done|].
  destruct (Text.rstrip s); [destruct (Text.is_space c)|]; simpl in *; lia.
Qed.

Lemma rstrip_idem s : Text.rstrip (Text.rstrip s) = Text.rstrip s.
Proof.
  induction s as [|c s IH]; simpl; [done|].
  destruct (Text.rstrip s) as [|c' t] eqn:E.
  - destruct (Text.is_space c) eqn:Ec; simpl; [done | by rewrite Ec].
  - change (Text.rstrip (String c (String c' t))) with
      (match Text.rstrip (String c' t) with
       | EmptyString => if Text.is_space c then EmptyString else String c EmptyString
       | u => String c u
       end).
    by rewrite IH.
Qed.

(** A string without white space in front. *)
Lemma lstrip_head c s : Text.is_space c = false -> Text.lstrip (String c s) = String c s.
Proof. intros H. simpl. by rewrite H. Qed.

Lemma lstrip_lstrip s : Text.lstrip (Text.lstrip s) = Text.lstrip s.
Proof.
  induction s as [|c s IH]; simpl; [done|].
  destruct (Text.is_space c) eqn:E; [done|]. simpl. by rewrite E.
Qed.

Lemma rstrip_head c s :
  Text.rstrip (String c s) = EmptyString
  \/ exists t, Text.rstrip (String c s) = String c t.
Proof.
  simpl. destruct (Text.rstrip s); [destruct (Text.is_space c)|]; eauto.
Qed.

Lemma lstrip_rstrip s : Text.lstrip s = s -> Text.lstrip (Text.rstrip s) = Text.rstrip s.
Proof.
  destruct s as [|c s]; [done|].
  intros Hl. assert (Hc : Text.is_space c = false).
  { simpl in Hl. destruct (Text.is_space c) eqn:E; [|done].
    exfalso. pose proof (lstrip_shorter s) as Hs. rewrite Hl in Hs. simpl in Hs.
    destruct Hs as [Hs|Hs]; [|lia].
    apply (f_equal String.length) in Hs. simpl in Hs. lia. }
  destruct (rstrip_head c s) as [->|[t ->]]; [done|]. by apply lstrip_head.
Qed.

Lemma strip_idem s : Text.strip (Text.strip s) = Text.strip s.
Proof.
  unfold Text.strip.
  rewrite (lstrip_rstrip (Text.lstrip s)) by apply lstrip_lstrip.
  apply rstrip_idem.
Qed.

Lemma stripped_both u :
  Text.strip u = u -> Text.lstrip u = u /\ Text.rstrip u = u.
Proof.
  intros Hu. unfold Text.strip in Hu.
  assert (Hl : Text.lstrip u = u).
  { destruct (lstrip_shorter u) as [H|H]; [done|]. exfalso.
    pose proof (rstrip_length (Text.lstrip u)) as Hr. rewrite Hu in Hr. lia. }
  split; [done|]. by rewrite Hl in Hu.
Qed.

Lemma rstrip_space s c :
  Text.is_space c = true -> Text.rstrip (s +:+ String c EmptyString) = Text.rstrip s.
Proof.
  intros Hc. induction s as [|a s IH].
  - simpl. by rewrite Hc.
  - change (String a s +:+ String c EmptyString)
      with (String a (s +:+ String c EmptyString)).
    simpl. by rewrite IH.
Qed.

Lemma lstrip_app u t : Text.lstrip u = u -> u <> EmptyString -> Text.lstrip (u +:+ t) = u +:+ t.
Proof.
  destruct u as [|c u]; [done|]. intros Hl _.
  change (String c u +:+ t) with (String c (u +:+ t)).
  apply lstrip_head. simpl in Hl. destruct (Text.is_space c) eqn:E; [|done].
  exfalso. pose proof (lstrip_shorter u) as Hs. rewrite Hl in Hs. simpl in Hs.
  destruct Hs as [Hs|Hs]; [|lia].
  apply (f_equal String.length) in Hs. simpl in Hs. lia.
Qed.

Lemma strip_line u :
  Text.strip u = u -> u <> EmptyString ->
  Text.strip (u +:+ String Text.LF EmptyString) = u.
Proof.
  intros Hu Hne. destruct (stripped_both u Hu) as [Hl Hr].
  unfold Text.strip. rewrite lstrip_app by done.
  by rewrite rstrip_space.
Qed.

Lemma index_app_none c a b :
  Str.index c (a +:+ b) = None <-> Str.index c a = None /\ Str.index c b = None.
Proof.
  induction a as [|x a IH].
  - simpl. change (EmptyString +:+ b) with b. tauto.
  - change (String x a +:+ b) with (String x (a +:+ b)). simpl.
    case_bool_decide; [naive_solver|].
    destruct (Str.index c (a +:+ b)), (Str.index c a), (Str.index c b);
      simpl in *; naive_solver.
Qed.

Lemma universal_newlines_id s : Str.index Text.CR s = None -> Text.universal_newlines s = s.
Proof.
  induction s as [|c s IH]; simpl; [done|].
  case_bool_decide; [done|]. intros Hs. f_equal. apply IH.
  by destruct (Str.index Text.CR s).
Qed.

Lemma lines_line l rest :
  Str.index Text.LF l = None ->
  Text.lines (l +:+ String Text.LF rest) = (l +:+ String Text.LF EmptyString) :: Text.lines rest.
Proof.
  induction l as [|c l IH]; intros Hl.
  - change (EmptyString +:+ String Text.LF rest) with (String Text.LF rest).
    cbn [Text.lines]. by rewrite bool_decide_eq_true_2.
  - change (String c l +:+ String Text.LF rest) with (String c (l +:+ String Text.LF rest)).
    cbn [Text.lines Str.index] in Hl |- *. case_bool_decide; [done|].
    rewrite IH by (by destruct (Str.index Text.LF l)). done.
Qed.

Lemma starts_with_hash_app u t :
  u <> EmptyString -> Str.starts_with "#" (u +:+ t) = Str.starts_with "#" u.
Proof. by destruct u. Qed.

Lemma app_singleton_assoc u c rest :
  (u +:+ String c EmptyString) +:+ rest = u +:+ String c rest.
Proof. by rewrite string_app_assoc. Qed.

(** X18: the user names file gives back what was written to it.  The
    text [main] writes for a list of user names (lines 657-660) is read
    back by the next run (lines 640-641) as the same list, in the same
    order, when every name is free of surrounding white space, not empty,
    does not begin with [#] and holds no line break.  The header line is
    skipped as a comment. *)
Theorem usernames_file_round_trip (usernames : list string) :
  Forall file_safe usernames ->
  usernames_from_file (usernames_file_text usernames) = usernames.
Proof.
  intros Hall. unfold usernames_from_file, usernames_file_text.
  set (body := foldr (fun username rest => username +:+ String Text.LF rest)
                     EmptyString usernames).
  assert (Hcr : Str.index Text.CR body = None).
  { subst body. induction Hall as [|u us (_ & _ & _ & _ & Hu) _ IH]; [done|].
    simpl. apply index_app_none. split; [done|]. simpl.
    rewrite ?bool_decide_eq_false_2 by done. by rewrite IH. }
  rewrite universal_newlines_id.
  2:{ apply index_app_none. split; [by vm_compute|]. simpl.
      rewrite ?bool_decide_eq_false_2 by done. by rewrite Hcr. }
  rewrite lines_line by (by vm_compute).
  cbn [List.filter]. 
  replace (Str.starts_with "#"
             ("# GitHub usernames for contribution analysis" +:+ String Text.LF EmptyString))
    with true by (by vm_compute).
  rewrite andb_false_r. clear Hcr. subst body.
  induction Hall as [|u us (Hstrip & Hne & Hhash & Hlf & _) _ IH]; [done|].
  cbn [foldr]. rewrite lines_line by done. cbn [List.filter].
  rewrite strip_line by done.
  rewrite starts_with_hash_app, Hhash by done.
  rewrite bool_decide_eq_false_2 by done. cbn [negb andb map].
  rewrite strip_line by done. by rewrite IH.
Qed.

Lemma split_parts sep s : Forall (fun part => Str.index sep part = None) (Str.split sep s).
Proof.
  induction s as [|c s IH]; simpl; [by constructor|].
  case_bool_decide as Hc; [by constructor|].
  destruct (Str.split sep s) as [|w ws]; [by constructor; [simpl; rewrite bool_decide_eq_false_2|]|].
  apply Forall_cons in IH as [Hw Hws]. constructor; [|done].
  simpl. rewrite bool_decide_eq_false_2 by done. by rewrite Hw.
Qed.

Lemma split_nonempty sep s : Str.split sep s <> [].
Proof.
  destruct s as [|c s]; simpl; [done|].
  case_bool_decide; [done|]. by destruct (Str.split sep s).
Qed.

Lemma lstrip_index c s : Str.index c s = None -> Str.index c (Text.lstrip s) = None.
Proof.
  induction s as [|a s IH]; simpl; [done|].
  case_bool_decide; [done|]. intros Hs.
  destruct (Text.is_space a).
  - apply IH. by destruct (Str.index c s).
  - simpl. by rewrite bool_decide_eq_false_2.
Qed.

Lemma rstrip_index c s : Str.index c s = None -> Str.index c (Text.rstrip s) = None.
Proof.
  induction s as [|a s IH]; simpl; [done|].
  case_bool_decide as Ha; [done|]. intros Hs.
  assert (Hrest : Str.index c (Text.rstrip s) = None)
    by (apply IH; by destruct (Str.index c s)).
  destruct (Text.rstrip s) as [|b t].
  - destruct (Text.is_space a); simpl; [done|]. by rewrite bool_decide_eq_false_2.
  - simpl in *. rewrite bool_decide_eq_false_2 by done.
    by destruct (bool_decide (b = c)), (Str.index c t).
Qed.

Lemma strip_index c s : Str.index c s = None -> Str.index c (Text.strip s) = None.
Proof. intros H. unfold Text.strip. by apply rstrip_index, lstrip_index. Qed.

(** X19: the names [main] works with are trimmed.  Every user name it
    takes from [GITHUB_USERNAMES] or from the user names file is non-empty
    and free of surrounding white space (and of commas, from the
    environment): empty entries and blank lines are dropped.  The
    organizations from [GITHUB_ORGANIZATIONS] are trimmed in the same way
    but not filtered: the list is never empty, and an empty entry stays in
    it as an organization with the empty name. *)
Theorem names_of_main_are_trimmed (value : string) :
  Forall (fun u => u <> EmptyString /\ Text.strip u = u /\ Str.index "," u = None)
         (usernames_from_env value)
  /\ Forall (fun u => u <> EmptyString /\ Text.strip u = u) (usernames_from_file value)
  /\ organizations_from_env value <> []
  /\ length (organizations_from_env value) = length (Str.split "," value)
  /\ Forall (fun o => Text.strip o = o /\ Str.index "," o = None)
            (organizations_from_env value).
Proof.
  unfold usernames_from_env, usernames_from_file, organizations_from_env.
  pose proof (split_parts "," value) as Hparts.
  pose proof (split_nonempty "," value) as Hne.
  split; [|split; [|split; [|split]]].
  - clear Hne. induction Hparts as [|part parts Hpart _ IH]; simpl; [by constructor|].
    case_bool_decide as Hempty; simpl; [done|].
    constructor; [|done]. split; [done|]. split; [apply strip_idem | by apply strip_index].
  - induction (Text.lines (Text.universal_newlines value)) as [|line ls IH];
      [by constructor|].
    cbn [List.filter].
    case_bool_decide as Hempty; cbn [negb andb]; [done|].
    destruct (Str.starts_with "#" line); cbn [negb map]; [done|].
    constructor; [|done]. split; [done | apply strip_idem].
  - by destruct (Str.split "," value).
  - by rewrite length_map.
  - clear Hne. induction Hparts as [|part parts Hpart _ IH]; simpl; constructor; [|done].
    split; [apply strip_idem | by apply strip_index].
Qed.

(** ** Reading the [Link] header *)

Lemma app_cons c a b : String c a +:+ b = String c (a +:+ b).
Proof. reflexivity. Qed.

Lemma starts_with_short p s :
  String.length s < String.length p -> Str.starts_with p s = false.
Proof.
  revert s. induction p as [|a p IH]; intros s Hlen; simpl in *; [lia|].
  destruct s as [|b s]; [done|]. simpl in Hlen.
  rewrite IH by lia. apply andb_false_r.
Qed.

Lemma index_cons_none c a s :
  Str.index c (String a s) = None <-> a <> c /\ Str.index c s = None.
Proof.
  simpl. case_bool_decide; [naive_solver|].
  destruct (Str.index c s); naive_solver.
Qed.

(** Five characters without a quote cannot begin [rel="next"]. *)
Lemma starts_with_rel_next_no_quote y t :
  Str.index Str.dquote y = None -> 5 <= String.length y ->
  Str.starts_with rel_next (y +:+ t) = false.
Proof.
  intros Hy Hlen.
  destruct y as [|c1 [|c2 [|c3 [|c4 [|c5 y]]]]]; simpl in Hlen; try lia.
  apply index_cons_none in Hy as [_ Hy]. apply index_cons_none in Hy as [_ Hy].
  apply index_cons_none in Hy as [_ Hy]. apply index_cons_none in Hy as [_ Hy].
  apply index_cons_none in Hy as [H5 _].
  rewrite !app_cons. unfold rel_next. rewrite !app_cons.
  change (EmptyString +:+ ?x) with x.
  cbn [Str.starts_with].
  rewrite (bool_decide_eq_false_2 (Str.dquote = c5)) by done.
  by rewrite !andb_false_r.
Qed.

Lemma contains_rel_next_no_quote y :
  Str.index Str.dquote y = None ->
  Str.contains rel_next (y +:+ String Str.dquote EmptyString) = false.
Proof.
  induction y as [|c y IH]; intros Hy.
  - by vm_compute.
  - apply index_cons_none in Hy as [Hc Hy'].
    rewrite app_cons. cbn [Str.contains]. rewrite <- app_cons.
    rewrite IH by done. rewrite orb_false_r.
    destruct (decide (5 <= String.length (String c y))) as [Hlong|Hshort].
    + apply starts_with_rel_next_no_quote; [|done].
      apply index_cons_none. by split.
    + apply starts_with_short.
      assert (Hlen : forall a b, String.length (a +:+ b) = String.length a + String.length b).
      { intros a b. induction a as [|x a IHa]; [done|]. rewrite app_cons. simpl. by rewrite IHa. }
      rewrite Hlen. change (String.length rel_next) with 10. simpl in *. lia.
Qed.

Lemma starts_with_quoted a rel :
  Str.index Str.dquote a = None -> Str.index Str.dquote rel = None ->
  Str.starts_with (a +:+ String Str.dquote EmptyString) (rel +:+ String Str.dquote EmptyString)
  = bool_decide (rel = a).
Proof.
  revert rel. induction a as [|x a IH]; intros rel Ha Hrel.
  - destruct rel as [|c rel].
    + by vm_compute.
    + apply index_cons_none in Hrel as [Hc _].
      rewrite app_cons. change (EmptyString +:+ ?y) with y. cbn [Str.starts_with].
      rewrite (bool_decide_eq_false_2 (Str.dquote = c)) by done.
      by rewrite bool_decide_eq_false_2.
  - apply index_cons_none in Ha as [Hx Ha].
    destruct rel as [|c rel].
    + rewrite app_cons. change (EmptyString +:+ ?y) with y. cbn [Str.starts_with].
      rewrite (bool_decide_eq_false_2 (x = Str.dquote)) by done.
      by rewrite bool_decide_eq_false_2.
    + apply index_cons_none in Hrel as [Hc Hrel].
      rewrite !app_cons. cbn [Str.starts_with]. rewrite IH by done.
      repeat case_bool_decide; simplify_eq; done.
Qed.

Lemma contains_skip c s :
  c <> "r"%char -> Str.contains rel_next (String c s) = Str.contains rel_next s.
Proof.
  intros Hc. cbn [Str.contains]. unfold rel_next at 1. rewrite app_cons.
  cbn [Str.starts_with]. by rewrite (bool_decide_eq_false_2 ("r"%char = c)).
Qed.

Lemma contains_cons p c s :
  Str.contains p (String c s) = Str.starts_with p (String c s) || Str.contains p s.
Proof. reflexivity. Qed.

Lemma starts_with_same c p s :
  Str.starts_with (String c p) (String c s) = Str.starts_with p s.
Proof. cbn [Str.starts_with]. by rewrite bool_decide_eq_true_2. Qed.

(** Whether [rel="next"] occurs in one part of the header. *)
Lemma contains_rel_next_link lead u rel :
  Str.index Str.dquote lead = None ->
  Str.index Str.dquote u = None -> Str.index Str.dquote rel = None ->
  Str.contains rel_next (lead +:+ link_value u rel) = bool_decide (rel = "next").
Proof.
  intros Hlead Hu Hrel. unfold link_value.
  rewrite <- !string_app_assoc.
  set (x := (lead +:+ "<") +:+ u).
  assert (Hx : Str.index Str.dquote x = None).
  { subst x. apply index_app_none. split; [|done].
    apply index_app_none. split; [done | by vm_compute]. }
  clearbody x. clear Hlead Hu lead u.
  set (t := String Str.dquote (rel +:+ String Str.dquote EmptyString)).
  assert (Htail : Str.contains rel_next (">; rel=" +:+ t) = bool_decide (rel = "next")).
  { subst t. rewrite !app_cons. change (EmptyString +:+ ?y) with y.
    rewrite !contains_skip by done.
    rewrite contains_cons, !contains_skip by done.
    rewrite contains_rel_next_no_quote by done. rewrite orb_false_r.
    unfold rel_next. rewrite !app_cons. change (EmptyString +:+ ?y) with y.
    rewrite !starts_with_same.
    apply (starts_with_quoted "next" rel); [by vm_compute | done]. }
  rewrite <- Htail. rewrite string_app_assoc.
  induction x as [|c x IH].
  - reflexivity.
  - apply index_cons_none in Hx as [Hc Hx'].
    rewrite app_cons. cbn [Str.contains]. rewrite IH by done.
    rewrite <- app_cons.
    replace (Str.starts_with rel_next (String c x +:+ (">; rel=" +:+ t))) with false; [done|].
    symmetry. rewrite <- string_app_assoc.
    apply starts_with_rel_next_no_quote.
    + apply index_app_none. split; [by apply index_cons_none | by vm_compute].
    + assert (Hlen : forall a b, String.length (a +:+ b) = String.length a + String.length b).
      { intros a b. induction a as [|y a IHa]; [done|]. rewrite app_cons. simpl. by rewrite IHa. }
      rewrite Hlen. simpl. lia.
Qed.

Lemma index_app_found c a b :
  Str.index c a = None -> Str.index c (a +:+ String c b) = Some (String.length a).
Proof.
  induction a as [|x a IH]; intros Ha.
  - change (EmptyString +:+ ?y) with y. simpl. by rewrite bool_decide_eq_true_2.
  - apply index_cons_none in Ha as [Hx Ha]. rewrite app_cons. simpl.
    rewrite bool_decide_eq_false_2 by done. by rewrite IH.
Qed.

Lemma substring_middle a u b :
  substring (String.length a) (String.length u) (a +:+ (u +:+ b)) = u.
Proof.
  induction a as [|x a IH].
  - change (EmptyString +:+ ?y) with y. simpl.
    induction u as [|y u IHu]; [by destruct b|]. rewrite app_cons. simpl. by rewrite IHu.
  - rewrite app_cons. simpl. exact IH.
Qed.

Lemma string_length_app a b : String.length (a +:+ b) = String.length a + String.length b.
Proof. induction a as [|x a IH]; [done|]. rewrite app_cons. simpl. by rewrite IH. Qed.

(** The target between the brackets of one part. *)
Lemma link_target lead u rel :
  Str.index "<" lead = None -> Str.index ">" lead = None ->
  Str.index "<" u = None -> Str.index ">" u = None ->
  exists a b,
    Str.index "<" (lead +:+ link_value u rel) = Some a
    /\ Str.index ">" (lead +:+ link_value u rel) = Some b
    /\ Str.slice (a + 1) b (lead +:+ link_value u rel) = u.
Proof.
  intros Hl1 Hl2 Hu1 Hu2.
  set (rest := "; rel=" +:+ String Str.dquote (rel +:+ String Str.dquote EmptyString)).
  assert (H1 : lead +:+ link_value u rel = lead +:+ String "<" (u +:+ String ">" rest))
    by reflexivity.
  assert (H2 : lead +:+ link_value u rel = (lead +:+ String "<" u) +:+ String ">" rest).
  { rewrite H1, string_app_assoc. reflexivity. }
  assert (H3 : lead +:+ link_value u rel = (lead +:+ "<") +:+ (u +:+ String ">" rest)).
  { rewrite H1, string_app_assoc. reflexivity. }
  exists (String.length lead), (String.length (lead +:+ String "<" u)).
  split; [|split].
  - rewrite H1. by apply index_app_found.
  - rewrite H2. apply index_app_found.
    apply index_app_none. split; [done|]. by apply index_cons_none.
  - unfold Str.slice.
    replace (String.length (lead +:+ String "<" u) - (String.length lead + 1))
      with (String.length u)
      by (rewrite string_length_app; simpl; lia).
    replace (String.length lead + 1) with (String.length (lead +:+ "<"))
      by (rewrite string_length_app; simpl; lia).
    rewrite H3. apply substring_middle.
Qed.

Lemma split_no_sep sep s : Str.index sep s = None -> Str.split sep s = [s].
Proof.
  induction s as [|c s IH]; intros Hs; [done|].
  apply index_cons_none in Hs as [Hc Hs]. simpl.
  rewrite bool_decide_eq_false_2 by done. by rewrite IH.
Qed.

Lemma split_app sep a b :
  Str.index sep a = None ->
  Str.split sep (a +:+ String sep b) = a :: Str.split sep b.
Proof.
  induction a as [|c a IH]; intros Ha.
  - change (EmptyString +:+ ?y) with y. simpl. by rewrite bool_decide_eq_true_2.
  - apply index_cons_none in Ha as [Hc Ha]. rewrite app_cons. simpl.
    rewrite bool_decide_eq_false_2 by done. by rewrite IH.
Qed.

Lemma link_value_free c u rel :
  Str.index c u = None -> Str.index c rel = None ->
  c <> "<"%char -> c <> ">"%char -> c <> ";"%char -> c <> " "%char -> c <> "r"%char ->
  c <> "e"%char -> c <> "l"%char -> c <> "="%char -> c <> Str.dquote ->
  Str.index c (link_value u rel) = None.
Proof.
  intros Hu Hrel. intros. unfold link_value.
  rewrite app_cons. change (EmptyString +:+ ?y) with y.
  apply index_cons_none. split; [done|].
  apply index_app_none. split; [done|].
  rewrite !app_cons. change (EmptyString +:+ ?y) with y.
  repeat (apply index_cons_none; split; [done|]).
  apply index_app_none. split; [done|].
  apply index_cons_none. by split.
Qed.

(** The parts of a header of clean links, as [split(',')] yields them:
    the first link bare, every later one behind a space. *)
Lemma next_link_parts lead links :
  (lead = EmptyString \/ lead = " ") ->
  Forall (fun l => link_free (fst l) /\ link_free (snd l)) links ->
  links <> [] ->
  next_link (Str.split "," (lead +:+ link_header links)) = inr (next_target links).
Proof.
  intros Hlead Hall. revert lead Hlead.
  induction Hall as [|[u rel] rest [Hu Hrel] Hrest IH]; intros lead Hlead Hne; [done|].
  destruct Hu as (Hu1 & Hu2 & Hu3 & Hu4). destruct Hrel as (Hr1 & Hr2 & Hr3 & Hr4).
  simpl in Hu1, Hu2, Hu3, Hu4, Hr1, Hr2, Hr3, Hr4.
  assert (Hlead_free : forall c, c <> " "%char -> Str.index c lead = None).
  { intros c Hc. destruct Hlead as [-> | ->]; [done|]. simpl.
    by rewrite bool_decide_eq_false_2. }
  assert (Hpart : Str.index "," (lead +:+ link_value u rel) = None).
  { apply index_app_none. split; [by apply Hlead_free|].
    by apply link_value_free. }
  assert (Hstep : forall more,
             next_link ((lead +:+ link_value u rel) :: more)
             = if bool_decide (rel = "next") then inr (Some u) else next_link more).
  { intros more. cbn [next_link].
    rewrite contains_rel_next_link by (auto; by apply Hlead_free).
    case_bool_decide; [|done].
    destruct (link_target lead u rel) as (a & b & -> & -> & ->);
      auto; by apply Hlead_free. }
  cbn [link_header next_target fst snd].
  destruct rest as [|l2 rest].
  - rewrite split_no_sep by done. rewrite Hstep. by case_bool_decide.
  - rewrite <- string_app_assoc.
    change (", " +:+ link_header (l2 :: rest))
      with (String "," (" " +:+ link_header (l2 :: rest))).
    rewrite split_app by done. rewrite Hstep.
    case_bool_decide; [done|]. apply IH; [by right | done].
Qed.

(** X20: the fetcher reads the [Link] header right.  For a header that
    lists links as [<target>; rel="name"], joined by a comma and a space,
    with targets and names free of commas, angle brackets and quotes,
    lines 582-588 find the target of the first link whose relation is
    [next], and no further page when there is no such link or no header at
    all. *)
Theorem next_link_reads_the_header (links : list (string * string)) :
  Forall (fun l => link_free (fst l) /\ link_free (snd l)) links ->
  next_link (Str.split "," (link_header links)) = inr (next_target links).
Proof.
  intros Hall. destruct links as [|l links]; [reflexivity|].
  change (link_header (l :: links)) with (EmptyString +:+ link_header (l :: links)).
  apply (next_link_parts EmptyString); [by left | done | done].
Qed.

(** ** More on the fetcher and the quota tracker *)

(** X21: the retry budget is per page.  As soon as a response arrives
    that is not the quota signal, the count of failed attempts is
    forgotten: the fetch goes on exactly as if the request had succeeded at
    the first attempt, and the next page has its three retries again
    (line 561). *)
Theorem retry_budget_is_per_page (fuel : nat) (url target : string) (results : json)
    (retry_count : nat) (s : state) (r : response) :
  target <> EmptyString ->
  server s (requests_sent s) (clock s) target = Responded r ->
  quota_exceeded r = false ->
  fetch_pages (S fuel) url (Some target) results retry_count s
  = fetch_pages (S fuel) url (Some target) results 0 s.
Proof.
  intros Htarget Hsrv Hquota.
  by rewrite !(fetch_pages_response _ _ _ _ _ _ r) by done.
Qed.

(** X22: what [wait_for_rate_limit] guarantees, with a number in the
    count of remaining requests.  With fewer than ten requests left, and a
    reset time the analyzer knows of, it does not return before that time;
    with ten or more it returns at once and changes nothing. *)
Theorem wait_for_rate_limit_outlasts_the_reset (s : state) (remaining : Z) :
  rate_limit_remaining s = JNum remaining ->
  ((remaining < 10)%Z ->
   forall reset, rate_limit_reset s = JNum reset ->
     fst (wait_for_rate_limit s) = Ok tt
     /\ (reset <= clock (snd (wait_for_rate_limit s)))%Z)
  /\ ((10 <= remaining)%Z -> wait_for_rate_limit s = (Ok tt, s)).
Proof.
  intros Hremaining. split.
  - intros Hlow reset Hreset.
    rewrite (wait_for_rate_limit_numbers s remaining reset)
      by (by rewrite ?Hremaining, ?Hreset).
    replace (remaining <? 10)%Z with true by (symmetry; by apply Z.ltb_lt).
    destruct (clock s <? reset)%Z eqn:Hlt; simpl.
    + split; [apply update_rate_limit_info_returns|].
      rewrite (update_rate_limit_info_clock (slept _ s)). simpl. lia.
    + apply Z.ltb_ge in Hlt. split; [done|lia].
  - intros Hample. apply wait_for_rate_limit_ample. rewrite Hremaining.
    by apply lt_int_ample.
Qed.

(** X23: the records of a run.  Every record [analyze_users] returns
    belongs to a user who is in the completed set when the run ends; the
    results file holds exactly the list that is returned; and when the
    names given are distinct, no two records are of the same user. *)
Theorem results_belong_to_completed_users (fuel : nat) (usernames : list string)
    (s s' : state) (results : list user_record) :
  analyze_users fuel usernames s = (Ok results, s') ->
  results_file s' = Some results
  /\ (forall r, r ∈ results -> rec_username r ∈ completed_users s')
  /\ (NoDup usernames -> NoDup (map rec_username results)).
Proof.
  intros Hrun.
  destruct (analyze_users_results _ _ _ _ _ Hrun) as (Hfile & Hnames & Hin & _).
  by split_and!.
Qed.

(** ** The further properties at work *)

(** X4 at work: status 500 with two failed attempts behind: no third
    one. *)
Lemma http_error_fails_at_once_witness :
  fst (fetch_pages 1 Stub.page_url (Some Stub.page_url) JNull 2
         (Stub.start [] Stub.broken))
  = Raise (ApiRequestFailed 500 "Internal Server Error").
Proof.
  destruct (http_error_fails_at_once 0 Stub.page_url Stub.page_url JNull 2
              (Stub.start [] Stub.broken)
              (Response 500 "Internal Server Error" JNull None None None))
    as [Hrun _]; [vm_compute; discriminate | vm_compute; reflexivity
                 | vm_compute; discriminate | vm_compute; reflexivity |].
  rewrite Hrun. reflexivity.
Defined.

(** X5 at work: the quota payload is an object without ['items']. *)
Lemma plain_body_ends_the_fetch_witness :
  fst (fetch_pages 1 (base_url +:+ "/rate_limit") (Some (base_url +:+ "/rate_limit"))
         JNull 0 (Stub.start [] Stub.broken))
  = Ok (Stub.quota_payload 4000 5000).
Proof.
  destruct (plain_body_ends_the_fetch 0 (base_url +:+ "/rate_limit")
              (base_url +:+ "/rate_limit") 0 (Stub.start [] Stub.broken)
              (Response 200 EmptyString (Stub.quota_payload 4000 5000) None None None))
    as [Hrun _]; [vm_compute; discriminate | vm_compute; reflexivity
                 | reflexivity | vm_compute; reflexivity |].
  rewrite Hrun. reflexivity.
Defined.

(** X6 at work on the two list pages of [Stub.paged]. *)
Lemma list_pages_are_concatenated_witness :
  exists s',
    _paginated_request 3 Stub.page_url (Stub.start [] Stub.paged)
    = (Ok (JList [Stub.commit "a"; Stub.commit "b"]), s')
    /\ requests_sent s' = 2.
Proof.
  destruct (list_pages_are_concatenated 0 Stub.page_url (Stub.start [] Stub.paged)
              [Sample.list_page1; Sample.list_page2]
              [[Stub.commit "a"]; [Stub.commit "b"]] 5000)
    as (s' & Hrun & Hsent & _).
  - vm_compute; discriminate.
  - reflexivity.
  - reflexivity.
  - vm_compute; discriminate.
  - split; [vm_compute; reflexivity|]. split; [reflexivity|]. split; [exact I|].
    exists (Some Stub.page2_url). split; [vm_compute; reflexivity|].
    split; [vm_compute; reflexivity|].
    split; [vm_compute; reflexivity|]. split; [reflexivity|]. split; [exact I|].
    exists None. split; [vm_compute; reflexivity | reflexivity].
  - repeat constructor.
  - exists s'. split; [exact Hrun | exact Hsent].
Defined.

(** X7 at work: three issues on two pages, and no [total_count] in the
    result. *)
Lemma item_pages_are_concatenated_witness :
  exists s',
    _paginated_request 3 Sample.search_url (Stub.start [] Sample.searched)
    = (Ok (JDict [("items", JList [Sample.issue 1; Sample.issue 2; Sample.issue 3])]), s')
    /\ requests_sent s' = 2.
Proof.
  destruct (item_pages_are_concatenated 0 Sample.search_url
              (Stub.start [] Sample.searched)
              [Sample.first_page; Sample.second_page]
              [[Sample.issue 1; Sample.issue 2]; [Sample.issue 3]] 5000)
    as (s' & Hrun & Hsent & _).
  - vm_compute; discriminate.
  - reflexivity.
  - reflexivity.
  - vm_compute; discriminate.
  - split; [vm_compute; reflexivity|]. split; [reflexivity|].
    split; [vm_compute; discriminate|].
    exists (Some Sample.search2_url). split; [vm_compute; reflexivity|].
    split; [vm_compute; reflexivity|].
    split; [vm_compute; reflexivity|]. split; [reflexivity|].
    split; [vm_compute; discriminate|].
    exists None. split; [vm_compute; reflexivity | reflexivity].
  - constructor; [eexists; split; reflexivity|].
    constructor; [eexists; split; reflexivity|]. constructor.
  - exists s'. split; [exact Hrun | exact Hsent].
Defined.

(** X8 at work: [rel="next"] without brackets. *)
Lemma malformed_link_fails_the_fetch_witness :
  fst (fetch_pages 1 Stub.page_url (Some Stub.page_url) JNull 0
         (Stub.start [] Sample.garbled))
  = Raise (ValueError "substring not found").
Proof.
  destruct (malformed_link_fails_the_fetch 0 Stub.page_url Stub.page_url JNull
              (JList []) (JList [Stub.commit "a"]) 0 (Stub.start [] Sample.garbled)
              Sample.garbled_page (ValueError "substring not found"))
    as (_ & Hrun & _);
    [vm_compute; discriminate | reflexivity | reflexivity | reflexivity | reflexivity
    | vm_compute; reflexivity |].
  rewrite Hrun. reflexivity.
Defined.

(** X9 at work: four repositories in batches of three. *)
Lemma batches_partition_witness :
  concat (batches repo_batch_size ["a"; "b"; "c"; "d"]) = ["a"; "b"; "c"; "d"]
  /\ length (batches repo_batch_size ["a"; "b"; "c"; "d"]) = 2.
Proof.
  destruct (batches_partition repo_batch_size ["a"; "b"; "c"; "d"]) as (Hall & _ & _);
    [unfold repo_batch_size; lia|].
  split; [exact Hall | reflexivity].
Defined.

(** X10 at work on the [acme] stub. *)
Lemma record_counters_are_coherent_witness :
  exists c : counts,
    coherent c
    /\ forall m, dict_get (metric_key m) (rec_fields Sample.acme_record) = Some (c m).
Proof.
  assert (Hrun : get_user_stats 10 "alice" (Stub.start ["acme"] Stub.acme)
                 = (Ok Sample.acme_record, snd Sample.acme_stats))
    by (vm_compute; reflexivity).
  exact (proj1 (record_counters_are_coherent 10 "alice" (Stub.start ["acme"] Stub.acme)
                  (snd Sample.acme_stats) Sample.acme_record Hrun)).
Defined.

(** X12 at work: a quota signal in capitals.  The fetcher takes it for
    what it is and fails; the orchestrator does not find its phrase and
    skips the user after one attempt. *)
Lemma quota_error_is_told_by_its_phrase_witness :
  quota_exceeded (Response 403 "API Rate Limit Exceeded" JNull (Some 0%Z) (Some 900%Z) None)
  = true
  /\ fst (analyze_user 5 "alice" [] (Stub.start ["acme"] Stub.shouting)) = Ok []
  /\ attempts "alice"
       (log (snd (analyze_user 5 "alice" [] (Stub.start ["acme"] Stub.shouting)))) = 1.
Proof.
  destruct (proj2 quota_error_is_told_by_its_phrase 5 "alice" []
              (Stub.start ["acme"] Stub.shouting)
              (refreshed (logged (LogAnalyzing "alice") (Stub.start ["acme"] Stub.shouting)))
              (snd (get_user_stats 5 "alice"
                      (refreshed (logged (LogAnalyzing "alice")
                                    (Stub.start ["acme"] Stub.shouting)))))
              "API Rate Limit Exceeded"
              ltac:(vm_compute; reflexivity) ltac:(vm_compute; reflexivity))
    as [Hskip _].
  destruct (Hskip ltac:(vm_compute; reflexivity)) as [Hrun _].
  split; [vm_compute; reflexivity|]. rewrite Hrun. clear. vm_compute. by split.
Defined.


(** X15 at work: a fresh analyzer is in sync, and stays so. *)
Lemma checkpoint_stays_in_sync_witness :
  synced (snd (analyze_users 10 ["alice"] (Stub.start ["acme"] Stub.acme))).
Proof.
  exact (proj1 (checkpoint_stays_in_sync 10 ["alice"] (Stub.start ["acme"] Stub.acme)
                  eq_refl)).
Defined.

(** X16 at work: the analyzer of a later process. *)
Lemma constructor_loads_the_checkpoint_witness :
  cache (snd Sample.later) = ∅
  /\ organizations (snd Sample.later) = ["acme"]
  /\ time_filter (snd Sample.later) = EmptyString.
Proof.
  assert (Hrun : __init__ "token" (OrgList ["acme"]) None Sample.calendar (snd Sample.once)
                 = (Ok tt, snd Sample.later)) by (vm_compute; reflexivity).
  destruct (constructor_loads_the_checkpoint _ _ _ _ _ _ Hrun)
    as (_ & _ & Hcache & Horgs & _ & _ & _ & Hfilter).
  split; [exact Hcache|]. split; [exact Horgs|]. apply Hfilter. by left.
Defined.

(** X17 at work: the second run needs no fuel and brings the record of
    the first. *)
Lemma rerun_reproduces_the_results_witness :
  fst (analyze_users 0 ["alice"] (snd Sample.later)) = Ok Sample.once_results.
Proof.
  assert (Hrun : analyze_users 10 ["alice"] (Stub.start ["acme"] Stub.acme)
                 = (Ok Sample.once_results, snd Sample.once))
    by (vm_compute; reflexivity).
  assert (Hinit : __init__ "token" (OrgList ["acme"]) None Sample.calendar (snd Sample.once)
                  = (Ok tt, snd Sample.later)) by (vm_compute; reflexivity).
  destruct (rerun_reproduces_the_results 10 0 ["alice"] (Stub.start ["acme"] Stub.acme)
              (snd Sample.once) Sample.once_results "token" (OrgList ["acme"]) None
              Sample.calendar (snd Sample.once) (snd Sample.later)
              Hrun eq_refl) as [_ Hagain].
  - apply NoDup_cons. split; [by intros ?%elem_of_nil | apply NoDup_nil_2].
  - intros u ->%list_elem_of_singleton.
    apply (bool_decide_unpack _). vm_compute. exact I.
  - reflexivity.
  - reflexivity.
  - exact Hinit.
  - rewrite Hagain. reflexivity.
Defined.

(** X18 at work on two names. *)
Lemma usernames_file_round_trip_witness :
  usernames_from_file (usernames_file_text ["alice"; "bob-2"]) = ["alice"; "bob-2"].
Proof.
  apply usernames_file_round_trip.
  repeat constructor; vm_compute; congruence.
Defined.

(** X20 at work on a header as GitHub sends it for a middle page. *)
Lemma next_link_reads_the_header_witness :
  next_link
    (Str.split ","
       (link_header [("https://api.github.com/r?page=1", "prev");
                     ("https://api.github.com/r?page=3", "next");
                     ("https://api.github.com/r?page=9", "last")]))
  = inr (Some "https://api.github.com/r?page=3").
Proof.
  etrans; [apply next_link_reads_the_header|reflexivity].
  repeat constructor.
Defined.

(** X21 at work: after two failed attempts the first page of
    [Stub.paged] arrives, and the fetch ends as it would have without
    them. *)
Lemma retry_budget_is_per_page_witness :
  fst (fetch_pages 2 Stub.page_url (Some Stub.page_url) JNull 2
         (Stub.start [] Stub.paged))
  = Ok (JList [Stub.commit "a"; Stub.commit "b"]).
Proof.
  rewrite (retry_budget_is_per_page 1 Stub.page_url Stub.page_url JNull 2
             (Stub.start [] Stub.paged) Sample.list_page1);
    [vm_compute; reflexivity | vm_compute; discriminate | vm_compute; reflexivity
    | vm_compute; reflexivity].
Defined.

(** X22 at work: five requests left and the reset time ten seconds
    ahead. *)
Lemma wait_for_rate_limit_outlasts_the_reset_witness :
  fst (wait_for_rate_limit (Stub.short Stub.acme)) = Ok tt
  /\ (1010 <= clock (snd (wait_for_rate_limit (Stub.short Stub.acme))))%Z.
Proof.
  destruct (wait_for_rate_limit_outlasts_the_reset (Stub.short Stub.acme) 5 eq_refl)
    as [Hlow _].
  exact (Hlow ltac:(lia) 1010%Z eq_refl).
Defined.

(** X23 at work: the one record of the run is of a completed user. *)
Lemma results_belong_to_completed_users_witness :
  results_file (snd Sample.once) = Some Sample.once_results
  /\ NoDup (map rec_username Sample.once_results).
Proof.
  assert (Hrun : analyze_users 10 ["alice"] (Stub.start ["acme"] Stub.acme)
                 = (Ok Sample.once_results, snd Sample.once))
    by (vm_compute; reflexivity).
  destruct (results_belong_to_completed_users 10 ["alice"]
              (Stub.start ["acme"] Stub.acme) (snd Sample.once) Sample.once_results Hrun)
    as (Hfile & _ & Hnodup).
  split; [exact Hfile|]. apply Hnodup.
  apply NoDup_cons. split; [by intros ?%elem_of_nil | apply NoDup_nil_2].
Defined.
